(** * Web-search acquisition of the skepticism RAG service

    A shallow embedding of [utils/stopwords.ts] (topic extraction and
    relevance scoring; its text follows the README in [src/README.md])
    and of the [WebSearch] class of [services/websearch.service.ts]
    (retrying fetcher, plan builder and plan execution engine; in
    [src/services/rag.service.ts]), with the properties the
    specification states about them.

    Conventions of the embedding.
    - A JavaScript string is a Rocq [string] whose characters are the
      UTF-16 code units of the JavaScript string; the model covers the
      strings over the code units 0..255 (Basic Latin and Latin-1
      Supplement), on which [toLowerCase], [trim] and the regular
      expressions of the source are given exactly.
    - A [number] that the source uses as a count is a [nat]; one that the
      caller chooses (limits, budgets, option values) is a [Z].
    - [async] methods are functions in a state-and-exception monad over an
      abstract world; [throw] is the [Throw] result. *)

From Stdlib Require Import ZArith QArith Lia List Ascii String Sorted.
From stdpp Require Import base decidable option list strings pretty gmap sets.
Local Close Scope Q_scope.
Local Open Scope Z_scope.

(** ** JavaScript strings *)

Module Js.

Definition code (c : ascii) : N := N_of_ascii c.

Definition in_range (lo hi : N) (c : ascii) : bool :=
  ((lo <=? code c) && (code c <=? hi))%N.

Definition is_code (n : N) (c : ascii) : bool := (code c =? n)%N.

(** [\s] restricted to the code units below 256: TAB, LF, VT, FF, CR,
    SPACE and NO-BREAK SPACE. *)
Definition isSpace (c : ascii) : bool :=
  in_range 9 13 c || is_code 32 c || is_code 160 c.

(** [\d], [[A-Z]], [[a-z]] and [\w]. *)
Definition isDigit (c : ascii) : bool := in_range 48 57 c.
Definition isUpper (c : ascii) : bool := in_range 65 90 c.
Definition isLower (c : ascii) : bool := in_range 97 122 c.
Definition isWordChar (c : ascii) : bool :=
  isUpper c || isLower c || isDigit c || is_code 95 c.

Definition space : ascii := ascii_of_N 32.

(** The complement of the character class [[^\w\s\-']]. *)
Definition isKept (c : ascii) : bool :=
  isWordChar c || isSpace c || is_code 45 c || is_code 39 c.

(** [String.prototype.toLowerCase] on one code unit below 256: the
    letters A-Z and the Latin-1 capitals (all of U+00C0..U+00DE but the
    multiplication sign U+00D7) move up by 32. *)
Definition toLowerChar (c : ascii) : ascii :=
  if isUpper c || in_range 192 214 c || in_range 216 222 c
  then ascii_of_N (code c + 32) else c.

Fixpoint toLowerCase (s : string) : string :=
  match s with
  | EmptyString => EmptyString
  | String c s' => String (toLowerChar c) (toLowerCase s')
  end.

(** [s.replace(/[^\w\s\-']/g, ' ')] *)
Fixpoint blankOthers (s : string) : string :=
  match s with
  | EmptyString => EmptyString
  | String c s' => String (if isKept c then c else space) (blankOthers s')
  end.

(** [s.replace(/[^\w\s\-']/g, '')] *)
Fixpoint dropOthers (s : string) : string :=
  match s with
  | EmptyString => EmptyString
  | String c s' => if isKept c then String c (dropOthers s') else dropOthers s'
  end.

(** [s.split(/\s+/)]: the pieces between the maximal runs of white space.
    The head of the result is the piece that starts at the current
    position; [inRun] tells that the previous character was white space. *)
Fixpoint splitFrom (inRun : bool) (s : string) : list string :=
  match s with
  | EmptyString => [EmptyString]
  | String c s' =>
      if isSpace c then
        if inRun then splitFrom true s' else EmptyString :: splitFrom true s'
      else
        match splitFrom false s' with
        | p :: ps => String c p :: ps
        | [] => [String c EmptyString]
        end
  end.

Definition splitSpaces (s : string) : list string := splitFrom false s.

Definition nonEmpty (s : string) : bool :=
  match s with EmptyString => false | String _ _ => true end.

Fixpoint trimStart (s : string) : string :=
  match s with
  | EmptyString => EmptyString
  | String c s' => if isSpace c then trimStart s' else s
  end.

Fixpoint trimEnd (s : string) : string :=
  match s with
  | EmptyString => EmptyString
  | String c s' =>
      match trimEnd s' with
      | EmptyString => if isSpace c then EmptyString else String c EmptyString
      | t => String c t
      end
  end.

Definition trim (s : string) : string := trimEnd (trimStart s).

(** [s.startsWith(p)] *)
Definition startsWith (s p : string) : bool := String.prefix p s.

(** [s.includes(sub)] *)
Fixpoint includes (s sub : string) : bool :=
  String.prefix sub s ||
  match s with
  | EmptyString => false
  | String _ s' => includes s' sub
  end.

(** [/^[A-Z]/.test(s)], [/\d/.test(s)] and [/[A-Z]{2,}/.test(s)]. *)
Definition startsUpper (s : string) : bool :=
  match s with EmptyString => false | String c _ => isUpper c end.

Fixpoint hasDigit (s : string) : bool :=
  match s with
  | EmptyString => false
  | String c s' => isDigit c || hasDigit s'
  end.

Fixpoint hasTwoUpper (s : string) : bool :=
  match s with
  | String c (String d _ as s') => (isUpper c && isUpper d) || hasTwoUpper s'
  | _ => false
  end.

(** [words.join(' ')] *)
Definition joinSpaces (words : list string) : string :=
  String.concat (String space EmptyString) words.

(** [a.slice(0, n)]: a negative [n] counts from the end of the array. *)
Definition sliceTo {A} (n : Z) (a : list A) : list A :=
  if n <? 0 then take (Z.to_nat (Z.of_nat (length a) + n)) a
  else take (Z.to_nat n) a.

(** The source files are UTF-8; this reads a literal of this file as the
    code units it denotes (two-byte sequences stand for U+0080..U+00FF). *)
Fixpoint latin1 (s : string) : string :=
  match s with
  | EmptyString => EmptyString
  | String c s' =>
      match s' with
      | String d s'' =>
          if in_range 194 195 c
          then String (ascii_of_N ((code c - 192) * 64 + (code d - 128))) (latin1 s'')
          else String c (latin1 s')
      | EmptyString => s
      end
  end.

End Js.

(** ** [utils/stopwords.ts]: topic extraction and relevance scoring *)

Module Stopwords.
Import Js.

Definition FRENCH_STOP_WORDS : gset string :=
  list_to_set (map latin1 [
    "le"; "la"; "les"; "un"; "une"; "des"; "du"; "de"; "da"; "au"; "aux";
    "à"; "avec"; "dans"; "pour"; "sur"; "sous"; "par"; "entre"; "vers";
    "chez"; "sans"; "contre"; "depuis"; "pendant"; "avant"; "après";
    "devant"; "derrière"; "et"; "ou"; "mais"; "donc"; "or"; "ni"; "car";
    "que"; "qui"; "quoi"; "dont"; "où"; "quand"; "comment"; "pourquoi";
    "si"; "comme"; "lorsque"; "puisque"; "je"; "tu"; "il"; "elle"; "nous";
    "vous"; "ils"; "elles"; "me"; "te"; "se"; "lui"; "leur"; "ce"; "cet";
    "cette"; "ces"; "mon"; "ma"; "mes"; "ton"; "ta"; "tes"; "son"; "sa";
    "ses"; "notre"; "nos"; "votre"; "vos"; "leur"; "leurs"; "être"; "avoir";
    "faire"; "aller"; "venir"; "voir"; "savoir"; "pouvoir"; "vouloir";
    "devoir"; "falloir"; "est"; "sont"; "était"; "étaient"; "sera";
    "seront"; "a"; "ont"; "avait"; "avaient"; "aura"; "auront"; "fait";
    "font"; "faisait"; "faisaient"; "fera"; "feront"; "va"; "vont";
    "allait"; "allaient"; "ira"; "iront"; "très"; "plus"; "moins"; "aussi";
    "encore"; "déjà"; "toujours"; "jamais"; "souvent"; "parfois"; "bien";
    "mal"; "mieux"; "beaucoup"; "peu"; "assez"; "trop"; "tout"; "tous";
    "toute"; "toutes"; "rien"; "quelque"; "quelques"; "chaque"; "plusieurs";
    "certains"; "certaines"; "alors"; "ainsi"; "cependant"; "néanmoins";
    "toutefois"; "pourtant"; "en effet"; "par exemple"; "notamment";
    "c'est-à-dire"; "autrement dit"; "oui"; "non"; "peut-être"; "voici";
    "voilà"; "ici"; "là"; "maintenant"; "aujourd'hui"; "hier"; "demain";
    "année"; "mois"; "jour"; "heure"; "temps"; "fois"; "chose"; "façon";
    "manière"; "cas"; "exemple" ]%string).

Definition ENGLISH_STOP_WORDS : gset string :=
  list_to_set [
    "the"; "a"; "an"; "and"; "or"; "but"; "in"; "on"; "at"; "to"; "for";
    "of"; "with"; "by"; "from"; "up"; "about"; "into"; "through"; "during";
    "before"; "after"; "above"; "below"; "between"; "among"; "is"; "are";
    "was"; "were"; "be"; "been"; "being"; "have"; "has"; "had"; "do";
    "does"; "did"; "will"; "would"; "could"; "should"; "may"; "might";
    "must"; "can"; "this"; "that"; "these"; "those"; "i"; "you"; "he";
    "she"; "it"; "we"; "they"; "me"; "him"; "her"; "us"; "them"; "my";
    "your"; "his"; "her"; "its"; "our"; "their"; "what"; "which"; "who";
    "when"; "where"; "why"; "how"; "all"; "any"; "both"; "each"; "few";
    "more"; "most"; "other"; "some"; "such"; "no"; "nor"; "not"; "only";
    "own"; "same"; "so"; "than"; "too"; "very"; "just"; "now" ]%string.

Inductive Language := fr | en | both.

(** Every field is optional; [None] is a field the caller left out. *)
Record TopicExtractionOptions := {
  language : option Language;
  minWordLength : option Z;
  maxTopics : option Z;
  customStopWords : option (list string);
  preserveCapitalized : option bool
}.

Definition noOptions : TopicExtractionOptions :=
  {| language := None; minWordLength := None; maxTopics := None;
     customStopWords := None; preserveCapitalized := None |}.

Record Stats := {
  originalWordCount : nat;
  finalWordCount : nat;
  stopWordsRemoved : nat
}.

Record ExtractedTopics := {
  topics : list string;
  cleanedQuery : string;
  removedWords : list string;
  stats : Stats
}.

(** [query.toLowerCase().replace(/[^\w\s\-']/g, ' ').split(/\s+/)
      .filter(word => word.length > 0)] *)
Definition normalisedWords (query : string) : list string :=
  List.filter nonEmpty (splitSpaces (blankOthers (toLowerCase query))).

Definition wantsFrench (l : Language) : bool :=
  match l with fr | both => true | en => false end.

Definition wantsEnglish (l : Language) : bool :=
  match l with en | both => true | fr => false end.

Definition buildStopWords (l : Language) (custom : list string) : gset string :=
  let stopWords : gset string := ∅ in
  let stopWords := if wantsFrench l then stopWords ∪ FRENCH_STOP_WORDS else stopWords in
  let stopWords := if wantsEnglish l then stopWords ∪ ENGLISH_STOP_WORDS else stopWords in
  foldl (fun acc word => acc ∪ {[ toLowerCase word ]}) stopWords custom.

(** [query.split(/\s+/).find(w =>
      w.toLowerCase().replace(/[^\w\s\-']/g, '') === cleanWord)] *)
Definition findOriginalWord (query cleanWord : string) : option string :=
  List.find (fun w => String.eqb (dropOthers (toLowerCase w)) cleanWord)
            (splitSpaces query).

(** The body of [originalWords.forEach]; the state is the pair of arrays
    [removedWords] and [topics], both grown by [push]. *)
Definition processWord (query : string) (minLen : Z) (stopWords : gset string)
    (preserve : bool) (acc : list string * list string) (word : string)
    : list string * list string :=
  let '(removed, found) := acc in
  let cleanWord := trim word in
  if Z.of_nat (String.length cleanWord) <? minLen then
    (removed ++ [cleanWord], found)
  else if bool_decide (cleanWord ∈ stopWords) then
    (removed ++ [cleanWord], found)
  else
    match findOriginalWord query cleanWord with
    | Some originalWord =>
        if preserve && nonEmpty originalWord && startsUpper originalWord
        then (removed, found ++ [originalWord])
        else (removed, found ++ [cleanWord])
    | None => (removed, found ++ [cleanWord])
    end.

Definition extractTopics (query : string) (options : TopicExtractionOptions)
    : ExtractedTopics :=
  let language := default both (language options) in
  let minWordLength := default 2 (minWordLength options) in
  let maxTopics := default 10 (maxTopics options) in
  let customStopWords := default [] (customStopWords options) in
  let preserveCapitalized := default true (preserveCapitalized options) in
  let originalWords := normalisedWords query in
  let stopWords := buildStopWords language customStopWords in
  let '(removedWords, topics) :=
    foldl (processWord query minWordLength stopWords preserveCapitalized)
          ([], []) originalWords in
  let finalTopics := sliceTo maxTopics topics in
  let cleanedQuery := joinSpaces finalTopics in
  {| topics := finalTopics;
     cleanedQuery := cleanedQuery;
     removedWords := removedWords;
     stats := {| originalWordCount := length originalWords;
                 finalWordCount := length finalTopics;
                 stopWordsRemoved := length removedWords |} |}.

Inductive Category := high | medium | low.

Record RelevanceEntry := {
  topic : string;
  relevanceScore : Z;
  category : Category
}.

(** [Array.prototype.sort(compare)]: the sort is stable, and [a] stays
    before [b] unless [compare(a, b) > 0]. *)
Fixpoint sortInsert {A} (compare : A -> A -> Z) (x : A) (l : list A) : list A :=
  match l with
  | [] => [x]
  | y :: l' =>
      if 0 <? compare x y then y :: sortInsert compare x l' else x :: l
  end.

Definition arraySort {A} (compare : A -> A -> Z) (l : list A) : list A :=
  foldr (sortInsert compare) [] l.

(** The score before the cap. [topic.length / 10] and its product with 30
    are exact in double precision for the lengths 0..9, so that
    [Math.min(topic.length / 10, 1) * 30] is the integer
    [3 * min(topic.length, 10)] and every later sum is one of integers. *)
Definition score (topic : string) : Z :=
  let score := 0 in
  let score := score + 3 * Z.min (Z.of_nat (String.length topic)) 10 in
  let score := if startsUpper topic then score + 25 else score in
  let score := if hasDigit topic then score + 20 else score in
  let score :=
    if includes topic "-" || includes topic "_"
    then score + 15 else score in
  let score := if hasTwoUpper topic then score + 20 else score in
  score + 10.

Definition relevanceOf (topic : string) : RelevanceEntry :=
  let score := score topic in
  let category :=
    if 70 <=? score then high else if 40 <=? score then medium else low in
  {| topic := topic; relevanceScore := Z.min score 100; category := category |}.

Definition analyzeTopicRelevance (topics : list string) : list RelevanceEntry :=
  arraySort (fun a b => relevanceScore b - relevanceScore a)
            (map relevanceOf topics).

(** The pairs of the double loop of [generateSearchVariants], in the
    order in which the loop makes them. *)
Fixpoint pairVariants (topics : list string) : list string :=
  match topics with
  | [] => []
  | t :: rest =>
      map (fun u => t +:+ " " +:+ u) rest ++ pairVariants rest
  end.

(** [[...new Set(variants)]]: a set keeps the order of first insertion. *)
Definition uniqueInOrder (l : list string) : list string :=
  foldl (fun kept x => if bool_decide (x ∈ kept) then kept else kept ++ [x]) [] l.

Definition generateSearchVariants (topics : list string) : list string :=
  if (length topics =? 0)%nat then []
  else
    let variants := [joinSpaces topics] in
    let variants :=
      if (2 <? length topics)%nat then variants ++ pairVariants topics
      else variants in
    let variants :=
      variants ++ List.filter (fun t => (4 <? String.length t)%nat) topics in
    sliceTo 5 (uniqueInOrder variants).

End Stopwords.

(** ** [services/websearch.service.ts]: the [WebSearch] class *)

Module WebSearch.
Import Js Stopwords.

(** *** Exceptions and the monad of [async] methods *)

(** A thrown value: an [Error] with its message, or [undefined] (what
    [throw lastError!] throws when no attempt was made). *)
Inductive Thrown := ErrorOf (message : string) | Undefined.

Inductive Result (A : Type) := Ok (value : A) | Throw (reason : Thrown).
Arguments Ok {A} value.
Arguments Throw {A} reason.

(** A computation over the world [W]: it returns or throws, and leaves the
    world changed. *)
Definition M (W A : Type) : Type := W -> Result A * W.

Definition ret {W A} (a : A) : M W A := fun w => (Ok a, w).

Definition throw {W A} (e : Thrown) : M W A := fun w => (Throw e, w).

Definition bind {W A B} (m : M W A) (k : A -> M W B) : M W B :=
  fun w =>
    match m w with
    | (Ok a, w') => k a w'
    | (Throw e, w') => (Throw e, w')
    end.

(** [try { m } catch (error) { handler(error) }] *)
Definition tryCatch {W A} (m : M W A) (handler : Thrown -> M W A) : M W A :=
  fun w =>
    match m w with
    | (Ok a, w') => (Ok a, w')
    | (Throw e, w') => handler e w'
    end.

Definition lift {W A} (r : Result A) : M W A := fun w => (r, w).

Notation "'let*' x ':=' m 'in' k" := (bind m (fun x => k))
  (at level 10, x name, m at level 100, k at level 200).

(** [throw new Error(prefix + error.message)] inside a [catch]: reading
    [message] off [undefined] is itself a [TypeError]. *)
Definition rethrow {W A} (prefix : string) (error : Thrown) : M W A :=
  match error with
  | ErrorOf message => throw (ErrorOf (prefix +:+ message))
  | Undefined =>
      throw (ErrorOf "Cannot read properties of undefined (reading 'message')")
  end.

(** *** Data *)

Inductive SearchEngine := google | bing | duckduckgo.

Record Config := {
  maxResults : Z;
  timeout : Z;
  retryAttempts : Z;
  retryDelay : Z;
  minContentLength : Z;
  excludeDomains : list string;
  includeDomains : list string
}.

(** The constructor's defaults. *)
Definition defaultConfig : Config :=
  {| maxResults := 10; timeout := 15000; retryAttempts := 3;
     retryDelay := 1000; minContentLength := 200;
     excludeDomains := []; includeDomains := [] |}.

Module SearchResult.
Record t := {
  title : string;
  url : string;
  snippet : string;
  rank : Z
}.
End SearchResult.

Record Metadata := {
  description : option string;
  keywords : option string;
  author : option string;
  publishDate : option string;
  pageLanguage : option string
}.

Definition noMetadata : Metadata :=
  {| description := None; keywords := None; author := None;
     publishDate := None; pageLanguage := None |}.

(** [url] is optional because [_filterNewResults] reads it with [?.]. *)
Module ExtractedContent.
Record t := {
  url : option string;
  title : string;
  content : string;
  headings : list string;
  links : list string;
  metadata : Metadata;
  extractedAt : Z;
  success : bool;
  error : option string
}.
End ExtractedContent.

Record SearchPlanStep := {
  query : string;
  reason : string;
  optional : option bool;
  limit : option Z
}.

Record RunResult := {
  results : list ExtractedContent.t;
  executedQueries : list string;
  stepResults : list (SearchPlanStep * list ExtractedContent.t)
}.

(** *** What the class gets from its platform *)

(** One [fetch] followed by [response.text()]: the promise is rejected
    (network failure, abort on time-out), or a response arrives with its
    status and the outcome of reading its body. *)
Inductive FetchOutcome :=
  | Rejected (reason : Thrown)
  | Responded (status : Z) (statusText : string) (text : Result string).

(** What cheerio reads off one [.result__body] element. *)
Record Hit := {
  hitTitle : string;
  hitHref : option string;
  hitSnippet : string
}.

(** What cheerio reads off a fetched page. *)
Record Page := {
  pageTitle : string;
  pageContent : string;
  pageHeadings : list string;
  pageLinks : list string;
  pageMetadata : Metadata
}.

(** The network, the clock, the WHATWG [URL] class and cheerio.
    [urlHostname u] is [new URL(u).hostname], or [None] when the
    constructor throws; [parsePage] stands for [cheerio.load] and the four
    [_extract...] readers, whose exceptions [_extractSingleContent]
    catches. *)
Class Platform (W : Type) := {
  fetch : string -> W -> FetchOutcome * W;
  delay : Z -> W -> W;
  now : W -> Z;
  encodeURIComponent : string -> string;
  urlHostname : string -> option string;
  cleanUrl : string -> string;
  parseResultPage : string -> list Hit;
  parsePage : Z -> string -> string -> Result Page
}.

Section Methods.
Context {W : Type} `{Platform W}.
Variable config : Config.

(** *** [_fetchWithRetry] *)

(** [response.ok] *)
Definition isOk (status : Z) : bool := (200 <=? status) && (status <=? 299).

(** The [try] block of one attempt. *)
Definition attemptOnce (url : string) : M W string :=
  fun w =>
    match fetch url w with
    | (Rejected reason, w') => (Throw reason, w')
    | (Responded status statusText text, w') =>
        if negb (isOk status)
        then (Throw (ErrorOf ("HTTP " +:+ pretty status +:+ ": " +:+ statusText)), w')
        else (text, w')
    end.

(** The [for] loop over the attempts still to make. *)
Fixpoint retryLoop (url : string) (attempts : list Z) (lastError : Thrown)
    : M W string :=
  match attempts with
  | [] => throw lastError
  | attempt :: later =>
      tryCatch (attemptOnce url)
        (fun error =>
           let lastError := error in
           if attempt <? retryAttempts config
           then fun w => retryLoop url later lastError
                           (delay (retryDelay config * attempt) w)
           else retryLoop url later lastError)
  end.

Definition fetchWithRetry (url : string) : M W string :=
  retryLoop url (seqZ 1 (retryAttempts config)) Undefined.

(** *** Search *)

Definition extractDomain (url : string) : string :=
  match urlHostname url with
  | Some hostname => toLowerCase hostname
  | None => EmptyString
  end.

Definition filterResults (found : list SearchResult.t) : list SearchResult.t :=
  List.filter
    (fun result =>
       let domain := extractDomain (SearchResult.url result) in
       if existsb (fun excluded => includes domain excluded) (excludeDomains config)
       then false
       else if 0 <? Z.of_nat (length (includeDomains config))
       then existsb (fun included => includes domain included) (includeDomains config)
       else true)
    found.

(** The callback of [$('.result__body').each]; [index] counts from 0. *)
Definition resultOfHit (index : nat) (hit : Hit) : option SearchResult.t :=
  let title := trim (hitTitle hit) in
  let snippet := trim (hitSnippet hit) in
  match hitHref hit with
  | Some url =>
      if nonEmpty title && nonEmpty url && nonEmpty snippet
      then Some {| SearchResult.title := title;
                   SearchResult.url := cleanUrl url;
                   SearchResult.snippet := snippet;
                   SearchResult.rank := Z.of_nat index + 1 |}
      else None
  | None => None
  end.

Definition searchDuckDuckGo (query : string) : M W (list SearchResult.t) :=
  let searchUrl := "https://html.duckduckgo.com/html/?q=" +:+ encodeURIComponent query in
  let* response := fetchWithRetry searchUrl in
  ret (omap id (imap resultOfHit (parseResultPage response))).

Definition performSearch (query : string) (searchEngine : SearchEngine)
    : M W (list SearchResult.t) :=
  match searchEngine with
  | duckduckgo => searchDuckDuckGo query
  | _ => searchDuckDuckGo query
  end.

Definition validateQuery (query : string) : Result unit :=
  if negb (nonEmpty query) || (String.length (trim query) =? 0)%nat
  then Throw (ErrorOf (latin1 "La requête de recherche ne peut pas être vide"))
  else if (String.length (trim query) <? 2)%nat
  then Throw (ErrorOf (latin1 "La requête de recherche doit contenir au moins 2 caractères"))
  else Ok tt.

Definition getTopUrls (query : string) (searchEngine : SearchEngine)
    (limit : option Z) : M W (list string) :=
  tryCatch
    (let* _ := lift (validateQuery query) in
     let* searchResults := performSearch query searchEngine in
     let filteredResults := filterResults searchResults in
     let effectiveLimit := default (maxResults config) limit in
     ret (map SearchResult.url (sliceTo effectiveLimit filteredResults)))
    (rethrow "Erreur lors de la recherche: ").

(** *** Extraction *)

Definition extractSingleContent (url : string) : M W ExtractedContent.t :=
  tryCatch
    (let* response := fetchWithRetry url in
     let* page := lift (parsePage (minContentLength config) url response) in
     fun w =>
       (Ok {| ExtractedContent.url := Some url;
              ExtractedContent.title := pageTitle page;
              ExtractedContent.content := pageContent page;
              ExtractedContent.headings := pageHeadings page;
              ExtractedContent.links := pageLinks page;
              ExtractedContent.metadata := pageMetadata page;
              ExtractedContent.extractedAt := now w;
              ExtractedContent.success := true;
              ExtractedContent.error := None |}, w))
    (rethrow ("Erreur lors de l'extraction de " +:+ url +:+ ": ")).

Definition validUrl (url : string) : bool :=
  match urlHostname url with Some _ => true | None => false end.

Definition validateUrls (urls : list string) : Result unit :=
  if (length urls =? 0)%nat
  then Throw (ErrorOf (latin1 "Le tableau d'URLs ne peut pas être vide"))
  else match List.find (fun url => negb (validUrl url)) urls with
       | Some url => Throw (ErrorOf ("URL invalide: " +:+ url))
       | None => Ok tt
       end.

(** [Promise.allSettled]: every task runs to its own result, and the
    results come in the order of the array. The tasks are taken one
    after the other: what the platform answers to one of them is taken
    not to depend on how their requests interleave. *)
Fixpoint allSettled {A} (tasks : list (M W A)) : M W (list (Result A)) :=
  match tasks with
  | [] => ret []
  | task :: others =>
      fun w =>
        let '(settled, w') := task w in
        let '(rest, w'') := allSettled others w' in
        (match rest with
         | Ok rest => Ok (settled :: rest)
         | Throw e => Throw e
         end, w'')
  end.

(** [result.reason?.message || 'Erreur inconnue'] *)
Definition reasonMessage (reason : Thrown) : string :=
  match reason with
  | ErrorOf message => if nonEmpty message then message else "Erreur inconnue"
  | Undefined => "Erreur inconnue"
  end.

(** The callback of [results.map] in [extractContents]. *)
Definition settledContent (clock : Z) (url : string)
    (result : Result ExtractedContent.t) : ExtractedContent.t :=
  match result with
  | Ok value => value
  | Throw reason =>
      {| ExtractedContent.url := Some url;
         ExtractedContent.title := EmptyString;
         ExtractedContent.content := EmptyString;
         ExtractedContent.headings := [];
         ExtractedContent.links := [];
         ExtractedContent.metadata := noMetadata;
         ExtractedContent.extractedAt := clock;
         ExtractedContent.success := false;
         ExtractedContent.error := Some (reasonMessage reason) |}
  end.

Definition extractContents (urls : list string) : M W (list ExtractedContent.t) :=
  tryCatch
    (let* _ := lift (validateUrls urls) in
     let* settled := allSettled (map extractSingleContent urls) in
     fun w => (Ok (zip_with (settledContent (now w)) urls settled), w))
    (rethrow "Erreur lors de l'extraction du contenu: ").

Definition searchAndExtract (query : string) (searchEngine : SearchEngine)
    (limit : option Z) : M W (list ExtractedContent.t) :=
  tryCatch
    (let* urls := getTopUrls query searchEngine limit in
     extractContents urls)
    (rethrow "Erreur lors de la recherche et extraction: ").

End Methods.

(** *** Plan execution *)

(** [_filterNewResults]: the body of the loop, then the loop. The set
    [seenUrls] is the caller's and is updated in place, so it is returned
    with the filtered array. *)
Definition filterNewStep (acc : list ExtractedContent.t * gset string)
    (result : ExtractedContent.t) : list ExtractedContent.t * gset string :=
  let '(filtered, seenUrls) := acc in
  match trim <$> ExtractedContent.url result with
  | None => acc
  | Some url =>
      if negb (nonEmpty url) then acc
      else if bool_decide (url ∈ seenUrls) then acc
      else (filtered ++ [result], seenUrls ∪ {[ url ]})
  end.

Definition filterNewResults (found : list ExtractedContent.t)
    (seenUrls : gset string) : list ExtractedContent.t * gset string :=
  foldl filterNewStep ([], seenUrls) found.

(** The four locals of [_runSearchPlan]. *)
Record Accumulator := {
  aggregatedResults : list ExtractedContent.t;
  seenUrls : gset string;
  executed : list string;
  perStep : list (SearchPlanStep * list ExtractedContent.t)
}.

Definition emptyAccumulator : Accumulator :=
  {| aggregatedResults := []; seenUrls := ∅; executed := []; perStep := [] |}.

(** [step.optional] and [step.limit] used as conditions. *)
Definition isOptional (step : SearchPlanStep) : bool := default false (optional step).

Definition hasLimit (step : SearchPlanStep) : option Z :=
  match limit step with
  | Some l => if l =? 0 then None else Some l
  | None => None
  end.

(** The limit handed to [searchAndExtract]:
    [Math.max(step.limit ? Math.min(step.limit, remainingSlots) : remainingSlots, 1)]. *)
Definition stepLimit (step : SearchPlanStep) (remainingSlots : Z) : Z :=
  let queryLimit :=
    match hasLimit step with
    | Some l => Z.min l remainingSlots
    | None => remainingSlots
    end in
  Z.max queryLimit 1.

(** What one iteration does once [searchAndExtract] has returned. *)
Definition recordStep (remainingSlots : Z) (step : SearchPlanStep)
    (stepRawResults : list ExtractedContent.t) (acc : Accumulator) : Accumulator :=
  let '(filtered, seenUrls) := filterNewResults stepRawResults (seenUrls acc) in
  let newResults := sliceTo remainingSlots filtered in
  {| aggregatedResults :=
       if (0 <? length newResults)%nat
       then aggregatedResults acc ++ newResults
       else aggregatedResults acc;
     seenUrls := seenUrls;
     executed := executed acc ++ [query step];
     perStep := perStep acc ++ [(step, newResults)] |}.

Section Engine.
Context {W : Type}.

(** [this.searchAndExtract], as the engine calls it. *)
Variable search : string -> SearchEngine -> option Z -> M W (list ExtractedContent.t).
Variable searchEngine : SearchEngine.
Variable desiredResults : Z.

(** The [for (const step of searchPlan)] loop: [continue] goes on with
    the rest of the plan, [break] returns the accumulator. *)
Fixpoint runSteps (searchPlan : list SearchPlanStep) (acc : Accumulator)
    : M W Accumulator :=
  match searchPlan with
  | [] => ret acc
  | step :: rest =>
      let accepted := Z.of_nat (length (aggregatedResults acc)) in
      if isOptional step && (desiredResults <=? accepted) then runSteps rest acc
      else
        let remainingSlots := desiredResults - accepted in
        if remainingSlots <=? 0 then ret acc
        else
          let* stepRawResults :=
            search (query step) searchEngine (Some (stepLimit step remainingSlots)) in
          let acc := recordStep remainingSlots step stepRawResults acc in
          if desiredResults <=? Z.of_nat (length (aggregatedResults acc))
          then ret acc
          else runSteps rest acc
  end.

Definition runSearchPlanWith (searchPlan : list SearchPlanStep) : M W RunResult :=
  let* acc := runSteps searchPlan emptyAccumulator in
  ret {| results := aggregatedResults acc;
         executedQueries := executed acc;
         stepResults := perStep acc |}.

End Engine.

(** [_runSearchPlan] *)
Definition runSearchPlan {W} `{Platform W} (config : Config)
    (searchPlan : list SearchPlanStep) (searchEngine : SearchEngine)
    (desiredResults : Z) : M W RunResult :=
  runSearchPlanWith (searchAndExtract config) searchEngine desiredResults searchPlan.

(** *** Plan construction *)

(** The ninth and tenth words of the source list are the two spellings
    of the same word: the letter U+00F9, and [u] followed by the combining
    accent U+0300. The second has a code unit above 255 and starts no
    string of this model, so it is left out. *)
Definition questionWords : list string :=
  ["comment"; "pourquoi"; "quel"; "quelle"; "quels"; "quelles";
   latin1 "où"; "qui"; "combien"]%string.

(** [originalWordCount > 0 ? stopWordsRemoved / originalWordCount : 0].
    The quotient of two counts and its comparisons with 0.4 and 0.5 are
    those of the rationals as long as the counts stay below 2^50. *)
Definition removalRatio (s : Stats) : Q :=
  if (0 <? originalWordCount s)%nat
  then (inject_Z (Z.of_nat (stopWordsRemoved s)) /
        inject_Z (Z.of_nat (originalWordCount s)))%Q
  else 0%Q.

Definition startsWithQuestionWord (normalized : string) : bool :=
  existsb (fun word => startsWith (toLowerCase normalized) (word +:+ " "))
          questionWords.

Definition shouldFallbackToOriginal (originalQuery : string)
    (topicAnalysis : ExtractedTopics) : bool :=
  let normalized := trim originalQuery in
  if (String.length normalized =? 0)%nat then true
  else
    let cleanedQuery := trim (cleanedQuery topicAnalysis) in
    if (String.length cleanedQuery =? 0)%nat then true
    else
      let removalRatio := removalRatio (stats topicAnalysis) in
      if startsWithQuestionWord normalized && negb (Qle_bool removalRatio (4 # 10))
      then true
      else if (finalWordCount (stats topicAnalysis) <=? 2)%nat
              && Qle_bool (1 # 2) removalRatio
      then true
      else false.

(** [Math.ceil(n / d)] for a positive divisor, as long as the quotient is
    exact in double precision (numbers below 2^53): the integers stand
    for the doubles of the source. *)
Definition ceilDiv (n d : Z) : Z := - ((- n) / d).

Definition buildSearchPlan (originalQuery : string)
    (topicAnalysis : ExtractedTopics) (highRelevanceTopics : list string)
    (desiredResults : Z) (maxHighPriorityTopics : option Z)
    : list SearchPlanStep :=
  let maxHighPriorityTopics := default 2 maxHighPriorityTopics in
  let normalizedOriginal := trim originalQuery in
  let cleanedQuery := trim (cleanedQuery topicAnalysis) in
  let fallbackToOriginal := shouldFallbackToOriginal normalizedOriginal topicAnalysis in
  let plan :=
    if fallbackToOriginal || (String.length cleanedQuery =? 0)%nat then
      {| query := normalizedOriginal;
         reason := latin1 "requête originale conservée";
         optional := None; limit := None |} ::
      (if (0 <? String.length cleanedQuery)%nat
          && negb (String.eqb cleanedQuery normalizedOriginal)
       then [ {| query := cleanedQuery;
                 reason := "variante sans stop words";
                 optional := Some true;
                 limit := Some (Z.max 2 (ceilDiv desiredResults 2)) |} ]
       else [])
    else
      {| query := cleanedQuery;
         reason := latin1 "requête optimisée";
         optional := None; limit := None |} ::
      (if negb (String.eqb cleanedQuery normalizedOriginal)
       then [ {| query := normalizedOriginal;
                 reason := latin1 "requête originale (contexte)";
                 optional := Some true;
                 limit := Some (Z.max 2 (ceilDiv desiredResults 2)) |} ]
       else []) in
  let highPriorityCap := Z.max 0 maxHighPriorityTopics in
  if 0 <? highPriorityCap then
    plan ++
    map (fun topic =>
           {| query := topic;
              reason := "sujet prioritaire";
              optional := Some true;
              limit := Some (Z.max 1 (ceilDiv desiredResults 3)) |})
        (sliceTo highPriorityCap
           (List.filter
              (fun topic =>
                 (0 <? String.length topic)%nat
                 && negb (String.eqb topic cleanedQuery)
                 && negb (String.eqb topic normalizedOriginal))
              highRelevanceTopics))
  else plan.

(** *** [smartSearch] *)

Record SmartResult := {
  smartResults : list ExtractedContent.t;
  topicAnalysis : ExtractedTopics;
  smartTopics : list string;
  smartExecutedQueries : list string
}.

(** [{ language: 'both', minWordLength: 3, maxTopics: 8,
       preserveCapitalized: true, ...topicOptions }] *)
Definition smartTopicOptions (topicOptions : TopicExtractionOptions)
    : TopicExtractionOptions :=
  {| language := Some (default both (language topicOptions));
     minWordLength := Some (default 3 (minWordLength topicOptions));
     maxTopics := Some (default 8 (maxTopics topicOptions));
     customStopWords := customStopWords topicOptions;
     preserveCapitalized := Some (default true (preserveCapitalized topicOptions)) |}.

Definition isHigh (e : RelevanceEntry) : bool :=
  match category e with high => true | _ => false end.

Definition smartSearch {W} `{Platform W} (config : Config) (query : string)
    (searchEngine : SearchEngine) (topicOptions : TopicExtractionOptions)
    (maxResultsOption : option Z) : M W SmartResult :=
  tryCatch
    (let* _ := lift (validateQuery query) in
     let desiredResults := Z.max 1 (default (maxResults config) maxResultsOption) in
     let topicAnalysis := extractTopics query (smartTopicOptions topicOptions) in
     let relevanceAnalysis := analyzeTopicRelevance (topics topicAnalysis) in
     let highRelevanceTopics := map topic (List.filter isHigh relevanceAnalysis) in
     let highPriorityLimit :=
       Z.min 2 (Z.max 0 (Z.of_nat (length highRelevanceTopics))) in
     let searchPlan :=
       buildSearchPlan query topicAnalysis highRelevanceTopics desiredResults
                       (Some highPriorityLimit) in
     let* runResult := runSearchPlan config searchPlan searchEngine desiredResults in
     ret {| smartResults := results runResult;
            topicAnalysis := topicAnalysis;
            smartTopics := topics topicAnalysis;
            smartExecutedQueries := executedQueries runResult |})
    (rethrow "Erreur lors de la recherche intelligente: ").

(** *** [comprehensiveSearch] *)

Record ComprehensiveOptions := {
  maxVariants : option Z;
  topicOptions : option TopicExtractionOptions;
  deduplicateResults : option bool;
  wantedResults : option Z
}.

Record ComprehensiveResult := {
  allResults : list ExtractedContent.t;
  resultsByVariant : list (string * list ExtractedContent.t);
  comprehensiveAnalysis : ExtractedTopics;
  comprehensiveExecuted : list string
}.

(** The plan of [comprehensiveSearch]: that of [_buildSearchPlan] over
    all the topics by relevance, then the combined variants that are not
    yet a query of the plan. *)
Definition comprehensivePlan (query : string) (topicAnalysis : ExtractedTopics)
    (desiredResults maxVariants : Z) : list SearchPlanStep :=
  let relevanceAnalysis := analyzeTopicRelevance (topics topicAnalysis) in
  let prioritizedTopics := map topic relevanceAnalysis in
  let prioritizedLimit := Z.min maxVariants (Z.of_nat (length prioritizedTopics)) in
  let searchPlan :=
    buildSearchPlan query topicAnalysis prioritizedTopics desiredResults
                    (Some prioritizedLimit) in
  let existingQueries := map WebSearch.query searchPlan in
  let variantQueries :=
    sliceTo (Z.max 0 (maxVariants - prioritizedLimit))
      (List.filter (fun variant => negb (bool_decide (variant ∈ existingQueries)))
                   (generateSearchVariants (topics topicAnalysis))) in
  searchPlan ++
  map (fun variant =>
         {| WebSearch.query := variant;
            reason := latin1 "variante combinée";
            optional := Some true;
            limit := Some (Z.max 1 (ceilDiv desiredResults 3)) |})
      variantQueries.

Definition comprehensiveSearch {W} `{Platform W} (config : Config) (query : string)
    (searchEngine : SearchEngine) (options : ComprehensiveOptions)
    : M W ComprehensiveResult :=
  tryCatch
    (let maxVariants := default 3 (maxVariants options) in
     let topicOptions := default noOptions (topicOptions options) in
     let deduplicateResults := default true (deduplicateResults options) in
     let desiredResults :=
       Z.max 1 (default (Z.max (maxResults config) 10) (wantedResults options)) in
     let topicAnalysis := extractTopics query (smartTopicOptions topicOptions) in
     let searchPlan := comprehensivePlan query topicAnalysis desiredResults maxVariants in
     let* runResult := runSearchPlan config searchPlan searchEngine desiredResults in
     let allResults :=
       if deduplicateResults
       then (filterNewResults (results runResult) ∅).1
       else results runResult in
     ret {| allResults := allResults;
            resultsByVariant :=
              map (fun '(step, found) => (WebSearch.query step, found))
                  (stepResults runResult);
            comprehensiveAnalysis := topicAnalysis;
            comprehensiveExecuted := executedQueries runResult |})
    (rethrow "Erreur lors de la recherche exhaustive: ").

(** *** Reading a page *)

(** [text.replace(/\s+/g, ' ')] *)
Fixpoint collapseFrom (inRun : bool) (s : string) : string :=
  match s with
  | EmptyString => EmptyString
  | String c s' =>
      if isSpace c then
        if inRun then collapseFrom true s' else String space (collapseFrom true s')
      else String c (collapseFrom false s')
  end.

Definition collapseSpaces (s : string) : string := collapseFrom false s.

Definition isLineFeed (c : ascii) : bool := is_code 10 c.

(** For the text after a line feed: how many of its characters a match
    of [/\n\s*\n/] started at that line feed takes, which is the length
    of the white space up to its last line feed. *)
Fixpoint blankLinesEnd (s : string) : option nat :=
  match s with
  | EmptyString => None
  | String c s' =>
      if isSpace c then
        match blankLinesEnd s' with
        | Some n => Some (S n)
        | None => if isLineFeed c then Some 1%nat else None
        end
      else None
  end.

(** [text.replace(/\n\s*\n/g, '\n')]; [skip] counts the characters
    still inside the match being replaced. *)
Fixpoint squeezeFrom (skip : nat) (s : string) : string :=
  match s with
  | EmptyString => EmptyString
  | String c s' =>
      match skip with
      | S k => squeezeFrom k s'
      | O =>
          if isLineFeed c then
            match blankLinesEnd s' with
            | Some n => String c (squeezeFrom n s')
            | None => String c (squeezeFrom 0 s')
            end
          else String c (squeezeFrom 0 s')
      end
  end.

Definition squeezeBlankLines (s : string) : string := squeezeFrom 0 s.

(** [_cleanText] *)
Definition cleanText (text : string) : string :=
  trim (squeezeBlankLines (collapseSpaces text)).

(** [_extractLinks] over the [href] attributes of the [a[href]] elements
    of the page, in document order; [resolve href baseUrl] is
    [new URL(href, baseUrl).toString()], or [None] when the constructor
    throws. *)
Definition extractLinks (resolve : string -> string -> option string)
    (hrefs : list string) (baseUrl : string) : list string :=
  let links :=
    foldl (fun links href =>
             if nonEmpty href then
               match resolve href baseUrl with
               | Some absoluteUrl =>
                   if startsWith absoluteUrl "http"
                      && negb (bool_decide (absoluteUrl ∈ links))
                   then links ++ [absoluteUrl]
                   else links
               | None => links
               end
             else links)
          [] hrefs in
  sliceTo 50 links.

(** *** Observing a run *)

(** The same platform, keeping a journal of the requests it served. *)
Definition journalled {W} (P : Platform W)
    : Platform (W * list (string * FetchOutcome)) :=
  {| fetch url '(w, journal) :=
       let '(outcome, w') := fetch url w in
       (outcome, (w', journal ++ [(url, outcome)]));
     delay ms '(w, journal) := (delay ms w, journal);
     now '(w, _) := now w;
     encodeURIComponent := encodeURIComponent;
     urlHostname := urlHostname;
     cleanUrl := cleanUrl;
     parseResultPage := parseResultPage;
     parsePage := parsePage |}.

(** The same search function, keeping a journal of the calls made. *)
Definition journalledSearch {W}
    (search : string -> SearchEngine -> option Z -> M W (list ExtractedContent.t))
    : string -> SearchEngine -> option Z ->
      M (W * list (string * option Z)) (list ExtractedContent.t) :=
  fun query searchEngine limit '(w, journal) =>
    let '(found, w') := search query searchEngine limit w in
    (found, (w', journal ++ [(query, limit)])).

(** An attempt failed when the promise was rejected, the status was not
    2xx, or the body could not be read; [failureOf] is what it threw. *)
Definition failureOf (outcome : FetchOutcome) : option Thrown :=
  match outcome with
  | Rejected reason => Some reason
  | Responded status statusText text =>
      if negb (isOk status)
      then Some (ErrorOf ("HTTP " +:+ pretty status +:+ ": " +:+ statusText))
      else match text with Throw reason => Some reason | Ok _ => None end
  end.

Definition bodyOf (outcome : FetchOutcome) : option string :=
  match outcome with
  | Responded status _ (Ok body) => if isOk status then Some body else None
  | _ => None
  end.

(** What a platform is seen to do: requests served and pauses made. *)
Inductive Event :=
  | Requested (url : string) (outcome : FetchOutcome)
  | Paused (ms : Z).

(** The same platform, keeping a trace of requests and pauses. *)
Definition traced {W} (P : Platform W) : Platform (W * list Event) :=
  {| fetch url '(w, trace) :=
       let '(outcome, w') := fetch url w in
       (outcome, (w', trace ++ [Requested url outcome]));
     delay ms '(w, trace) := (delay ms w, trace ++ [Paused ms]);
     now '(w, _) := now w;
     encodeURIComponent := encodeURIComponent;
     urlHostname := urlHostname;
     cleanUrl := cleanUrl;
     parseResultPage := parseResultPage;
     parsePage := parsePage |}.

Definition requestsOf (trace : list Event) : list (string * FetchOutcome) :=
  omap (fun e => match e with Requested url o => Some (url, o) | Paused _ => None end)
       trace.

(** The key under which [_filterNewResults] remembers a record. *)
Definition urlKey (c : ExtractedContent.t) : option string :=
  match trim <$> ExtractedContent.url c with
  | Some url => if nonEmpty url then Some url else None
  | None => None
  end.

End WebSearch.

(** ** [services/rag.service.ts]: adding web content to the knowledge base *)

Module Rag.
Import Js Stopwords WebSearch.

Record DocumentMetadata := {
  url : option string;
  title : string;
  source : string;
  timestamp : Z
}.

Record Document := {
  id : string;
  content : string;
  metadata : DocumentMetadata
}.

Record AddResult := {
  documentsAdded : nat;
  topicAnalysis : option ExtractedTopics
}.

(** [_convertToDocuments]; [clock] is [Date.now()], which is taken not to
    change while the array is mapped. *)
Definition convertToDocuments (clock : Z) (contents : list ExtractedContent.t)
    : list Document :=
  imap (fun index content =>
          {| id := "web_" +:+ pretty clock +:+ "_" +:+ pretty (Z.of_nat index);
             content := ExtractedContent.content content;
             metadata :=
               {| url := ExtractedContent.url content;
                  title := ExtractedContent.title content;
                  source := "websearch";
                  timestamp := ExtractedContent.extractedAt content |} |})
       contents.

(** [extractedContents
       .filter(content => content.success && content.content.length > 100)
       .slice(0, maxResults)] *)
Definition successfulContents (maxResults : Z) (extractedContents : list ExtractedContent.t)
    : list ExtractedContent.t :=
  sliceTo maxResults
    (List.filter
       (fun content =>
          ExtractedContent.success content
          && (100 <? String.length (ExtractedContent.content content))%nat)
       extractedContents).

(** The topic options [addFromWebSearch] gives to [smartSearch]. *)
Definition ragTopicOptions : TopicExtractionOptions :=
  {| language := Some both; minWordLength := Some 3; maxTopics := Some 6;
     customStopWords := None; preserveCapitalized := Some true |}.

Section Service.
Context {W : Type} `{Platform W}.

(** [this.addDocuments]: it hands the documents to the chunker, the
    embedding model and the vector store, which are not part of these
    sources. *)
Variable addDocuments : list Document -> M W unit.

(** [addFromWebSearch]; the service owns a [WebSearch] made with the
    default configuration. The parameter [silent] only governs logging. *)
Definition addFromWebSearch (query : string) (maxResults : option Z)
    (useSmartSearch : option bool) : M W AddResult :=
  tryCatch
    (let maxResults := default 5 maxResults in
     let useSmartSearch := default true useSmartSearch in
     let* found :=
       if useSmartSearch
       then let* smartResult :=
              smartSearch defaultConfig query duckduckgo ragTopicOptions None in
            ret (smartResults smartResult, Some (WebSearch.topicAnalysis smartResult))
       else let* extractedContents :=
              searchAndExtract defaultConfig query duckduckgo None in
            ret (extractedContents, None) in
     let successfulContents := successfulContents maxResults found.1 in
     if (length successfulContents =? 0)%nat
     then throw (ErrorOf (latin1 "Aucun contenu valide trouvé lors de la recherche web"))
     else
       let* documents := (fun w => (Ok (convertToDocuments (now w) successfulContents), w)) in
       let* _ := addDocuments documents in
       ret {| documentsAdded := length documents; topicAnalysis := found.2 |})
    (rethrow "Erreur ajout contenu web: ").

End Service.

End Rag.

(** ** A scripted platform *)

(** A small web for running the class: what a URL serves depends on the
    URL and on how many times it was requested before. A result page is
    the list of its links, separated by spaces. *)
Module Scripted.
Import Js Stopwords WebSearch.

Record World := {
  requests : list string;
  pauses : list Z
}.

Definition start : World := {| requests := []; pauses := [] |}.

Definition timesRequested (url : string) (w : World) : nat :=
  length (List.filter (String.eqb url) (requests w)).

Fixpoint upTo (stop : ascii) (s : string) : string :=
  match s with
  | EmptyString => EmptyString
  | String c s' => if ascii_dec c stop then EmptyString else String c (upTo stop s')
  end.

Definition hostOf (url : string) : option string :=
  if startsWith url "https://" then Some (upTo "/" (String.substring 8 (String.length url) url))
  else if startsWith url "http://" then Some (upTo "/" (String.substring 7 (String.length url) url))
  else None.

Definition linkHit (link : string) : Hit :=
  {| hitTitle := link; hitHref := Some link; hitSnippet := link |}.

Definition platform (site : string -> nat -> FetchOutcome) : Platform World :=
  {| fetch url w :=
       (site url (timesRequested url w),
        {| requests := requests w ++ [url]; pauses := pauses w |});
     delay ms w := {| requests := requests w; pauses := pauses w ++ [ms] |};
     now w := Z.of_nat (length (requests w));
     encodeURIComponent q := q;
     urlHostname := hostOf;
     cleanUrl u := u;
     parseResultPage body := map linkHit (List.filter nonEmpty (splitSpaces body));
     parsePage _ _ html :=
       Ok {| pageTitle := html; pageContent := html; pageHeadings := [];
             pageLinks := []; pageMetadata := noMetadata |} |}.

Definition serves (body : string) : FetchOutcome := Responded 200 "OK" (Ok body).

Definition searchPage (q : string) : string :=
  "https://html.duckduckgo.com/html/?q=" +:+ q.

(** The query [cats] finds two pages; the first one is down, the second
    one answers. [flaky] answers at the third request only. *)
Definition site (url : string) (earlier : nat) : FetchOutcome :=
  if String.eqb url (searchPage "cats")
  then serves "https://down.example/a https://up.example/b"
  else if String.eqb url (searchPage "more cats")
  then serves "https://up.example/b https://up.example/c"
  else if String.eqb url "https://up.example/b" then serves "<p>b</p>"
  else if String.eqb url "https://up.example/c" then serves "<p>c</p>"
  else if String.eqb url "https://flaky.example/"
  then match earlier with
       | 0%nat | 1%nat => Responded 500 "Internal Server Error" (Ok "oops")
       | _ => serves "<p>third time lucky</p>"
       end
  else Rejected (ErrorOf "fetch failed").

Definition step (q : string) (l : option Z) : SearchPlanStep :=
  {| query := q; reason := "test"; optional := None; limit := l |}.

(** A successful record with nothing but its URL. *)
Definition record (url : option string) : ExtractedContent.t :=
  {| ExtractedContent.url := url; ExtractedContent.title := EmptyString;
     ExtractedContent.content := EmptyString; ExtractedContent.headings := [];
     ExtractedContent.links := []; ExtractedContent.metadata := noMetadata;
     ExtractedContent.extractedAt := 0; ExtractedContent.success := true;
     ExtractedContent.error := None |}.

(** The record that stands for the page that is down. *)
Definition downRecord : ExtractedContent.t :=
  settledContent 5 "https://down.example/a" (Throw (ErrorOf "fetch failed")).

(** Option sets: at most two topics; all the topics but the last; no
    original casing. *)
Definition twoTopics : TopicExtractionOptions :=
  {| language := None; minWordLength := None; maxTopics := Some 2;
     customStopWords := None; preserveCapitalized := None |}.

Definition allButLast : TopicExtractionOptions :=
  {| language := None; minWordLength := None; maxTopics := Some (-1);
     customStopWords := None; preserveCapitalized := None |}.

Definition lowerCaseOnly : TopicExtractionOptions :=
  {| language := None; minWordLength := None; maxTopics := None;
     customStopWords := None; preserveCapitalized := Some false |}.

(** A configuration that keeps the hosts under [example], except the
    host of the page that is down. *)
Definition noDown : Config :=
  {| maxResults := 10; timeout := 15000; retryAttempts := 3; retryDelay := 1000;
     minContentLength := 200; excludeDomains := ["down.example"];
     includeDomains := ["example"] |}.

(** A configuration that allows no attempt. *)
Definition noAttempts : Config :=
  {| maxResults := 10; timeout := 15000; retryAttempts := 0; retryDelay := 1000;
     minContentLength := 200; excludeDomains := []; includeDomains := [] |}.

(** The options of a comprehensive search for two results. *)
Definition twoWanted : ComprehensiveOptions :=
  {| maxVariants := None; topicOptions := None; deduplicateResults := None;
     wantedResults := Some 2 |}.

(** A second web: the query [dogs] finds one page, with a text of more
    than a hundred characters; the query [fish] finds nothing. *)
Definition essay : string :=
  "Dogs have lived with people for thousands of years and are found in every part of the world where people live.".

Definition library (url : string) (earlier : nat) : FetchOutcome :=
  if String.eqb url (searchPage "dogs") then serves "https://dogs.example/a"
  else if String.eqb url "https://dogs.example/a" then serves essay
  else if String.eqb url (searchPage "fish") then serves EmptyString
  else Rejected (ErrorOf "fetch failed").

(** A knowledge base that takes every document. *)
Definition store : list Rag.Document -> M World unit := fun _ => ret tt.

(** A search function that always finds the same three records. *)
Definition fixedSearch : string -> SearchEngine -> option Z -> M unit (list ExtractedContent.t) :=
  fun _ _ _ =>
    ret [record None; record (Some "  "); record (Some " https://up.example/b ")].

End Scripted.

(** ** Auxiliary definitions of the proofs *)

Module Aux.
Import Js Stopwords.

Fixpoint allChars (P : ascii -> bool) (s : string) : bool :=
  match s with
  | EmptyString => true
  | String c s' => P c && allChars P s'
  end.

(** A character that [toLowerCase] leaves alone. *)
Definition lowerFixed (c : ascii) : bool := Ascii.eqb (toLowerChar c) c.

(** The characters and the shape of a normalised word. *)
Definition isTokenChar (c : ascii) : bool :=
  isKept c && lowerFixed c && negb (isSpace c).

Definition isToken (w : string) : bool := nonEmpty w && allChars isTokenChar w.

Definition notSpace (c : ascii) : bool := negb (isSpace c).

(** A word: not empty, without white space. *)
Definition isWord (w : string) : bool := nonEmpty w && allChars notSpace w.

(** The comparison function of a sort by decreasing key. *)
Definition byKey {A} (key : A -> Z) (a b : A) : Z := key b - key a.

(** The two tests of [processWord] that drop a word. *)
Definition isDropped (minLen : Z) (stopWords : gset string) (cleanWord : string) : bool :=
  (Z.of_nat (String.length cleanWord) <? minLen) || bool_decide (cleanWord ∈ stopWords).

(** The topic [processWord] makes of a word it keeps. *)
Definition topicFor (query : string) (preserve : bool) (cleanWord : string) : string :=
  match findOriginalWord query cleanWord with
  | Some originalWord =>
      if preserve && nonEmpty originalWord && startsUpper originalWord
      then originalWord else cleanWord
  | None => cleanWord
  end.

End Aux.

(** ** Vocabulary of the properties *)

Module Spec.
Import Js Stopwords WebSearch.

(** Every element is at least as large, by its key, as all those after it. *)
Definition descending {A} (key : A -> Z) : list A -> Prop :=
  StronglySorted (fun a b => key b <= key a).

(** The category the specification gives to a score. *)
Definition categoryOfScore (s : Z) : Category :=
  if 70 <=? s then high else if 40 <=? s then medium else low.

(** A record with a URL that is not blank. *)
Definition hasUrl (c : ExtractedContent.t) : Prop :=
  exists u, ExtractedContent.url c = Some u /\ trim u <> EmptyString.

(** A record whose URL is missing, empty or made of white space. *)
Definition blankUrl (c : ExtractedContent.t) : bool :=
  match ExtractedContent.url c with
  | None => true
  | Some u => negb (nonEmpty (trim u))
  end.

(** The specification's failure policy, read literally: no record with
    [success: false] is among the new results of a step. *)
Definition failedRecordsExcluded : Prop :=
  forall W (P : Platform W) config searchPlan searchEngine desiredResults w r w',
    @runSearchPlan W P config searchPlan searchEngine desiredResults w = (Ok r, w') ->
    Forall (fun outcome : SearchPlanStep * list ExtractedContent.t =>
              Forall (fun c => ExtractedContent.success c = true) outcome.2)
           (stepResults r).

(** The removal ratio of the specification,
    [stopWordsRemoved / originalWordCount]; where no word was counted it
    is the 0 that division by zero gives in the rationals of Rocq, which
    is also what the code takes there. *)
Definition specRatio (s : Stats) : Q :=
  (inject_Z (Z.of_nat (stopWordsRemoved s)) /
   inject_Z (Z.of_nat (originalWordCount s)))%Q.

Definition specQuestionWords : list string :=
  ["comment"; "pourquoi"; "quel"; "quelle"; "quels"; "quelles";
   latin1 "où"; "qui"; "combien"]%string.

(** The query starts with a question word, in the words of the
    specification: its first letters, in either case, are those of one of
    the words, whatever comes after them. *)
Definition startsWithAQuestionWord (originalQuery : string) : Prop :=
  exists word,
    In word specQuestionWords /\
    startsWith (toLowerCase originalQuery) word = true.

(** The three cases of the fallback decision, in the words of the
    specification. *)
Definition fallbackCases (originalQuery : string) (analysis : ExtractedTopics) : Prop :=
  cleanedQuery analysis = EmptyString \/
  (startsWithAQuestionWord originalQuery /\ (4 # 10 < specRatio (stats analysis))%Q) \/
  ((finalWordCount (stats analysis) <= 2)%nat /\ (1 # 2 <= specRatio (stats analysis))%Q).

(** The fallback decision of the specification, read literally: for every
    query and every analysis, the first step of the plan asks for the
    untouched original query exactly in the three cases. *)
Definition fallbackAsWorded : Prop :=
  forall originalQuery analysis highRelevanceTopics desiredResults maxHighPriorityTopics,
    query <$> head (buildSearchPlan originalQuery analysis highRelevanceTopics
                                    desiredResults maxHighPriorityTopics)
    = Some originalQuery
    <-> fallbackCases originalQuery analysis.

(** What the code asks of the start of the query: trimmed and put in lower
    case, it starts with a question word and one space (U+0020) after
    it. A question word followed by a comma, a tab or the end of the
    query does not count. *)
Definition questionWordThenSpace (originalQuery : string) : Prop :=
  exists word,
    In word specQuestionWords /\
    startsWith (toLowerCase (trim originalQuery)) (word +:+ " ") = true.

(** The cases in which the code falls back on the original query. *)
Definition fallbackCondition (originalQuery : string) (analysis : ExtractedTopics) : Prop :=
  trim originalQuery = EmptyString \/
  trim (cleanedQuery analysis) = EmptyString \/
  (questionWordThenSpace originalQuery /\ (4 # 10 < specRatio (stats analysis))%Q) \/
  ((finalWordCount (stats analysis) <= 2)%nat /\ (1 # 2 <= specRatio (stats analysis))%Q).

(** The two primary steps a plan can start with. *)
Definition originalStep (originalQuery : string) : SearchPlanStep :=
  {| query := trim originalQuery;
     reason := latin1 "requête originale conservée";
     optional := None; limit := None |}.

Definition optimizedStep (analysis : ExtractedTopics) : SearchPlanStep :=
  {| query := trim (cleanedQuery analysis);
     reason := latin1 "requête optimisée";
     optional := None; limit := None |}.

(** A topic that is one word when it is normalised on its own, as the
    words of a query are: the topics in lower case are, and so are the
    original words kept for their capital that have their punctuation,
    if any, at their end ([Paris], [Python,]); [Node.js] is not, it
    falls into [node] and [js]. *)
Definition oneWord (topic : string) : Prop :=
  normalisedWords topic = [dropOthers (toLowerCase topic)].

(** The idempotence of the specification, read literally: extracting
    again from the cleaned query, with the same options, gives the same
    set of topics. *)
Definition reextractionIdempotent : Prop :=
  forall query options,
    let first := extractTopics query options in
    let second := extractTopics (cleanedQuery first) options in
    (list_to_set (topics second) : gset string) = list_to_set (topics first).

End Spec.

(** ** Vocabulary of the further properties *)

Module Behaviour.
Import Js Stopwords WebSearch.

(** The entries of one category. *)
Definition ofCategory (c : Category) (e : RelevanceEntry) : bool :=
  match category e, c with
  | high, high | medium, medium | low, low => true
  | _, _ => false
  end.

(** The trace of a fetch with linear back-off: the requests to [url] with
    their outcomes and, between two of them, one pause of [retryDelay]
    times the number of the attempt that failed. *)
Fixpoint backoff (url : string) (retryDelay attempt : Z) (outcomes : list FetchOutcome)
    : list Event :=
  match outcomes with
  | [] => []
  | outcome :: later =>
      Requested url outcome ::
      match later with
      | [] => []
      | _ :: _ => Paused (retryDelay * attempt) :: backoff url retryDelay (attempt + 1) later
      end
  end.

(** A text whose only white space is single spaces: no tab, line feed or
    other white-space character, and no two spaces in a row.
    [afterSpace] tells that the character before the text is a space. *)
Fixpoint singleSpaced (afterSpace : bool) (s : string) : bool :=
  match s with
  | EmptyString => true
  | String c s' =>
      if isSpace c
      then Ascii.eqb c space && negb afterSpace && singleSpaced true s'
      else singleSpaced false s'
  end.

End Behaviour.

(** * Properties *)

Import Js Stopwords WebSearch Aux Spec.

(** ** Relevance scoring *)

Section SortByKey.
Context {A : Type} (key : A -> Z).

Lemma sortInsert_Permutation x l : Permutation (sortInsert (byKey key) x l) (x :: l).
Proof.
  induction l as [|y l IH]; simpl; [reflexivity|].
  destruct (0 <? (byKey key) x y); [|reflexivity].
  rewrite IH. apply perm_swap.
Qed.

Lemma arraySort_Permutation l : Permutation (arraySort (byKey key) l) l.
Proof.
  induction l as [|x l IH]; simpl; [reflexivity|].
  rewrite sortInsert_Permutation. by constructor.
Qed.

Lemma sortInsert_descending x l :
  descending key l -> descending key (sortInsert (byKey key) x l).
Proof.
  unfold descending.
  induction 1 as [|y l Hl IH Hy]; simpl.
  - repeat constructor.
  - destruct (Z.ltb_spec 0 ((byKey key) x y)) as [Hlt|Hlt]; unfold byKey in Hlt.
    + constructor; [exact IH|].
      rewrite sortInsert_Permutation. constructor; [lia|exact Hy].
    + constructor; [by constructor|].
      constructor; [lia|].
      eapply Forall_impl; [exact Hy|]. simpl. intros; lia.
Qed.

Lemma arraySort_descending l : descending key (arraySort (byKey key) l).
Proof.
  induction l as [|x l IH]; simpl; [constructor|].
  by apply sortInsert_descending.
Qed.

(** Stability: among the elements of one key the order does not change. *)
Lemma sortInsert_stable s x l :
  List.filter (fun a => key a =? s) (sortInsert (byKey key) x l)
  = List.filter (fun a => key a =? s) (x :: l).
Proof.
  unfold byKey. induction l as [|y l IH]; [reflexivity|].
  cbn [sortInsert].
  destruct (Z.ltb_spec 0 (key y - key x)) as [Hlt|Hge]; [|reflexivity].
  cbn [List.filter] in *. rewrite IH.
  destruct (Z.eqb_spec (key y) s), (Z.eqb_spec (key x) s); try reflexivity; lia.
Qed.

Lemma arraySort_stable s l :
  List.filter (fun a => key a =? s) (arraySort (byKey key) l)
  = List.filter (fun a => key a =? s) l.
Proof.
  induction l as [|x l IH]; [reflexivity|].
  cbn [arraySort foldr]. rewrite sortInsert_stable.
  cbn [List.filter]. fold (arraySort (byKey key) l). by rewrite IH.
Qed.

End SortByKey.

Lemma score_bounds (t : string) : 10 <= score t <= 120.
Proof.
  unfold score.
  destruct (startsUpper t), (hasDigit t), (includes t "-" || includes t "_"),
    (hasTwoUpper t); lia.
Qed.

Lemma relevanceOf_category (t : string) :
  category (relevanceOf t) = categoryOfScore (relevanceScore (relevanceOf t)).
Proof.
  unfold relevanceOf, categoryOfScore. cbn [category relevanceScore].
  destruct (Z.leb_spec 70 (score t)), (Z.leb_spec 70 (Z.min (score t) 100));
    try lia; try reflexivity.
  destruct (Z.leb_spec 40 (score t)), (Z.leb_spec 40 (Z.min (score t) 100));
    try lia; reflexivity.
Qed.

(** C7. For every sequence of topics, the output of
    [analyzeTopicRelevance] holds one entry for each topic, in descending
    order of [relevanceScore], entries of equal score keeping the order of
    the input; every score lies in [0, 100]; and the category is [high]
    for a score of 70 or more, [medium] for 40 or more, [low] otherwise. *)
Theorem analyzeTopicRelevance_sorted_stable_bounded (topics : list string) :
  let out := analyzeTopicRelevance topics in
  descending relevanceScore out /\
  Permutation out (map relevanceOf topics) /\
  (forall s, List.filter (fun e => relevanceScore e =? s) out
             = List.filter (fun e => relevanceScore e =? s) (map relevanceOf topics)) /\
  Forall (fun e => 0 <= relevanceScore e <= 100) out /\
  Forall (fun e => category e = categoryOfScore (relevanceScore e)) out.
Proof.
  cbv zeta. unfold analyzeTopicRelevance.
  split; [apply arraySort_descending|].
  split; [apply arraySort_Permutation|].
  split; [intros s; apply arraySort_stable|].
  split.
  - rewrite (arraySort_Permutation relevanceScore). apply Forall_map, Forall_true.
    intros t. pose proof (score_bounds t). unfold relevanceOf. simpl. lia.
  - rewrite (arraySort_Permutation relevanceScore). apply Forall_map, Forall_true.
    intros t. apply relevanceOf_category.
Qed.

(** ** The per-step filter of the engine *)

Lemma filterNewStep_key acc seen r :
  filterNewStep (acc, seen) r =
  match urlKey r with
  | Some k => if bool_decide (k ∈ seen) then (acc, seen)
              else (acc ++ [r], seen ∪ {[ k ]})
  | None => (acc, seen)
  end.
Proof.
  unfold filterNewStep, urlKey.
  destruct (trim <$> ExtractedContent.url r) as [u|]; [|reflexivity].
  destruct (nonEmpty u); reflexivity.
Qed.

Lemma filterNewStep_foldl found : forall acc seen,
  foldl filterNewStep (acc, seen) found
  = (acc ++ (filterNewResults found seen).1, (filterNewResults found seen).2).
Proof.
  unfold filterNewResults.
  induction found as [|r found IH]; intros acc seen; cbn [foldl].
  - by rewrite app_nil_r.
  - rewrite !filterNewStep_key.
    destruct (urlKey r) as [k|]; [destruct (bool_decide (k ∈ seen))|].
    + apply IH.
    + rewrite (IH (acc ++ [r])), (IH ([] ++ [r])). cbn [fst snd].
      by rewrite <- !app_assoc.
    + apply IH.
Qed.

Lemma filterNewResults_cons r found seen :
  filterNewResults (r :: found) seen =
  match urlKey r with
  | Some k =>
      if bool_decide (k ∈ seen) then filterNewResults found seen
      else (r :: (filterNewResults found (seen ∪ {[ k ]})).1,
            (filterNewResults found (seen ∪ {[ k ]})).2)
  | None => filterNewResults found seen
  end.
Proof.
  unfold filterNewResults at 1. cbn [foldl]. rewrite filterNewStep_key.
  destruct (urlKey r) as [k|]; [destruct (bool_decide (k ∈ seen))|];
    try reflexivity.
  by rewrite filterNewStep_foldl.
Qed.

(** What the filter returns: new records in their order, under keys that
    were not seen before and are all different, and a larger set. *)
Lemma filterNewResults_facts found : forall seen,
  sublist (filterNewResults found seen).1 found /\
  seen ⊆ (filterNewResults found seen).2 /\
  NoDup (map urlKey (filterNewResults found seen).1) /\
  Forall (fun r => exists k, urlKey r = Some k /\ (k ∉ seen) /\
                             (k ∈ (filterNewResults found seen).2))
         (filterNewResults found seen).1.
Proof.
  induction found as [|r found IH]; intros seen.
  - cbn. split; [constructor|]. split; [done|]. split; constructor.
  - rewrite filterNewResults_cons.
    destruct (urlKey r) as [k|] eqn:Hk; [case_bool_decide as Hin|].
    + destruct (IH seen) as (Hsub & Hseen & Hnd & Hall).
      repeat split; try done. by apply sublist_cons.
    + destruct (IH (seen ∪ {[ k ]})) as (Hsub & Hseen & Hnd & Hall).
      cbn [fst snd]. repeat split.
      * by apply sublist_skip.
      * intros x Hx. apply Hseen, elem_of_union. by left.
      * cbn [map]. constructor; [|done]. rewrite Hk. intros Hin'.
        apply list_elem_of_In, in_map_iff in Hin' as (r' & Hr' & Hin').
        apply list_elem_of_In in Hin'.
        rewrite Forall_forall in Hall.
        destruct (Hall _ Hin') as (k' & Hk' & Hnot & _).
        rewrite Hr' in Hk'. injection Hk' as <-.
        apply Hnot, elem_of_union. right. by apply elem_of_singleton.
      * constructor.
        { exists k. split; [done|]. split; [done|].
          apply Hseen, elem_of_union. right. by apply elem_of_singleton. }
        eapply Forall_impl; [exact Hall|].
        intros r' (k' & Hk' & Hnot & Hin'). exists k'.
        split; [done|]. split; [|done].
        intros Hold. apply Hnot, elem_of_union. by left.
    + destruct (IH seen) as (Hsub & Hseen & Hnd & Hall).
      repeat split; try done. by apply sublist_cons.
Qed.

Lemma sliceTo_take {A} (n : Z) (l : list A) :
  0 <= n -> sliceTo n l = take (Z.to_nat n) l.
Proof. intros Hn. unfold sliceTo. destruct (Z.ltb_spec n 0); [lia|done]. Qed.

Lemma sliceTo_length {A} (n : Z) (l : list A) :
  0 <= n -> Z.of_nat (length (sliceTo n l)) <= n.
Proof. intros Hn. rewrite sliceTo_take by done. rewrite length_take. lia. Qed.

Lemma sliceTo_sublist {A} (n : Z) (l : list A) : sublist (sliceTo n l) l.
Proof. unfold sliceTo. destruct (n <? 0); apply sublist_take. Qed.

(** ** The plan execution engine *)

Lemma recordStep_fields remaining step raw acc :
  let new := sliceTo remaining (filterNewResults raw (seenUrls acc)).1 in
  aggregatedResults (recordStep remaining step raw acc) = aggregatedResults acc ++ new /\
  seenUrls (recordStep remaining step raw acc) = (filterNewResults raw (seenUrls acc)).2 /\
  executed (recordStep remaining step raw acc) = executed acc ++ [query step] /\
  perStep (recordStep remaining step raw acc) = perStep acc ++ [(step, new)].
Proof.
  unfold recordStep. destruct (filterNewResults raw (seenUrls acc)) as [f s'].
  cbn. repeat split.
  destruct (sliceTo remaining f); cbn; [by rewrite app_nil_r|done].
Qed.

Section EngineFacts.
Context {W : Type}.
Variable search : string -> SearchEngine -> option Z -> M W (list ExtractedContent.t).
Variable searchEngine : SearchEngine.
Variable desiredResults : Z.

(** A property of the accumulator and the world that every executed step
    keeps holds when the loop is left. *)
Lemma runSteps_rule (I : Accumulator -> W -> Prop) :
  (forall acc step w raw w1,
     I acc w ->
     let remaining := desiredResults - Z.of_nat (length (aggregatedResults acc)) in
     0 < remaining ->
     search (query step) searchEngine (Some (stepLimit step remaining)) w = (Ok raw, w1) ->
     I (recordStep remaining step raw acc) w1) ->
  forall plan acc w acc' w',
    runSteps search searchEngine desiredResults plan acc w = (Ok acc', w') -> I acc w -> I acc' w'.
Proof.
  intros Hstep. induction plan as [|step rest IH]; intros acc w acc' w' Hrun HI.
  - cbn in Hrun. injection Hrun as <- <-. exact HI.
  - cbn [runSteps] in Hrun.
    destruct (isOptional step && _); [by eapply IH|].
    destruct (Z.leb_spec (desiredResults - Z.of_nat (length (aggregatedResults acc))) 0)
      as [Hle|Hpos].
    { injection Hrun as <- <-. exact HI. }
    unfold bind in Hrun.
    destruct (search _ _ _ w) as [[raw|e] w1] eqn:Hsearch; [|discriminate].
    pose proof (Hstep _ _ _ _ _ HI Hpos Hsearch) as HI'.
    destruct (desiredResults <=? _).
    + injection Hrun as <- <-. exact HI'.
    + by eapply IH.
Qed.

(** The steps that ran are steps of the plan, in the order of the plan. *)
Lemma runSteps_ran plan : forall acc w acc' w',
  runSteps search searchEngine desiredResults plan acc w = (Ok acc', w') ->
  exists ran, sublist ran plan /\
              map fst (perStep acc') = map fst (perStep acc) ++ ran.
Proof.
  induction plan as [|step rest IH]; intros acc w acc' w' Hrun.
  - cbn in Hrun. injection Hrun as <- <-. exists []. by rewrite app_nil_r.
  - cbn [runSteps] in Hrun.
    destruct (isOptional step && _).
    { destruct (IH _ _ _ _ Hrun) as (ran & Hsub & Heq).
      exists ran. split; [by apply sublist_cons|done]. }
    destruct (_ <=? 0).
    { injection Hrun as <- <-. exists []. split; [apply sublist_nil_l|].
      by rewrite app_nil_r. }
    unfold bind in Hrun.
    destruct (search _ _ _ w) as [[raw|e] w1] eqn:Hsearch; [|discriminate].
    set (remaining := desiredResults - _) in *.
    destruct (recordStep_fields remaining step raw acc) as (_ & _ & _ & Hper).
    destruct (desiredResults <=? _).
    + injection Hrun as <- <-. exists [step].
      split; [apply sublist_skip, sublist_nil_l|].
      rewrite Hper, map_app. done.
    + destruct (IH _ _ _ _ Hrun) as (ran & Hsub & Heq).
      exists (step :: ran). split; [by apply sublist_skip|].
      rewrite Heq, Hper, map_app. cbn. by rewrite <- app_assoc.
Qed.

Lemma runSteps_within_budget plan acc w acc' w' :
  runSteps search searchEngine desiredResults plan acc w = (Ok acc', w') ->
  Z.of_nat (length (aggregatedResults acc)) <= desiredResults ->
  Z.of_nat (length (aggregatedResults acc')) <= desiredResults.
Proof.
  intros Hrun.
  eapply (runSteps_rule
            (fun acc _ => Z.of_nat (length (aggregatedResults acc)) <= desiredResults));
    [|exact Hrun].
  intros acc0 step w0 raw w1 Hle remaining Hpos _.
  destruct (recordStep_fields remaining step raw acc0) as (-> & _).
  rewrite length_app, Nat2Z.inj_add.
  pose proof (sliceTo_length remaining (filterNewResults raw (seenUrls acc0)).1).
  subst remaining. lia.
Qed.

(** The accepted records have keys, all different and all in [seenUrls]. *)
Lemma runSteps_keys plan acc w acc' w' :
  runSteps search searchEngine desiredResults plan acc w = (Ok acc', w') ->
  NoDup (map urlKey (aggregatedResults acc)) /\
  Forall (fun r => exists k, urlKey r = Some k /\ k ∈ seenUrls acc)
         (aggregatedResults acc) ->
  NoDup (map urlKey (aggregatedResults acc')) /\
  Forall (fun r => exists k, urlKey r = Some k /\ k ∈ seenUrls acc')
         (aggregatedResults acc').
Proof.
  intros Hrun.
  eapply (runSteps_rule
            (fun acc _ =>
               NoDup (map urlKey (aggregatedResults acc)) /\
               Forall (fun r => exists k, urlKey r = Some k /\ k ∈ seenUrls acc)
                      (aggregatedResults acc)));
    [|exact Hrun].
  intros acc0 step w0 raw w1 [Hnd Hall] remaining Hpos _.
  destruct (recordStep_fields remaining step raw acc0) as (-> & -> & _).
  destruct (filterNewResults_facts raw (seenUrls acc0)) as (_ & Hseen & Hnd' & Hall').
  pose proof (sliceTo_sublist remaining (filterNewResults raw (seenUrls acc0)).1) as Hsub.
  set (new := sliceTo remaining _) in *.
  assert (Hnew : Forall (fun r => exists k, urlKey r = Some k /\ (k ∉ seenUrls acc0) /\
                   (k ∈ (filterNewResults raw (seenUrls acc0)).2)) new).
  { rewrite Forall_forall in Hall' |- *. intros r Hr. apply Hall'.
    by eapply elem_of_sublist. }
  split.
  - rewrite map_app. apply NoDup_app. split; [done|]. split.
    + intros key Hin1 Hin2.
      apply list_elem_of_In, in_map_iff in Hin1 as (r1 & Hk1 & Hin1).
      apply list_elem_of_In, in_map_iff in Hin2 as (r2 & Hk2 & Hin2).
      apply list_elem_of_In in Hin1, Hin2.
      rewrite Forall_forall in Hall, Hnew.
      destruct (Hall _ Hin1) as (k1 & Hr1 & Hseen1).
      destruct (Hnew _ Hin2) as (k2 & Hr2 & Hfresh & _).
      congruence.
    + eapply sublist_NoDup; [exact Hnd'|]. by apply (fmap_sublist urlKey).
  - apply Forall_app. split.
    + eapply Forall_impl; [exact Hall|]. intros r (k & ? & ?). exists k. set_solver.
    + eapply Forall_impl; [exact Hnew|]. intros r (k & ? & ? & ?). by exists k.
Qed.

(** The list of executed queries and the per-step outcomes name the same
    steps. *)
Lemma runSteps_executed plan acc w acc' w' :
  runSteps search searchEngine desiredResults plan acc w = (Ok acc', w') ->
  executed acc = map query (map fst (perStep acc)) ->
  executed acc' = map query (map fst (perStep acc')).
Proof.
  intros Hrun.
  eapply (runSteps_rule
            (fun acc _ => executed acc = map query (map fst (perStep acc))));
    [|exact Hrun].
  intros acc0 step w0 raw w1 Heq remaining Hpos _.
  destruct (recordStep_fields remaining step raw acc0) as (_ & _ & -> & ->).
  rewrite !map_app, Heq. done.
Qed.

End EngineFacts.

Lemma journalledSearch_call {W}
    (search : string -> SearchEngine -> option Z -> M W (list ExtractedContent.t))
    q e l w calls raw w1 calls1 :
  journalledSearch search q e l (w, calls) = (Ok raw, (w1, calls1)) ->
  search q e l w = (Ok raw, w1) /\ calls1 = calls ++ [(q, l)].
Proof.
  unfold journalledSearch. destruct (search q e l w) as [found w2].
  intros [= -> -> ->]. done.
Qed.

Lemma runSteps_journal {W}
    (search : string -> SearchEngine -> option Z -> M W (list ExtractedContent.t))
    e desired plan acc wc acc' wc' :
  runSteps (journalledSearch search) e desired plan acc wc = (Ok acc', wc') ->
  map fst wc.2 = executed acc -> map fst wc'.2 = executed acc'.
Proof.
  intros Hrun.
  eapply (runSteps_rule _ _ _ (fun acc wc => map fst wc.2 = executed acc));
    [|exact Hrun].
  intros acc0 step [w0 calls0] raw [w1 calls1] Heq remaining Hpos Hcall.
  apply journalledSearch_call in Hcall as [_ ->].
  destruct (recordStep_fields remaining step raw acc0) as (_ & _ & -> & _).
  cbn [snd] in *. rewrite map_app, Heq. done.
Qed.

Lemma runSearchPlanWith_inv {W}
    (search : string -> SearchEngine -> option Z -> M W (list ExtractedContent.t))
    e desired plan w r w' :
  runSearchPlanWith search e desired plan w = (Ok r, w') ->
  exists acc, runSteps search e desired plan emptyAccumulator w = (Ok acc, w') /\
              r = {| results := aggregatedResults acc;
                     executedQueries := executed acc;
                     stepResults := perStep acc |}.
Proof.
  unfold runSearchPlanWith, bind, ret.
  destruct (runSteps _ _ _ _ _ _) as [[acc|err] w1]; [|discriminate].
  intros [= <- <-]. by exists acc.
Qed.

Lemma urlKey_url c k :
  urlKey c = Some k ->
  exists u, ExtractedContent.url c = Some u /\ trim u = k /\ k <> EmptyString.
Proof.
  unfold urlKey. destruct (ExtractedContent.url c) as [u|]; [|discriminate].
  cbn. destruct (trim u) eqn:Ht; cbn; [discriminate|].
  intros [= <-]. exists u. by rewrite Ht.
Qed.

Lemma urlKey_blank c : urlKey c = None <-> blankUrl c = true.
Proof.
  unfold urlKey, blankUrl. destruct (ExtractedContent.url c) as [u|]; [|done].
  cbn. destruct (nonEmpty (trim u)); cbn; split; congruence.
Qed.

Lemma filterNewResults_blank found : forall seen,
  filterNewResults found seen
  = filterNewResults (List.filter (fun c => negb (blankUrl c)) found) seen.
Proof.
  induction found as [|c found IH]; intros seen; [done|].
  cbn [List.filter]. destruct (blankUrl c) eqn:Hb; cbn [negb].
  - rewrite filterNewResults_cons.
    apply urlKey_blank in Hb. rewrite Hb. apply IH.
  - rewrite !filterNewResults_cons.
    destruct (urlKey c) as [k|]; [|apply IH].
    destruct (bool_decide (k ∈ seen)); [apply IH|]. by rewrite <- IH.
Qed.

(** ** What [searchAndExtract] returns *)

Lemma allSettled_total {W A} (tasks : list (M W A)) : forall w,
  exists settled w',
    allSettled tasks w = (Ok settled, w') /\
    Forall2 (fun task result => exists wi, (task wi).1 = result) tasks settled.
Proof.
  induction tasks as [|task tasks IH]; intros w.
  - exists [], w. split; [reflexivity|constructor].
  - cbn [allSettled]. destruct (task w) as [result w1] eqn:Htask.
    destruct (IH w1) as (settled & w2 & -> & Hall).
    exists (result :: settled), w2. split; [reflexivity|].
    constructor; [|exact Hall]. exists w. by rewrite Htask.
Qed.

Lemma rethrow_throws {W A} prefix e (w : W) : exists e', @rethrow W A prefix e w = (Throw e', w).
Proof. destruct e; cbn; eauto. Qed.

Lemma extractContents_length {W} `{Platform W} config urls w records w' :
  extractContents config urls w = (Ok records, w') -> length records = length urls.
Proof.
  unfold extractContents, tryCatch, bind, lift.
  destruct (validateUrls urls) as [[]|e].
  - destruct (allSettled_total (map (extractSingleContent config) urls) w)
      as (settled & w1 & -> & Hall).
    intros [= <- <-]. apply Forall2_length in Hall.
    rewrite length_map in Hall. by rewrite length_zip_with_l_eq.
  - destruct (rethrow_throws (A := list ExtractedContent.t)
                "Erreur lors de l'extraction du contenu: " e w) as [e' ->].
    discriminate.
Qed.

Lemma getTopUrls_length {W} `{Platform W} config q e l w urls w' :
  0 <= l ->
  getTopUrls config q e (Some l) w = (Ok urls, w') -> Z.of_nat (length urls) <= l.
Proof.
  intros Hl. unfold getTopUrls, tryCatch, bind, lift.
  destruct (validateQuery q) as [[]|err].
  - destruct (performSearch config q e w) as [[found|err] w1].
    + intros [= <- <-]. rewrite length_map. by apply sliceTo_length.
    + destruct (rethrow_throws (A := list string)
                  "Erreur lors de la recherche: " err w1) as [e' ->].
      discriminate.
  - destruct (rethrow_throws (A := list string)
                "Erreur lors de la recherche: " err w) as [e' ->].
    discriminate.
Qed.

(** [searchAndExtract] returns at most as many records as it was asked for. *)
Lemma searchAndExtract_length {W} `{Platform W} config q e l w records w' :
  0 <= l ->
  searchAndExtract config q e (Some l) w = (Ok records, w') ->
  Z.of_nat (length records) <= l.
Proof.
  intros Hl. unfold searchAndExtract, tryCatch, bind.
  destruct (getTopUrls config q e (Some l) w) as [[urls|err] w1] eqn:Hurls.
  - destruct (extractContents config urls w1) as [[found|err] w2] eqn:Hfound.
    + intros [= <- <-]. rewrite (extractContents_length _ _ _ _ _ Hfound).
      by eapply getTopUrls_length.
    + destruct (rethrow_throws (A := list ExtractedContent.t)
                  "Erreur lors de la recherche et extraction: " err w2) as [e' ->].
      discriminate.
  - destruct (rethrow_throws (A := list ExtractedContent.t)
                "Erreur lors de la recherche et extraction: " err w1) as [e' ->].
    discriminate.
Qed.

(** A search that finds no URL makes [searchAndExtract] throw, since
    [_validateUrls] rejects the empty array; the engine does not catch
    it, so the run throws too. *)
Lemma searchAndExtract_no_urls {W} `{Platform W} config q e l w w1 :
  getTopUrls config q e l w = (Ok [], w1) ->
  searchAndExtract config q e l w
  = (Throw (ErrorOf ("Erreur lors de la recherche et extraction: "
                     +:+ "Erreur lors de l'extraction du contenu: "
                     +:+ latin1 "Le tableau d'URLs ne peut pas être vide")), w1).
Proof.
  intros Hurls. unfold searchAndExtract, tryCatch, bind. rewrite Hurls.
  reflexivity.
Qed.

(** ** The engine: budget, deduplication, executed queries, URLs *)

(** C1. For every plan and every [desiredResults >= 1], the results
    returned by [_runSearchPlan] are at most [desiredResults]. For the
    plan of two steps with limits 3 and 5 and a budget of 4, step 1 is
    asked for 3 results; step 2 runs when fewer than 4 were accepted, and
    is asked for [min(5, 4 - accepted)]; at most 4 results come back.
    [searchAndExtract] honours what it is asked for: it returns at most
    [limit] records. *)
Theorem runSearchPlan_within_budget :
  (forall W (search : string -> SearchEngine -> option Z -> M W (list ExtractedContent.t))
          searchEngine desiredResults searchPlan w r w',
     1 <= desiredResults ->
     runSearchPlanWith search searchEngine desiredResults searchPlan w = (Ok r, w') ->
     Z.of_nat (length (results r)) <= desiredResults) /\
  (forall W (search : string -> SearchEngine -> option Z -> M W (list ExtractedContent.t))
          searchEngine q1 reason1 q2 reason2 w r w' calls,
     let step1 := {| query := q1; reason := reason1; optional := None; limit := Some 3 |} in
     let step2 := {| query := q2; reason := reason2; optional := None; limit := Some 5 |} in
     runSearchPlanWith (journalledSearch search) searchEngine 4 [step1; step2] (w, [])
       = (Ok r, (w', calls)) ->
     exists new1 : list ExtractedContent.t,
       head (stepResults r) = Some (step1, new1) /\
       calls = (q1, Some 3) ::
               (if (length new1 <? 4)%nat
                then [(q2, Some (Z.min 5 (4 - Z.of_nat (length new1))))]
                else []) /\
       Z.of_nat (length (results r)) <= 4) /\
  (forall W (P : Platform W) config query searchEngine limit w records w',
     0 <= limit ->
     searchAndExtract config query searchEngine (Some limit) w = (Ok records, w') ->
     Z.of_nat (length records) <= limit).
Proof.
  assert (Hbudget : forall W
            (search : string -> SearchEngine -> option Z -> M W (list ExtractedContent.t))
            searchEngine desiredResults searchPlan w r w',
            1 <= desiredResults ->
            runSearchPlanWith search searchEngine desiredResults searchPlan w = (Ok r, w') ->
            Z.of_nat (length (results r)) <= desiredResults).
  { intros W search e desired plan w r w' Hpos Hrun.
    apply runSearchPlanWith_inv in Hrun as (acc & Hrun & ->). cbn [results].
    eapply runSteps_within_budget; [exact Hrun|]. cbn. lia. }
  split; [exact Hbudget|].
  split; [|intros W P config q e l w records w'; apply searchAndExtract_length].
  intros W search e q1 reason1 q2 reason2 w r w' calls step1 step2 Hrun.
  assert (Hle : Z.of_nat (length (results r)) <= 4)
    by (eapply Hbudget; [lia|exact Hrun]).
  apply runSearchPlanWith_inv in Hrun as (acc & Hrun & ->).
  cbn [results stepResults] in *.
  cbn [runSteps] in Hrun.
  change (isOptional step1) with false in Hrun.
  change (isOptional step2) with false in Hrun.
  cbn [andb emptyAccumulator aggregatedResults length] in Hrun.
  change (4 - Z.of_nat 0 <=? 0) with false in Hrun. cbv iota in Hrun.
  change (stepLimit step1 (4 - Z.of_nat 0)) with 3 in Hrun.
  change (query step1) with q1 in Hrun. change (query step2) with q2 in Hrun.
  unfold bind at 1 in Hrun.
  destruct (journalledSearch search q1 e (Some 3) (w, [])) as [[raw1|err] [w1 calls1]]
    eqn:Hcall1; [|discriminate].
  apply journalledSearch_call in Hcall1 as [_ ->].
  destruct (recordStep_fields (4 - Z.of_nat 0) step1 raw1 emptyAccumulator)
    as (Hagg & _ & _ & Hper).
  change (aggregatedResults emptyAccumulator) with (@nil ExtractedContent.t) in Hagg.
  change (perStep emptyAccumulator)
    with (@nil (SearchPlanStep * list ExtractedContent.t)) in Hper.
  cbn [app] in Hagg, Hper.
  set (acc1 := recordStep _ step1 raw1 _) in *.
  set (new1 := sliceTo _ _) in *.
  exists new1.
  rewrite Hagg in Hrun.
  destruct (Z.leb_spec 4 (Z.of_nat (length new1))) as [Hfull|Hroom].
  - injection Hrun as <- <- <-. rewrite Hper. cbn [head].
    destruct (Nat.ltb_spec (length new1) 4); [lia|]. done.
  - unfold stepLimit in Hrun. change (hasLimit step2) with (Some 5) in Hrun.
    cbv iota in Hrun.
    destruct (Z.leb_spec (4 - Z.of_nat (length new1)) 0); [lia|].
    unfold bind in Hrun.
    destruct (journalledSearch search q2 e _ (w1, _)) as [[raw2|err] [w2 calls2]]
      eqn:Hcall2; [|discriminate].
    apply journalledSearch_call in Hcall2 as [_ ->].
    destruct (recordStep_fields (4 - Z.of_nat (length new1)) step2 raw2 acc1)
      as (_ & _ & _ & Hper2).
    rewrite Hper in Hper2. cbn [app] in Hper2.
    assert (Hcalls : calls = [(q1, Some 3);
                              (q2, Some (Z.min 5 (4 - Z.of_nat (length new1))))]).
    { destruct (_ <=? _); injection Hrun as <- <- <-;
        cbn [app query]; repeat f_equal; lia. }
    assert (Hhead : head (perStep acc) = Some (step1, new1)).
    { destruct (_ <=? _); injection Hrun as <- <- <-; by rewrite Hper2. }
    destruct (Nat.ltb_spec (length new1) 4); [|lia]. done.
Qed.

(** A run of the two-step plan on the scripted web, with a budget of 4. *)
Lemma runSearchPlan_within_budget_witness :
  match runSearchPlanWith
          (journalledSearch (@searchAndExtract _ (Scripted.platform Scripted.site) defaultConfig))
          duckduckgo 4
          [ {| query := "cats"; reason := "first"; optional := None; limit := Some 3 |};
            {| query := "more cats"; reason := "second"; optional := None; limit := Some 5 |} ]
          (Scripted.start, [])
  with
  | (Ok r, (_, calls)) =>
      Z.of_nat (length (results r)) <= 4 /\
      calls = [("cats"%string, Some 3); ("more cats"%string, Some 2)]
  | (Throw _, _) => False
  end /\
  match @searchAndExtract _ (Scripted.platform Scripted.site) defaultConfig
          "cats" duckduckgo (Some 3) Scripted.start
  with
  | (Ok records, _) => Z.of_nat (length records) <= 3
  | (Throw _, _) => False
  end.
Proof.
  split.
  - destruct (runSearchPlanWith _ _ _ _ _) as [[r|err] [w' calls]] eqn:Hrun.
    + split.
      * eapply (proj1 runSearchPlan_within_budget); [lia|exact Hrun].
      * destruct (proj1 (proj2 runSearchPlan_within_budget) _ _ _ _ _ _ _ _ _ _ _ Hrun)
          as (new1 & Hhead & -> & _).
        vm_compute in Hrun. injection Hrun as <- _ _.
        cbn in Hhead. injection Hhead as <-. reflexivity.
    + vm_compute in Hrun. discriminate.
  - destruct (searchAndExtract _ _ _ _ _) as [[records|err] w'] eqn:Hrun.
    + eapply (proj2 (proj2 runSearchPlan_within_budget)); [|exact Hrun]. lia.
    + vm_compute in Hrun. discriminate.
Defined.

(** C3. Whatever URLs the raw results of the steps share, across steps or
    within one, the results of a run hold each URL at most once, also
    when URLs are compared after trimming. *)
Theorem runSearchPlan_urls_distinct {W}
    (search : string -> SearchEngine -> option Z -> M W (list ExtractedContent.t))
    searchEngine desiredResults searchPlan w r w' :
  runSearchPlanWith search searchEngine desiredResults searchPlan w = (Ok r, w') ->
  NoDup (map ExtractedContent.url (results r)) /\
  NoDup (map urlKey (results r)).
Proof.
  intros Hrun. apply runSearchPlanWith_inv in Hrun as (acc & Hrun & ->).
  cbn [results].
  destruct (runSteps_keys _ _ _ _ _ _ _ _ Hrun) as [Hnd _].
  { split; constructor. }
  split; [|exact Hnd].
  assert (Heq : map urlKey (aggregatedResults acc)
                = map (fun u : option string =>
                         match trim <$> u with
                         | Some k => if nonEmpty k then Some k else None
                         | None => None
                         end)
                      (map ExtractedContent.url (aggregatedResults acc))).
  { rewrite map_map. reflexivity. }
  rewrite Heq in Hnd. eapply NoDup_fmap_1. exact Hnd.
Qed.

(** Both steps find [https://up.example/b]; it is returned once. *)
Lemma runSearchPlan_urls_distinct_witness :
  match @runSearchPlan _ (Scripted.platform Scripted.site) defaultConfig
          [Scripted.step "cats" (Some 3); Scripted.step "more cats" (Some 5)]
          duckduckgo 4 Scripted.start
  with
  | (Ok r, _) =>
      NoDup (map ExtractedContent.url (results r)) /\
      map ExtractedContent.url (results r)
      = [Some "https://down.example/a"; Some "https://up.example/b";
         Some "https://up.example/c"]%string
  | (Throw _, _) => False
  end.
Proof.
  destruct (runSearchPlan _ _ _ _ _) as [[r|err] w'] eqn:Hrun.
  - split.
    + apply (proj1 (runSearchPlan_urls_distinct _ _ _ _ _ _ _ Hrun)).
    + vm_compute in Hrun. injection Hrun as <- _. reflexivity.
  - vm_compute in Hrun. discriminate.
Defined.

(** C4. An optional step that is reached when the accepted results
    already number [desiredResults] is skipped: the run goes on as if the
    step were not in the plan. The list [executedQueries] holds the query
    of every call made to [searchAndExtract], in the order of the calls;
    these are the queries of the steps with a recorded outcome, whatever
    the number of new results, and those steps follow the plan order. *)
Theorem runSearchPlan_executed_steps :
  (forall W (search : string -> SearchEngine -> option Z -> M W (list ExtractedContent.t))
          searchEngine desiredResults step rest acc,
     isOptional step = true ->
     desiredResults <= Z.of_nat (length (aggregatedResults acc)) ->
     runSteps search searchEngine desiredResults (step :: rest) acc
     = runSteps search searchEngine desiredResults rest acc) /\
  (forall W (search : string -> SearchEngine -> option Z -> M W (list ExtractedContent.t))
          searchEngine desiredResults searchPlan w r w' calls,
     runSearchPlanWith (journalledSearch search) searchEngine desiredResults searchPlan (w, [])
       = (Ok r, (w', calls)) ->
     executedQueries r = map fst calls /\
     executedQueries r = map query (map fst (stepResults r)) /\
     sublist (map fst (stepResults r)) searchPlan).
Proof.
  split.
  - intros W search e desired step rest acc Hopt Hfull.
    cbn [runSteps]. rewrite Hopt.
    destruct (Z.leb_spec desired (Z.of_nat (length (aggregatedResults acc)))); [done|lia].
  - intros W search e desired plan w r w' calls Hrun.
    apply runSearchPlanWith_inv in Hrun as (acc & Hrun & ->).
    cbn [executedQueries stepResults].
    split; [|split].
    + symmetry. by apply (runSteps_journal _ _ _ _ _ _ _ _ Hrun).
    + by apply (runSteps_executed _ _ _ _ _ _ _ _ Hrun).
    + destruct (runSteps_ran _ _ _ _ _ _ _ _ Hrun) as (ran & Hsub & Heq).
      cbn in Heq. by rewrite Heq.
Qed.

(** With a budget of 1 the first step fills the budget; both steps of a
    second plan run although the second one brings nothing new; and an
    optional step met with the budget reached is passed over. *)
Lemma runSearchPlan_executed_steps_witness :
  (runSteps (@searchAndExtract _ (Scripted.platform Scripted.site) defaultConfig)
            duckduckgo 0
            [ {| query := "cats"; reason := "extra"; optional := Some true; limit := None |} ]
            emptyAccumulator
   = runSteps (@searchAndExtract _ (Scripted.platform Scripted.site) defaultConfig)
              duckduckgo 0 [] emptyAccumulator) /\
  match runSearchPlanWith
          (journalledSearch (@searchAndExtract _ (Scripted.platform Scripted.site) defaultConfig))
          duckduckgo 4
          [Scripted.step "more cats" None; Scripted.step "more cats" None]
          (Scripted.start, [])
  with
  | (Ok r, (_, calls)) =>
      executedQueries r = map fst calls /\
      executedQueries r = ["more cats"; "more cats"]%string /\
      map (fun '(_, new) => length new) (stepResults r) = [2; 0]%nat
  | (Throw _, _) => False
  end.
Proof.
  split.
  - apply (proj1 runSearchPlan_executed_steps); [reflexivity|cbn; lia].
  - destruct (runSearchPlanWith _ _ _ _ _) as [[r|err] [w' calls]] eqn:Hrun.
    + split.
      * apply (proj2 runSearchPlan_executed_steps _ _ _ _ _ _ _ _ _ Hrun).
      * vm_compute in Hrun. injection Hrun as <- _ _. split; reflexivity.
    + vm_compute in Hrun. discriminate.
Defined.

(** C10. Every result of a run has a URL that is not blank: the records
    whose URL is missing, empty or white space are dropped by the step's
    filter as if they were not there, so they are neither appended nor
    counted against the budget. *)
Theorem runSearchPlan_results_have_urls :
  (forall W (search : string -> SearchEngine -> option Z -> M W (list ExtractedContent.t))
          searchEngine desiredResults searchPlan w r w',
     runSearchPlanWith search searchEngine desiredResults searchPlan w = (Ok r, w') ->
     Forall hasUrl (results r)) /\
  (forall found seen,
     filterNewResults found seen
     = filterNewResults (List.filter (fun c => negb (blankUrl c)) found) seen) /\
  (forall remaining step found acc,
     recordStep remaining step found acc
     = recordStep remaining step (List.filter (fun c => negb (blankUrl c)) found) acc).
Proof.
  split; [|split].
  - intros W search e desired plan w r w' Hrun.
    apply runSearchPlanWith_inv in Hrun as (acc & Hrun & ->). cbn [results].
    destruct (runSteps_keys _ _ _ _ _ _ _ _ Hrun) as [_ Hall].
    { split; constructor. }
    eapply Forall_impl; [exact Hall|].
    intros c (k & Hk & _). apply urlKey_url in Hk as (u & Hu & Htrim & Hne).
    exists u. by rewrite Htrim.
  - intros found seen. apply filterNewResults_blank.
  - intros remaining step found acc. unfold recordStep.
    by rewrite <- filterNewResults_blank.
Qed.

(** A step whose raw results hold a record without URL, one with a blank
    URL and a good one accepts the good one only. *)
Lemma runSearchPlan_results_have_urls_witness :
  match runSearchPlanWith Scripted.fixedSearch duckduckgo 3 [Scripted.step "cats" None] tt
  with
  | (Ok r, _) =>
      Forall hasUrl (results r) /\
      map ExtractedContent.url (results r) = [Some " https://up.example/b "%string]
  | (Throw _, _) => False
  end.
Proof.
  destruct (runSearchPlanWith _ _ _ _ _) as [[r|err] w'] eqn:Hrun.
  - split.
    + apply (proj1 runSearchPlan_results_have_urls _ _ _ _ _ _ _ _ Hrun).
    + vm_compute in Hrun. injection Hrun as <-. reflexivity.
  - vm_compute in Hrun. discriminate.
Defined.

(** ** The retrying fetcher *)

Lemma attemptOnce_outcome {W} `{Platform W} url w r w' :
  attemptOnce url w = (r, w') ->
  exists outcome, fetch url w = (outcome, w') /\
    match r with
    | Ok body => failureOf outcome = None /\ bodyOf outcome = Some body
    | Throw e => failureOf outcome = Some e
    end.
Proof.
  unfold attemptOnce.
  destruct (fetch url w) as [[reason|status statusText text] w1].
  - intros [= <- <-]. eexists. split; reflexivity.
  - destruct (isOk status) eqn:Hok; cbn [negb].
    + intros [= <- <-]. eexists. split; [reflexivity|].
      unfold failureOf, bodyOf. rewrite Hok. by destruct text.
    + intros [= <- <-]. eexists. split; [reflexivity|].
      unfold failureOf. by rewrite Hok.
Qed.

Section Journal.
Context {W : Type} (P : Platform W).
Variable config : Config.
Variable url : string.

(** What the loop leaves in the journal: one entry for each attempt made;
    on success the last one answered and the others failed; on failure
    every attempt of the list was made and failed, and the exception is
    that of the last. *)
Lemma retryLoop_journal attempts : forall lastError w journal0 result w' journal,
  @retryLoop _ (journalled P) config url attempts lastError (w, journal0)
    = (result, (w', journal)) ->
  exists new,
    journal = journal0 ++ new /\
    (length new <= length attempts)%nat /\
    Forall (fun e => e.1 = url) new /\
    match result with
    | Ok body =>
        exists earlier outcome,
          new = earlier ++ [(url, outcome)] /\
          Forall (fun e => is_Some (failureOf e.2)) earlier /\
          failureOf outcome = None /\ bodyOf outcome = Some body
    | Throw e =>
        length new = length attempts /\
        Forall (fun e => is_Some (failureOf e.2)) new /\
        match last new with
        | Some (_, outcome) => failureOf outcome = Some e
        | None => e = lastError
        end
    end.
Proof.
  induction attempts as [|attempt later IH]; intros lastError w journal0 result w' journal Hrun.
  - cbn in Hrun. injection Hrun as <- <- <-. exists [].
    rewrite app_nil_r. repeat split; constructor.
  - cbn [retryLoop] in Hrun. unfold tryCatch in Hrun.
    destruct (attemptOnce url (w, journal0)) as [[body|e] [w1 journal1]] eqn:Hattempt.
    + injection Hrun as <- <- <-.
      apply attemptOnce_outcome in Hattempt as (outcome & Hfetch & Hnone & Hbody).
      cbn in Hfetch. destruct (fetch url w) as [o w2].
      injection Hfetch as -> -> <-.
      exists [(url, outcome)]. repeat split; [cbn; lia|by repeat constructor|].
      exists [], outcome. repeat split; done.
    + apply attemptOnce_outcome in Hattempt as (outcome & Hfetch & Hfail).
      cbn in Hfetch. destruct (fetch url w) as [o w2].
      injection Hfetch as -> -> <-.
      assert (Hrest : exists w3,
                 @retryLoop _ (journalled P) config url later e
                   (w3, journal0 ++ [(url, outcome)]) = (result, (w', journal))).
      { destruct (attempt <? retryAttempts config);
          [exists (delay (retryDelay config * attempt) w1)|exists w1]; exact Hrun. }
      destruct Hrest as (w3 & Hrest).
      destruct (IH _ _ _ _ _ _ Hrest) as (new & -> & Hlen & Hurl & Hres).
      exists ((url, outcome) :: new).
      rewrite <- app_assoc. repeat split; [cbn; lia|by constructor|].
      destruct result as [body|e'].
      * destruct Hres as (earlier & last & -> & Hearlier & Hnone & Hbody).
        exists ((url, outcome) :: earlier), last.
        repeat split; try done.
        constructor; [cbn [snd]; rewrite Hfail; by eexists|done].
      * destruct Hres as (Hlen' & Hfailed & Hlast).
        repeat split;
          [cbn; lia|constructor; [cbn [snd]; rewrite Hfail; by eexists|done]|].
        destruct new as [|entry new]; [cbn in *; congruence|].
        rewrite last_cons_cons.
        destruct (last (entry :: new)) as [[u o]|] eqn:Hl; [exact Hlast|].
        by apply last_None in Hl.
Qed.

End Journal.

(** C9. For every URL the fetcher makes at most [retryAttempts] requests,
    all to that URL, and goes on to the next one after a failure, a
    status outside 2xx being one. It returns only the complete body of
    the last request made, which answered 2xx after the others failed;
    when every attempt failed it throws what the last attempt threw.
    With three attempts, statuses 500, 500 and 200 give the third body. *)
Theorem fetchWithRetry_retries :
  (forall W (P : Platform W) config url w result w' journal,
     @fetchWithRetry _ (journalled P) config url (w, []) = (result, (w', journal)) ->
     Z.of_nat (length journal) <= Z.max 0 (retryAttempts config) /\
     Forall (fun e => e.1 = url) journal /\
     match result with
     | Ok body =>
         exists earlier outcome,
           journal = earlier ++ [(url, outcome)] /\
           Forall (fun e => is_Some (failureOf e.2)) earlier /\
           failureOf outcome = None /\ bodyOf outcome = Some body
     | Throw e =>
         Z.of_nat (length journal) = Z.max 0 (retryAttempts config) /\
         Forall (fun e => is_Some (failureOf e.2)) journal /\
         match last journal with
         | Some (_, outcome) => failureOf outcome = Some e
         | None => e = Undefined
         end
     end) /\
  (forall status statusText text,
     isOk status = false ->
     failureOf (Responded status statusText text)
     = Some (ErrorOf ("HTTP " +:+ pretty status +:+ ": " +:+ statusText))) /\
  (forall W (P : Platform W) config url w0 w1 w2 w3 text1 body1 text2 body2 text3 body,
     retryAttempts config = 3 ->
     fetch url w0 = (Responded 500 text1 body1, w1) ->
     fetch url (delay (retryDelay config * 1) w1) = (Responded 500 text2 body2, w2) ->
     fetch url (delay (retryDelay config * 2) w2) = (Responded 200 text3 (Ok body), w3) ->
     fetchWithRetry config url w0 = (Ok body, w3)).
Proof.
  split; [|split].
  - intros W P config url w result w' journal Hrun.
    unfold fetchWithRetry in Hrun.
    apply retryLoop_journal in Hrun as (new & -> & Hlen & Hurl & Hres).
    rewrite length_seqZ in Hlen. cbn [app].
    split; [lia|]. split; [done|].
    destruct result as [body|e]; [done|].
    destruct Hres as (Hlen' & Hfailed & Hlast).
    rewrite length_seqZ in Hlen'. split; [lia|done].
  - intros status statusText text Hnot. unfold failureOf. by rewrite Hnot.
  - intros W P config url w0 w1 w2 w3 text1 body1 text2 body2 text3 body
      Hthree H1 H2 H3.
    unfold fetchWithRetry. rewrite Hthree.
    change (seqZ 1 3) with [1; 2; 3].
    cbn [retryLoop]. unfold tryCatch, attemptOnce.
    rewrite H1. cbn. rewrite Hthree. cbn.
    rewrite H2. cbn. rewrite H3. reflexivity.
Qed.

(** The flaky page of the scripted web answers at the third request. *)
Lemma fetchWithRetry_retries_witness :
  match @fetchWithRetry _ (journalled (Scripted.platform Scripted.site)) defaultConfig
          "https://flaky.example/" (Scripted.start, [])
  with
  | (Ok body, (_, journal)) =>
      body = "<p>third time lucky</p>"%string /\
      Z.of_nat (length journal) <= 3 /\
      Forall (fun e => e.1 = "https://flaky.example/"%string) journal
  | (Throw _, _) => False
  end /\
  failureOf (Responded 500 "Internal Server Error" (Ok "oops"))
  = Some (ErrorOf "HTTP 500: Internal Server Error") /\
  @fetchWithRetry _ (Scripted.platform Scripted.site) defaultConfig
     "https://flaky.example/" Scripted.start
  = (Ok "<p>third time lucky</p>"%string,
     {| Scripted.requests := ["https://flaky.example/"; "https://flaky.example/";
                              "https://flaky.example/"]%string;
        Scripted.pauses := [1000; 2000] |}).
Proof.
  split; [|split].
  - destruct (fetchWithRetry _ _ _) as [[body|err] [w' journal]] eqn:Hrun.
    + destruct (proj1 fetchWithRetry_retries _ _ _ _ _ _ _ _ Hrun) as (Hlen & Hurl & _).
      split; [|split; [exact Hlen|exact Hurl]].
      vm_compute in Hrun. injection Hrun as <- _ _. reflexivity.
    + vm_compute in Hrun. discriminate.
  - apply (proj1 (proj2 fetchWithRetry_retries) 500 "Internal Server Error"%string
             (Ok "oops"%string)).
    reflexivity.
  - eapply (proj2 (proj2 fetchWithRetry_retries) _ (Scripted.platform Scripted.site)
              defaultConfig "https://flaky.example/"%string Scripted.start).
    + reflexivity.
    + vm_compute. reflexivity.
    + vm_compute. reflexivity.
    + vm_compute. reflexivity.
Defined.

(** ** Failures of single URLs *)

Lemma extractSingleContent_ok {W} `{Platform W} config url w c w' :
  extractSingleContent config url w = (Ok c, w') ->
  ExtractedContent.url c = Some url /\ ExtractedContent.success c = true.
Proof.
  unfold extractSingleContent, tryCatch, bind, lift.
  destruct (fetchWithRetry config url w) as [[response|e] w1].
  - destruct (parsePage _ url response) as [page|e].
    + intros [= <- <-]. done.
    + destruct e; cbn; discriminate.
  - destruct e; cbn; discriminate.
Qed.

Lemma filterNewResults_keeps pre c post k : forall seen,
  urlKey c = Some k -> k ∉ seen ->
  Forall (fun c' => urlKey c' <> Some k) pre ->
  c ∈ (filterNewResults (pre ++ c :: post) seen).1.
Proof.
  induction pre as [|c' pre IH]; intros seen Hk Hfresh Hpre.
  - cbn [app]. rewrite filterNewResults_cons, Hk.
    rewrite bool_decide_eq_false_2 by done. cbn. left.
  - inversion_clear Hpre as [|? ? Hc' Hpre'].
    cbn [app]. rewrite filterNewResults_cons.
    destruct (urlKey c') as [k'|]; [case_bool_decide|]; [by apply IH| |by apply IH].
    cbn [fst]. right. apply IH; [done| |done].
    intros [Hin|Hin]%elem_of_union; [done|].
    apply elem_of_singleton in Hin. congruence.
Qed.

(** C2, as the code has it. A failure fetching or extracting one URL of
    a validated list does not abort the step: [extractContents] returns
    one record for each URL, in order, a record with [success: false]
    and the error message standing for each URL whose extraction threw,
    and [searchAndExtract] returns them to the engine. The step's filter
    does not look at [success]: a record with a non-blank URL not seen
    before, failed or not, is among the new results, where it counts
    toward the budget like any other. *)
Theorem url_failure_is_recorded :
  (forall W (P : Platform W) config urls w,
     validateUrls urls = Ok tt ->
     exists records w',
       extractContents config urls w = (Ok records, w') /\
       Forall2
         (fun url c =>
            ExtractedContent.url c = Some url /\
            exists wi,
              match (extractSingleContent config url wi).1 with
              | Ok value => c = value /\ ExtractedContent.success c = true
              | Throw reason =>
                  ExtractedContent.success c = false /\
                  ExtractedContent.error c = Some (reasonMessage reason)
              end)
         urls records) /\
  (forall W (P : Platform W) config query searchEngine limit w urls w1,
     getTopUrls config query searchEngine limit w = (Ok urls, w1) ->
     validateUrls urls = Ok tt ->
     exists records w',
       searchAndExtract config query searchEngine limit w = (Ok records, w') /\
       length records = length urls) /\
  (forall pre c post seen k,
     urlKey c = Some k -> k ∉ seen ->
     Forall (fun c' => urlKey c' <> Some k) pre ->
     c ∈ (filterNewResults (pre ++ c :: post) seen).1).
Proof.
  assert (Hrecorded : forall W (P : Platform W) config urls w,
            validateUrls urls = Ok tt ->
            exists records w',
              extractContents config urls w = (Ok records, w') /\
              Forall2
                (fun url c =>
                   ExtractedContent.url c = Some url /\
                   exists wi,
                     match (extractSingleContent config url wi).1 with
                     | Ok value => c = value /\ ExtractedContent.success c = true
                     | Throw reason =>
                         ExtractedContent.success c = false /\
                         ExtractedContent.error c = Some (reasonMessage reason)
                     end)
                urls records); [|split; [exact Hrecorded|split]].
  - intros W P config urls w Hvalid.
    unfold extractContents, tryCatch, bind, lift. rewrite Hvalid.
    destruct (allSettled_total (map (extractSingleContent config) urls) w)
      as (settled & w' & -> & Hall).
    eexists _, w'. split; [reflexivity|].
    clear Hvalid. revert settled Hall.
    induction urls as [|url urls IH]; intros settled Hall;
      inversion Hall as [|task result tasks settled' (wi & Hwi) Hall' Heq1 Heq2]; subst.
    + constructor.
    + cbn [zip_with]. constructor; [|by apply IH].
      destruct (extractSingleContent config url wi) as [[value|reason] w1] eqn:Hone;
        cbn [fst settledContent].
      * destruct (extractSingleContent_ok _ _ _ _ _ Hone) as [Hurl Hok].
        split; [done|]. exists wi. by rewrite Hone.
      * split; [done|]. exists wi. by rewrite Hone.
  - intros W P config q e l w urls w1 Hurls Hvalid.
    destruct (Hrecorded W P config urls w1 Hvalid) as (records & w' & Hrun & Hall).
    exists records, w'. unfold searchAndExtract, tryCatch, bind.
    rewrite Hurls, Hrun. split; [reflexivity|].
    symmetry. by eapply Forall2_length.
  - intros pre c post seen k. apply filterNewResults_keeps.
Qed.

(** The two pages found for [cats]: the one that is down is recorded as a
    failed record; with a budget of 1 it is the only result of the run. *)
Lemma url_failure_is_recorded_witness :
  Scripted.downRecord
    ∈ (filterNewResults
         [Scripted.record (Some "https://up.example/b"); Scripted.downRecord;
          Scripted.record (Some "https://up.example/c")] ∅).1 /\
  (exists records w',
     @extractContents _ (Scripted.platform Scripted.site) defaultConfig
        ["https://down.example/a"; "https://up.example/b"]%string Scripted.start
     = (Ok records, w') /\
     map ExtractedContent.success records = [false; true]) /\
  (exists records w',
     @searchAndExtract _ (Scripted.platform Scripted.site) defaultConfig
        "cats" duckduckgo (Some 3) Scripted.start
     = (Ok records, w') /\
     length records = 2%nat) /\
  match @runSearchPlan _ (Scripted.platform Scripted.site) defaultConfig
          [Scripted.step "cats" (Some 3)] duckduckgo 1 Scripted.start
  with
  | (Ok r, _) =>
      map (fun c => (ExtractedContent.url c, ExtractedContent.success c)) (results r)
      = [(Some "https://down.example/a"%string, false)]
  | (Throw _, _) => False
  end.
Proof.
  split; [|split; [|split]].
  - apply (proj2 (proj2 url_failure_is_recorded)
             [Scripted.record (Some "https://up.example/b")] Scripted.downRecord
             [Scripted.record (Some "https://up.example/c")] ∅
             "https://down.example/a"%string).
    + reflexivity.
    + apply not_elem_of_empty.
    + constructor; [|constructor]. vm_compute. discriminate.
  - destruct (proj1 url_failure_is_recorded _ (Scripted.platform Scripted.site)
                defaultConfig ["https://down.example/a"; "https://up.example/b"]%string
                Scripted.start eq_refl)
      as (records & w' & Hrun & _).
    exists records, w'. split; [exact Hrun|].
    vm_compute in Hrun. injection Hrun as <- _. reflexivity.
  - destruct (@getTopUrls _ (Scripted.platform Scripted.site) defaultConfig
                "cats" duckduckgo (Some 3) Scripted.start) as [found w1] eqn:Hurls.
    assert (Hfound : found = Ok ["https://down.example/a"; "https://up.example/b"]%string).
    { vm_compute in Hurls. by injection Hurls as <- _. }
    subst found.
    exact (proj1 (proj2 url_failure_is_recorded) _ (Scripted.platform Scripted.site)
             defaultConfig "cats"%string duckduckgo (Some 3) Scripted.start _ w1
             Hurls eq_refl).
  - vm_compute. reflexivity.
Defined.

(** C2 as the specification words it fails: the page that is down is
    among the new results of the step that found it. *)
Lemma failedRecordsExcluded_counterexample : ~ failedRecordsExcluded.
Proof.
  intros Hclaim.
  destruct (@runSearchPlan _ (Scripted.platform Scripted.site) defaultConfig
              [Scripted.step "cats" (Some 3)] duckduckgo 1 Scripted.start)
    as [[r|err] w'] eqn:Hrun.
  - pose proof (Hclaim _ _ _ _ _ _ _ _ _ Hrun) as Hall.
    vm_compute in Hrun. injection Hrun as <- _.
    inversion_clear Hall as [|? ? Hfirst _].
    inversion_clear Hfirst as [|? ? Hsuccess _].
    discriminate Hsuccess.
  - vm_compute in Hrun. discriminate.
Qed.

(** ** Characters and words *)

Ltac each_ascii c := destruct c as [[] [] [] [] [] [] [] []].

Lemma toLowerChar_idem c : toLowerChar (toLowerChar c) = toLowerChar c.
Proof. each_ascii c; reflexivity. Qed.

Lemma toLowerChar_isSpace c : isSpace (toLowerChar c) = isSpace c.
Proof. each_ascii c; reflexivity. Qed.

Lemma toLowerChar_not_upper c : isUpper (toLowerChar c) = false.
Proof. each_ascii c; reflexivity. Qed.

Lemma isSpace_lowerFixed c : isSpace c = true -> lowerFixed c = true.
Proof. each_ascii c; cbn; (reflexivity || discriminate). Qed.

Lemma isSpace_isKept c : isSpace c = true -> isKept c = true.
Proof. unfold isKept. intros ->. by rewrite orb_true_r. Qed.

Lemma lowerFixed_eq c : lowerFixed c = true -> toLowerChar c = c.
Proof. unfold lowerFixed. by intros ?%Ascii.eqb_eq. Qed.

Lemma lowerFixed_not_upper c : lowerFixed c = true -> isUpper c = false.
Proof. intros H%lowerFixed_eq. rewrite <- H. apply toLowerChar_not_upper. Qed.

Lemma allChars_impl (P Q : ascii -> bool) s :
  (forall c, P c = true -> Q c = true) -> allChars P s = true -> allChars Q s = true.
Proof.
  intros HPQ. induction s as [|c s IH]; [done|]. cbn.
  intros [Hc Hs]%andb_true_iff. by rewrite (HPQ _ Hc), IH.
Qed.

Lemma append_cons c s t : String c s +:+ t = String c (s +:+ t).
Proof. reflexivity. Qed.

Lemma append_empty_l s : EmptyString +:+ s = s.
Proof. reflexivity. Qed.

Lemma allChars_append P s t :
  allChars P (s +:+ t) = allChars P s && allChars P t.
Proof.
  induction s as [|c s IH]; [done|].
  rewrite append_cons. cbn. by rewrite IH, andb_assoc.
Qed.

Lemma toLowerCase_lowerFixed s : allChars lowerFixed (toLowerCase s) = true.
Proof.
  induction s as [|c s IH]; [done|]. cbn. rewrite IH, andb_true_r.
  unfold lowerFixed. rewrite toLowerChar_idem. apply Ascii.eqb_refl.
Qed.

Lemma toLowerCase_fixed s : allChars lowerFixed s = true -> toLowerCase s = s.
Proof.
  induction s as [|c s IH]; [done|]. cbn.
  intros [Hc Hs]%andb_true_iff. by rewrite (lowerFixed_eq _ Hc), IH.
Qed.

Lemma blankOthers_kept s : allChars isKept s = true -> blankOthers s = s.
Proof.
  induction s as [|c s IH]; [done|]. cbn.
  intros [Hc Hs]%andb_true_iff. by rewrite Hc, IH.
Qed.

Lemma dropOthers_kept s : allChars isKept s = true -> dropOthers s = s.
Proof.
  induction s as [|c s IH]; [done|]. cbn.
  intros [Hc Hs]%andb_true_iff. by rewrite Hc, IH.
Qed.

Lemma blankOthers_chars s :
  allChars lowerFixed s = true ->
  allChars (fun c => isKept c && lowerFixed c) (blankOthers s) = true.
Proof.
  induction s as [|c s IH]; [done|]. cbn.
  intros [Hc Hs]%andb_true_iff. rewrite (IH Hs), andb_true_r.
  destruct (isKept c) eqn:Hk; [by rewrite Hk, Hc|reflexivity].
Qed.

Lemma toLowerCase_spaces s :
  allChars isSpace s = true -> allChars isSpace (toLowerCase s) = true.
Proof.
  induction s as [|c s IH]; [done|]. cbn.
  intros [Hc Hs]%andb_true_iff. by rewrite toLowerChar_isSpace, Hc, IH.
Qed.

Lemma blankOthers_spaces s :
  allChars isSpace s = true -> allChars isSpace (blankOthers s) = true.
Proof.
  induction s as [|c s IH]; [done|]. cbn.
  intros [Hc Hs]%andb_true_iff. by rewrite (isSpace_isKept _ Hc), Hc, IH.
Qed.

(** *** [split(/\s+/)] *)

Lemma splitFrom_not_nil b s : splitFrom b s <> [].
Proof.
  revert b. induction s as [|c s IH]; intros b; [done|]. cbn.
  destruct (isSpace c); [destruct b; [apply IH|done]|].
  destruct (splitFrom false s); done.
Qed.

Lemma splitFrom_pieces (P : ascii -> bool) s : forall b,
  allChars P s = true ->
  Forall (fun p => allChars (fun c => P c && notSpace c) p = true) (splitFrom b s).
Proof.
  induction s as [|c s IH]; intros b; [by repeat constructor|]. cbn.
  intros [Hc Hs]%andb_true_iff.
  destruct (isSpace c) eqn:Hsp.
  - destruct b; [by apply IH|]. constructor; [done|by apply IH].
  - specialize (IH false Hs). destruct (splitFrom false s) as [|p ps].
    + repeat constructor. cbn. unfold notSpace. by rewrite Hc, Hsp.
    + inversion_clear IH as [|? ? Hp Hps]. constructor; [|done].
      cbn. unfold notSpace at 1. by rewrite Hc, Hsp, Hp.
Qed.

Lemma splitFrom_spaces s : forall b,
  allChars isSpace s = true -> Forall (fun p => p = EmptyString) (splitFrom b s).
Proof.
  induction s as [|c s IH]; intros b; [by repeat constructor|]. cbn.
  intros [Hc Hs]%andb_true_iff. rewrite Hc.
  destruct b; [by apply IH|]. constructor; [done|by apply IH].
Qed.

(** A flag set at a position that is not white space changes nothing. *)
Lemma splitFrom_flag b s :
  match s with String c _ => isSpace c = false | EmptyString => True end ->
  splitFrom b s = splitFrom false s.
Proof. destruct s as [|c s]; [done|]. cbn. by intros ->. Qed.

Lemma splitFrom_word_append w s :
  allChars notSpace w = true ->
  splitFrom false (w +:+ s) =
  match splitFrom false s with
  | p :: ps => (w +:+ p) :: ps
  | [] => [w]
  end.
Proof.
  induction w as [|c w IH].
  - intros _. rewrite append_empty_l.
    destruct (splitFrom false s) eqn:Hs; [|done].
    by apply splitFrom_not_nil in Hs.
  - rewrite append_cons. cbn.
    intros [Hc Hw]%andb_true_iff. unfold notSpace in Hc.
    apply negb_true_iff in Hc. rewrite Hc, (IH Hw).
    destruct (splitFrom false s); done.
Qed.

(** *** [trim] *)

Lemma trimStart_empty s : trimStart s = EmptyString -> allChars isSpace s = true.
Proof.
  induction s as [|c s IH]; [done|]. cbn.
  destruct (isSpace c); [exact IH|discriminate].
Qed.

Lemma trimStart_head s :
  match trimStart s with String c _ => isSpace c = false | EmptyString => True end.
Proof.
  induction s as [|c s IH]; [done|]. cbn.
  destruct (isSpace c) eqn:Hc; [exact IH|exact Hc].
Qed.

Lemma trimEnd_head c s : isSpace c = false -> exists t, trimEnd (String c s) = String c t.
Proof.
  intros Hc. cbn. rewrite Hc. destruct (trimEnd s); eauto.
Qed.

Lemma trim_empty s : trim s = EmptyString -> allChars isSpace s = true.
Proof.
  unfold trim. intros Ht. apply trimStart_empty.
  pose proof (trimStart_head s) as Hhead.
  destruct (trimStart s) as [|c t]; [done|].
  destruct (trimEnd_head c t Hhead) as [t' Ht']. congruence.
Qed.

Lemma trimStart_fixed s :
  match s with String c _ => isSpace c = false | EmptyString => True end ->
  trimStart s = s.
Proof. destruct s as [|c s]; [done|]. cbn. by intros ->. Qed.

Lemma trimEnd_cons c s :
  trimEnd (String c s) =
  match trimEnd s with
  | EmptyString => if isSpace c then EmptyString else String c EmptyString
  | t => String c t
  end.
Proof. reflexivity. Qed.

Lemma trimEnd_idem s : trimEnd (trimEnd s) = trimEnd s.
Proof.
  induction s as [|c s IH]; [done|]. rewrite trimEnd_cons.
  destruct (trimEnd s) as [|d t] eqn:Ht.
  - destruct (isSpace c) eqn:Hc; [done|]. cbn. by rewrite Hc.
  - rewrite trimEnd_cons, IH. done.
Qed.

Lemma trim_idem s : trim (trim s) = trim s.
Proof.
  unfold trim. pose proof (trimStart_head s) as Hhead.
  destruct (trimStart s) as [|c t]; [done|].
  destruct (trimEnd_head c t Hhead) as [t' Ht'].
  rewrite Ht'. rewrite trimStart_fixed by done.
  rewrite <- Ht'. apply trimEnd_idem.
Qed.

Lemma trimEnd_word w : allChars notSpace w = true -> trimEnd w = w.
Proof.
  induction w as [|c w IH]; [done|]. cbn.
  intros [Hc Hw]%andb_true_iff. unfold notSpace in Hc. apply negb_true_iff in Hc.
  rewrite (IH Hw), Hc. by destruct w.
Qed.

Lemma trim_word w : allChars notSpace w = true -> trim w = w.
Proof.
  intros Hw. unfold trim. rewrite trimStart_fixed.
  - by apply trimEnd_word.
  - destruct w as [|c w]; [done|]. cbn in Hw.
    apply andb_true_iff in Hw as [Hc _]. by apply negb_true_iff in Hc.
Qed.

(** ** What [extractTopics] returns *)

Lemma processWord_alt q m stop p removed found word :
  processWord q m stop p (removed, found) word =
  if isDropped m stop (trim word)
  then (removed ++ [trim word], found)
  else (removed, found ++ [topicFor q p (trim word)]).
Proof.
  unfold processWord, isDropped, topicFor.
  destruct (_ <? m); [done|]. cbn [orb].
  destruct (bool_decide _); [done|].
  destruct (findOriginalWord q (trim word)) as [o|]; [|done].
  by destruct (p && nonEmpty o && startsUpper o).
Qed.

Lemma foldl_processWord q m stop p words : forall removed found,
  foldl (processWord q m stop p) (removed, found) words =
  (removed ++ List.filter (isDropped m stop) (map trim words),
   found ++ map (topicFor q p)
              (List.filter (fun w => negb (isDropped m stop w)) (map trim words))).
Proof.
  induction words as [|word words IH]; intros removed found.
  - cbn. by rewrite !app_nil_r.
  - cbn [foldl map List.filter]. rewrite processWord_alt.
    destruct (isDropped m stop (trim word)); cbn [negb]; rewrite IH;
      by rewrite <- app_assoc.
Qed.

Lemma extractTopics_topics q o :
  topics (extractTopics q o) =
  sliceTo (default 10 (maxTopics o))
    (map (topicFor q (default true (preserveCapitalized o)))
       (List.filter
          (fun w => negb (isDropped (default 2 (minWordLength o))
                            (buildStopWords (default both (language o))
                                            (default [] (customStopWords o))) w))
          (map trim (normalisedWords q)))).
Proof. unfold extractTopics. rewrite foldl_processWord. reflexivity. Qed.

Lemma extractTopics_cleanedQuery q o :
  cleanedQuery (extractTopics q o) = joinSpaces (topics (extractTopics q o)).
Proof. unfold extractTopics. by destruct (foldl _ _ _). Qed.

Lemma normalisedWords_tokens q : Forall (fun w => isToken w = true) (normalisedWords q).
Proof.
  unfold normalisedWords, splitSpaces.
  pose proof (splitFrom_pieces _ _ false
                (blankOthers_chars _ (toLowerCase_lowerFixed q))) as Hpieces.
  induction Hpieces as [|p ps Hp Hps IH]; [constructor|].
  cbn [List.filter]. destruct (nonEmpty p) eqn:Hne; [|exact IH].
  constructor; [|exact IH].
  unfold isToken. rewrite Hne. cbn [andb].
  eapply allChars_impl; [|exact Hp]. intros c Hc. exact Hc.
Qed.

Lemma isToken_isWord w : isToken w = true -> isWord w = true.
Proof.
  unfold isToken, isWord. intros [-> Hw]%andb_true_iff. cbn [andb].
  eapply allChars_impl; [|exact Hw].
  unfold isTokenChar. by intros c [_ ?]%andb_true_iff.
Qed.

Lemma isWord_trim w : isWord w = true -> trim w = w.
Proof. intros [_ Hw]%andb_true_iff. by apply trim_word. Qed.

Lemma allChars_true s : allChars (fun _ => true) s = true.
Proof. induction s; done. Qed.

Lemma splitSpaces_words q w :
  In w (splitSpaces q) -> nonEmpty w = true -> isWord w = true.
Proof.
  intros Hin Hne. unfold isWord. rewrite Hne. cbn [andb].
  pose proof (splitFrom_pieces _ _ false (allChars_true q)) as Hpieces.
  rewrite Forall_forall in Hpieces. apply list_elem_of_In in Hin.
  exact (Hpieces _ Hin).
Qed.

Lemma topicFor_word q p w : isWord w = true -> isWord (topicFor q p w) = true.
Proof.
  intros Hw. unfold topicFor.
  destruct (findOriginalWord q w) as [o|] eqn:Hfind; [|done].
  destruct (p && nonEmpty o && startsUpper o) eqn:Hcond; [|done].
  apply andb_true_iff in Hcond as [[_ Hne]%andb_true_iff _].
  apply find_some in Hfind as [Hin _]. by eapply splitSpaces_words.
Qed.

Lemma Forall_sliceTo {A} (P : A -> Prop) n l : Forall P l -> Forall P (sliceTo n l).
Proof.
  rewrite !Forall_forall. intros Hall x Hx. apply Hall.
  eapply elem_of_sublist; [exact Hx|apply sliceTo_sublist].
Qed.

Lemma Forall_filter_bool {A} (P : A -> Prop) f l : Forall P l -> Forall P (List.filter f l).
Proof.
  rewrite !Forall_forall. intros Hall x Hx. apply Hall.
  apply list_elem_of_In. apply list_elem_of_In, filter_In in Hx. tauto.
Qed.

Lemma extractTopics_words q o :
  Forall (fun t => isWord t = true) (topics (extractTopics q o)).
Proof.
  rewrite extractTopics_topics.
  apply Forall_sliceTo, Forall_map, Forall_filter_bool, Forall_map.
  eapply Forall_impl; [apply normalisedWords_tokens|].
  intros w Hw%isToken_isWord. cbn. apply topicFor_word.
  by rewrite (isWord_trim _ Hw).
Qed.

(** ** Topic extraction: the statistics *)

(** C6. For every query and every option set, the analysis returned by
    [extractTopics] has [stats.stopWordsRemoved = removedWords.length] and
    [stats.finalWordCount = topics.length], the topics being those left
    after the cap: their number is at most [maxTopics]. *)
Theorem extractTopics_stats_agree (query : string) (options : TopicExtractionOptions) :
  let analysis := extractTopics query options in
  stopWordsRemoved (stats analysis) = length (removedWords analysis) /\
  finalWordCount (stats analysis) = length (topics analysis) /\
  (0 <= default 10 (maxTopics options) ->
   Z.of_nat (finalWordCount (stats analysis)) <= default 10 (maxTopics options)).
Proof.
  cbv zeta.
  assert (Hfinal : finalWordCount (stats (extractTopics query options))
                   = length (topics (extractTopics query options))).
  { unfold extractTopics. by destruct (foldl _ _ _). }
  split; [|split; [exact Hfinal|]].
  - unfold extractTopics. by destruct (foldl _ _ _).
  - intros Hmax. rewrite Hfinal, extractTopics_topics. by apply sliceTo_length.
Qed.

(** Of the four topics of this query the two first are kept. *)
Lemma extractTopics_stats_agree_witness :
  topics (extractTopics "le moteur diesel de la voiture rouge" Scripted.twoTopics)
  = ["moteur"; "diesel"]%string /\
  removedWords (extractTopics "le moteur diesel de la voiture rouge" Scripted.twoTopics)
  = ["le"; "de"; "la"]%string /\
  stats (extractTopics "le moteur diesel de la voiture rouge" Scripted.twoTopics)
  = {| originalWordCount := 7; finalWordCount := 2; stopWordsRemoved := 3 |} /\
  Z.of_nat (finalWordCount
              (stats (extractTopics "le moteur diesel de la voiture rouge"
                                    Scripted.twoTopics))) <= 2.
Proof.
  split; [by vm_compute|]. split; [by vm_compute|]. split; [by vm_compute|].
  apply (extractTopics_stats_agree "le moteur diesel de la voiture rouge"
                                   Scripted.twoTopics).
  cbn. lia.
Defined.

(** *** [join(' ')] of words *)

Lemma joinSpaces_cons w ws :
  joinSpaces (w :: ws) =
  match ws with
  | [] => w
  | _ :: _ => w +:+ String space (joinSpaces ws)
  end.
Proof. destruct ws; reflexivity. Qed.

Lemma trimEnd_append s t :
  trimEnd t <> EmptyString -> trimEnd (s +:+ t) = s +:+ trimEnd t.
Proof.
  intros Ht. induction s as [|c s IH]; [done|].
  rewrite !append_cons, trimEnd_cons, IH.
  destruct (s +:+ trimEnd t) eqn:Hs; [|done].
  destruct s; [by rewrite append_empty_l in Hs|discriminate].
Qed.

Lemma joinSpaces_fixed ws :
  Forall (fun t => isWord t = true) ws ->
  trimEnd (joinSpaces ws) = joinSpaces ws /\
  match joinSpaces ws with
  | String c _ => isSpace c = false
  | EmptyString => ws = []
  end.
Proof.
  induction 1 as [|w ws Hw Hws [IHend IHhead]]; [done|].
  apply andb_true_iff in Hw as [Hne Hchars].
  assert (Hhead : match w with String c _ => isSpace c = false | EmptyString => False end).
  { destruct w as [|c w]; [discriminate|]. cbn in Hchars.
    apply andb_true_iff in Hchars as [Hc _]. by apply negb_true_iff in Hc. }
  rewrite joinSpaces_cons. destruct ws as [|w' ws].
  - split; [by apply trimEnd_word|]. destruct w; done.
  - split.
    + rewrite trimEnd_append.
      * rewrite trimEnd_cons, IHend.
        destruct (joinSpaces (w' :: ws)) eqn:Hj; [done|reflexivity].
      * rewrite trimEnd_cons, IHend.
        destruct (joinSpaces (w' :: ws)) eqn:Hj; [done|discriminate].
    + destruct w as [|c w]; [done|]. by rewrite append_cons.
Qed.

Lemma joinSpaces_trim ws :
  Forall (fun t => isWord t = true) ws -> trim (joinSpaces ws) = joinSpaces ws.
Proof.
  intros Hws. destruct (joinSpaces_fixed ws Hws) as [Hend Hhead].
  unfold trim. rewrite trimStart_fixed; [exact Hend|].
  by destruct (joinSpaces ws).
Qed.

Lemma cleanedQuery_trim q o :
  trim (cleanedQuery (extractTopics q o)) = cleanedQuery (extractTopics q o).
Proof.
  rewrite extractTopics_cleanedQuery. apply joinSpaces_trim, extractTopics_words.
Qed.

Lemma normalisedWords_blank q : trim q = EmptyString -> normalisedWords q = [].
Proof.
  intros Hblank%trim_empty. unfold normalisedWords, splitSpaces.
  pose proof (splitFrom_spaces _ false
                (blankOthers_spaces _ (toLowerCase_spaces _ Hblank))) as Hpieces.
  induction Hpieces as [|p ps -> _ IH]; [done|exact IH].
Qed.

Lemma cleanedQuery_blank q o :
  trim q = EmptyString -> cleanedQuery (extractTopics q o) = EmptyString.
Proof.
  intros Hblank. rewrite extractTopics_cleanedQuery, extractTopics_topics.
  rewrite (normalisedWords_blank _ Hblank). cbn.
  unfold sliceTo. destruct (_ <? 0); by rewrite take_nil.
Qed.

(** ** The fallback decision of the plan builder *)

Lemma length_zero s : (String.length s =? 0)%nat = true <-> s = EmptyString.
Proof. destruct s; cbn; split; congruence. Qed.

Lemma removalRatio_above s :
  negb (Qle_bool (removalRatio s) (4 # 10)) = true <-> (4 # 10 < specRatio s)%Q.
Proof.
  unfold removalRatio, specRatio.
  destruct (Nat.ltb_spec 0 (originalWordCount s)) as [Hpos|Hzero].
  - rewrite negb_true_iff, <- not_true_iff_false, Qle_bool_iff.
    split; [apply Qnot_le_lt|apply Qlt_not_le].
  - assert (originalWordCount s = 0%nat) as -> by lia.
    split; [discriminate|]. unfold Qlt, Qdiv, Qmult, Qinv.
    change (Z.of_nat 0) with 0. cbn. lia.
Qed.

Lemma removalRatio_atLeast s :
  Qle_bool (1 # 2) (removalRatio s) = true <-> (1 # 2 <= specRatio s)%Q.
Proof.
  unfold removalRatio, specRatio.
  destruct (Nat.ltb_spec 0 (originalWordCount s)) as [Hpos|Hzero].
  - apply Qle_bool_iff.
  - assert (originalWordCount s = 0%nat) as -> by lia.
    split; [discriminate|]. unfold Qle, Qdiv, Qmult, Qinv.
    change (Z.of_nat 0) with 0. cbn. lia.
Qed.

Lemma startsWithQuestionWord_spec q :
  startsWithQuestionWord (trim q) = true <-> questionWordThenSpace q.
Proof.
  unfold startsWithQuestionWord, questionWordThenSpace.
  rewrite existsb_exists. reflexivity.
Qed.

Lemma shouldFallbackToOriginal_spec q a :
  shouldFallbackToOriginal (trim q) a = true <-> fallbackCondition q a.
Proof.
  unfold shouldFallbackToOriginal, fallbackCondition.
  rewrite trim_idem.
  destruct (String.length (trim q) =? 0)%nat eqn:Hq.
  { apply length_zero in Hq. split; [|done]. intros _. by left. }
  destruct (String.length (trim (cleanedQuery a)) =? 0)%nat eqn:Hc.
  { apply length_zero in Hc. split; [|done]. intros _. right. by left. }
  assert (Hq' : trim q <> EmptyString).
  { intros Hempty%length_zero. congruence. }
  assert (Hc' : trim (cleanedQuery a) <> EmptyString).
  { intros Hempty%length_zero. congruence. }
  rewrite <- startsWithQuestionWord_spec, <- removalRatio_above, <- removalRatio_atLeast.
  rewrite <- Nat.leb_le.
  destruct (startsWithQuestionWord (trim q)),
    (negb (Qle_bool (removalRatio (stats a)) (4 # 10))),
    (finalWordCount (stats a) <=? 2)%nat,
    (Qle_bool (1 # 2) (removalRatio (stats a))); cbn;
    intuition congruence.
Qed.

Lemma shouldFallbackToOriginal_empty q a :
  (String.length (trim (cleanedQuery a)) =? 0)%nat = true ->
  shouldFallbackToOriginal (trim q) a = true.
Proof.
  intros Hc. unfold shouldFallbackToOriginal. rewrite Hc.
  by destruct (String.length (trim (trim q)) =? 0)%nat.
Qed.

Lemma buildSearchPlan_head q a found desired cap :
  head (buildSearchPlan q a found desired cap) =
  Some (if shouldFallbackToOriginal (trim q) a
           || (String.length (trim (cleanedQuery a)) =? 0)%nat
        then originalStep q
        else {| query := trim (cleanedQuery a);
                reason := latin1 "requête optimisée";
                optional := None; limit := None |}).
Proof.
  unfold buildSearchPlan.
  destruct (shouldFallbackToOriginal (trim q) a
            || (String.length (trim (cleanedQuery a)) =? 0)%nat);
    destruct (0 <? _); reflexivity.
Qed.

Lemma buildSearchPlan_first q a found desired cap :
  head (buildSearchPlan q a found desired cap) =
  Some (if shouldFallbackToOriginal (trim q) a then originalStep q else optimizedStep a).
Proof.
  rewrite buildSearchPlan_head.
  destruct (shouldFallbackToOriginal (trim q) a) eqn:Hfb; [done|].
  destruct (String.length (trim (cleanedQuery a)) =? 0)%nat eqn:Hc; [|done].
  rewrite (shouldFallbackToOriginal_empty q a Hc) in Hfb. discriminate.
Qed.

(** C5, as the code has it. For every original query and every topic
    analysis, the fallback decision is positive, and the plan starts
    with the trimmed original query as a step that is not optional,
    exactly when the trimmed query is empty, or the trimmed cleaned query
    is empty, or the trimmed query put in lower case starts with a
    question word followed by a space and more than 0.4 of the words were
    removed, or at most 2 topics are left and at least 0.5 of the words
    were removed; otherwise the plan starts with the trimmed cleaned
    query. For an analysis made by [extractTopics] the first two cases
    are the one case of an empty cleaned query. So it is for
    [pourquoi le ciel est bleu]: 2 topics are left, 3 words of 5 were
    removed, and the plan starts with the original query. *)
Theorem buildSearchPlan_fallback :
  (forall originalQuery analysis highRelevanceTopics desiredResults maxHighPriorityTopics,
     let plan := buildSearchPlan originalQuery analysis highRelevanceTopics
                                 desiredResults maxHighPriorityTopics in
     (shouldFallbackToOriginal (trim originalQuery) analysis = true
      <-> fallbackCondition originalQuery analysis) /\
     (head plan = Some (originalStep originalQuery)
      <-> fallbackCondition originalQuery analysis) /\
     (~ fallbackCondition originalQuery analysis ->
      head plan = Some (optimizedStep analysis))) /\
  (forall originalQuery options,
     let analysis := extractTopics originalQuery options in
     fallbackCondition originalQuery analysis
     <-> cleanedQuery analysis = EmptyString \/
         (questionWordThenSpace originalQuery /\
          (4 # 10 < specRatio (stats analysis))%Q) \/
         ((finalWordCount (stats analysis) <= 2)%nat /\
          (1 # 2 <= specRatio (stats analysis))%Q)) /\
  (forall highRelevanceTopics desiredResults maxHighPriorityTopics,
     let originalQuery := "pourquoi le ciel est bleu"%string in
     let analysis := extractTopics originalQuery (smartTopicOptions noOptions) in
     topics analysis = ["ciel"; "bleu"]%string /\
     (1 # 2 <= specRatio (stats analysis))%Q /\
     head (buildSearchPlan originalQuery analysis highRelevanceTopics
                           desiredResults maxHighPriorityTopics)
     = Some {| query := originalQuery;
               reason := latin1 "requête originale conservée";
               optional := None; limit := None |}).
Proof.
  split; [|split].
  - intros q a found desired cap plan. subst plan.
    pose proof (shouldFallbackToOriginal_spec q a) as Hspec.
    split; [exact Hspec|].
    rewrite buildSearchPlan_first. split; [split|].
    + destruct (shouldFallbackToOriginal (trim q) a); [intros _; by apply Hspec|].
      intros Hsame. discriminate Hsame.
    + intros Hcond%Hspec. by rewrite Hcond.
    + intros Hnot.
      destruct (shouldFallbackToOriginal (trim q) a); [|done].
      destruct Hnot. by apply Hspec.
  - intros q o analysis. subst analysis. unfold fallbackCondition.
    rewrite cleanedQuery_trim.
    pose proof (cleanedQuery_blank q o) as Hblank. tauto.
  - intros found desired cap originalQuery analysis.
    split; [by vm_compute|]. split; [by vm_compute|].
    subst originalQuery analysis. rewrite buildSearchPlan_head.
    by vm_compute.
Qed.

(** [comment le moteur de la voiture est construit]: the query starts
    with a question word and a space, and 5 of its 8 words are removed,
    so that the plan starts with the original query although 3 topics
    are left. [pourquoi, le grand ciel est bleu azur]: a comma follows
    the question word, 3 of the 7 words are removed and 4 topics are
    left, so that the plan starts with the cleaned query. *)
Lemma buildSearchPlan_fallback_witness :
  head (buildSearchPlan "comment le moteur de la voiture est construit"
          (extractTopics "comment le moteur de la voiture est construit" noOptions)
          [] 5 None)
  = Some (originalStep "comment le moteur de la voiture est construit") /\
  head (buildSearchPlan "pourquoi, le grand ciel est bleu azur"
          (extractTopics "pourquoi, le grand ciel est bleu azur"
                         (smartTopicOptions noOptions))
          [] 5 None)
  = Some (optimizedStep (extractTopics "pourquoi, le grand ciel est bleu azur"
                                       (smartTopicOptions noOptions))).
Proof.
  split.
  - apply (proj1 buildSearchPlan_fallback
             "comment le moteur de la voiture est construit"%string
             (extractTopics "comment le moteur de la voiture est construit" noOptions)
             [] 5 None).
    right. right. left. split.
    + exists "comment"%string. split; [by left|reflexivity].
    + vm_compute. reflexivity.
  - apply (proj1 buildSearchPlan_fallback
             "pourquoi, le grand ciel est bleu azur"%string
             (extractTopics "pourquoi, le grand ciel est bleu azur"
                            (smartTopicOptions noOptions))
             [] 5 None).
    intros Hcondition.
    apply (proj1 buildSearchPlan_fallback
             "pourquoi, le grand ciel est bleu azur"%string
             (extractTopics "pourquoi, le grand ciel est bleu azur"
                            (smartTopicOptions noOptions))
             [] 5 None) in Hcondition.
    vm_compute in Hcondition. discriminate.
Defined.

(** C5 as the specification words it fails: in
    [pourquoi, le grand ciel est bleu azur] the query starts with a
    question word and 3 of its 7 words are removed, more than 0.4, yet
    the plan starts with the cleaned query [grand ciel bleu azur],
    because a comma and not a space follows the question word. *)
Lemma fallbackAsWorded_counterexample : ~ fallbackAsWorded.
Proof.
  intros Hclaim.
  specialize (Hclaim "pourquoi, le grand ciel est bleu azur"%string
                (extractTopics "pourquoi, le grand ciel est bleu azur"
                               (smartTopicOptions noOptions))
                [] 5 None).
  destruct Hclaim as [_ Hclaim].
  assert (Hcases : fallbackCases "pourquoi, le grand ciel est bleu azur"
            (extractTopics "pourquoi, le grand ciel est bleu azur"
                           (smartTopicOptions noOptions))).
  { right. left. split.
    - exists "pourquoi"%string. split; [right; by left|reflexivity].
    - vm_compute. reflexivity. }
  apply Hclaim in Hcases. vm_compute in Hcases. discriminate.
Qed.

(** ** Extracting again from the cleaned query *)

Lemma isToken_facts t :
  isToken t = true ->
  toLowerCase t = t /\ dropOthers t = t /\ blankOthers t = t /\ startsUpper t = false.
Proof.
  intros [Hne Hchars]%andb_true_iff.
  assert (Hfixed : allChars lowerFixed t = true).
  { eapply allChars_impl; [|exact Hchars]. unfold isTokenChar.
    by intros c [[_ ?]%andb_true_iff _]%andb_true_iff. }
  assert (Hkept : allChars isKept t = true).
  { eapply allChars_impl; [|exact Hchars]. unfold isTokenChar.
    by intros c [[? _]%andb_true_iff _]%andb_true_iff. }
  repeat split.
  - by apply toLowerCase_fixed.
  - by apply dropOthers_kept.
  - by apply blankOthers_kept.
  - destruct t as [|c t]; [done|]. cbn in Hfixed |- *.
    apply andb_true_iff in Hfixed as [Hc _]. by apply lowerFixed_not_upper.
Qed.

Lemma topicFor_normal q p w :
  isToken w = true -> dropOthers (toLowerCase (topicFor q p w)) = w.
Proof.
  intros Hw. unfold topicFor.
  destruct (findOriginalWord q w) as [o|] eqn:Hfind.
  - apply find_some in Hfind as [_ Hmatch]. apply String.eqb_eq in Hmatch.
    destruct (p && nonEmpty o && startsUpper o); [exact Hmatch|].
    destruct (isToken_facts w Hw) as (-> & -> & _). done.
  - destruct (isToken_facts w Hw) as (-> & -> & _). done.
Qed.

Lemma topicFor_cases q p w :
  topicFor q p w = w \/ (p = true /\ startsUpper (topicFor q p w) = true).
Proof.
  unfold topicFor. destruct (findOriginalWord q w) as [o|]; [|by left].
  destruct (p && nonEmpty o && startsUpper o) eqn:Hcond; [|by left].
  right. apply andb_true_iff in Hcond as [[Hp _]%andb_true_iff Hup]. done.
Qed.

Lemma append_empty_r s : s +:+ EmptyString = s.
Proof. induction s as [|c s IH]; [done|]. by rewrite append_cons, IH. Qed.

Lemma splitSpaces_joinSpaces ws :
  Forall (fun t => isWord t = true) ws -> ws <> [] ->
  splitSpaces (joinSpaces ws) = ws.
Proof.
  unfold splitSpaces.
  induction 1 as [|w ws Hw Hws IH]; [done|]. intros _.
  pose proof Hw as [_ Hchars]%andb_true_iff.
  rewrite joinSpaces_cons. destruct ws as [|w' ws].
  - rewrite <- (append_empty_r w) at 1.
    rewrite splitFrom_word_append by done. cbn. by rewrite append_empty_r.
  - rewrite splitFrom_word_append by done.
    cbn [splitFrom]. change (isSpace space) with true. cbv iota.
    destruct (joinSpaces_fixed _ Hws) as [_ Hhead].
    rewrite splitFrom_flag.
    + rewrite IH by done. by rewrite append_empty_r.
    + destruct (joinSpaces (w' :: ws)); done.
Qed.

Lemma allChars_joinSpaces P ws :
  P space = true -> Forall (fun t => allChars P t = true) ws ->
  allChars P (joinSpaces ws) = true.
Proof.
  intros Hspace. induction 1 as [|w ws Hw Hws IH]; [done|].
  rewrite joinSpaces_cons. destruct ws; [done|].
  rewrite allChars_append, Hw. cbn [andb allChars]. by rewrite Hspace, IH.
Qed.

Lemma normalisedWords_joinSpaces ws :
  Forall (fun t => isToken t = true) ws -> normalisedWords (joinSpaces ws) = ws.
Proof.
  intros Hws. unfold normalisedWords.
  assert (Hfixed : allChars lowerFixed (joinSpaces ws) = true).
  { apply allChars_joinSpaces; [done|].
    eapply Forall_impl; [exact Hws|]. intros t [_ Ht]%andb_true_iff.
    eapply allChars_impl; [|exact Ht]. unfold isTokenChar.
    by intros c [[_ ?]%andb_true_iff _]%andb_true_iff. }
  assert (Hkept : allChars isKept (joinSpaces ws) = true).
  { apply allChars_joinSpaces; [done|].
    eapply Forall_impl; [exact Hws|]. intros t [_ Ht]%andb_true_iff.
    eapply allChars_impl; [|exact Ht]. unfold isTokenChar.
    by intros c [[? _]%andb_true_iff _]%andb_true_iff. }
  rewrite toLowerCase_fixed, blankOthers_kept by done.
  destruct ws as [|w ws]; [done|].
  rewrite splitSpaces_joinSpaces; [|by eapply Forall_impl;
                                       [exact Hws|apply isToken_isWord]|done].
  clear Hfixed Hkept. induction Hws as [|t ts Ht Hts IH]; [done|].
  cbn [List.filter]. apply andb_true_iff in Ht as [-> _]. by rewrite IH.
Qed.

(** The topics are tokens that were not dropped, as soon as none of them
    is an original word kept for its capital. *)
Lemma extractTopics_tokens q o :
  preserveCapitalized o = Some false \/
  Forall (fun t => startsUpper t = false) (topics (extractTopics q o)) ->
  Forall (fun t => isToken t = true /\
                   isDropped (default 2 (minWordLength o))
                     (buildStopWords (default both (language o))
                                     (default [] (customStopWords o))) t = false)
         (topics (extractTopics q o)).
Proof.
  intros Hplain. rewrite Forall_forall. intros t Ht.
  assert (Hup : default true (preserveCapitalized o) = false \/ startsUpper t = false).
  { destruct Hplain as [->|Hall]; [by left|right].
    rewrite Forall_forall in Hall. by apply Hall. }
  rewrite extractTopics_topics in Ht.
  eapply elem_of_sublist in Ht; [|apply sliceTo_sublist].
  apply list_elem_of_In, in_map_iff in Ht as (w & <- & Hw).
  apply filter_In in Hw as [Hw Hkeep]. apply negb_true_iff in Hkeep.
  apply in_map_iff in Hw as (w0 & <- & Hw0).
  pose proof (normalisedWords_tokens q) as Htokens.
  rewrite Forall_forall in Htokens.
  specialize (Htokens w0 ltac:(by apply list_elem_of_In)).
  rewrite (isWord_trim _ (isToken_isWord _ Htokens)) in *.
  destruct (topicFor_cases q (default true (preserveCapitalized o)) w0)
    as [Heq|[Hp Hupper]].
  - by rewrite Heq.
  - destruct Hup; congruence.
Qed.

Lemma map_trim_tokens ts :
  Forall (fun t => isToken t = true) ts -> map trim ts = ts.
Proof.
  induction 1 as [|t ts Ht Hts IH]; [done|].
  cbn [map]. by rewrite (isWord_trim _ (isToken_isWord _ Ht)), IH.
Qed.

Lemma filter_none_dropped (f : string -> bool) ts :
  Forall (fun t => f t = false) ts -> List.filter (fun w => negb (f w)) ts = ts.
Proof.
  induction 1 as [|t ts Ht Hts IH]; [done|].
  cbn [List.filter]. by rewrite Ht, IH.
Qed.

(** *** The words of a join *)

Lemma toLowerCase_append s t :
  toLowerCase (s +:+ t) = toLowerCase s +:+ toLowerCase t.
Proof.
  induction s as [|c s IH]; [by rewrite !append_empty_l|].
  rewrite append_cons. cbn [toLowerCase]. by rewrite append_cons, IH.
Qed.

Lemma blankOthers_append s t :
  blankOthers (s +:+ t) = blankOthers s +:+ blankOthers t.
Proof.
  induction s as [|c s IH]; [by rewrite !append_empty_l|].
  rewrite append_cons. cbn [blankOthers]. by rewrite append_cons, IH.
Qed.

Lemma append_length s t :
  String.length (s +:+ t) = (String.length s + String.length t)%nat.
Proof.
  induction s as [|c s IH]; [by rewrite append_empty_l|].
  rewrite append_cons. cbn [String.length]. by rewrite IH.
Qed.

(** The pieces that are not empty do not depend on the flag. *)
Lemma splitFrom_pieces_flag b s :
  List.filter nonEmpty (splitFrom b s) = List.filter nonEmpty (splitFrom false s).
Proof.
  destruct s as [|c s]; [done|]. cbn [splitFrom].
  destruct (isSpace c); [|done]. by destruct b.
Qed.

Lemma splitFrom_then_space u : forall v,
  exists p ps ps',
    splitFrom false u = p :: ps /\
    splitFrom false (u +:+ String space v) = p :: ps' /\
    List.filter nonEmpty ps'
    = List.filter nonEmpty ps ++ List.filter nonEmpty (splitFrom false v).
Proof.
  induction u as [|c u IH]; intros v.
  - rewrite append_empty_l. cbn [splitFrom]. change (isSpace space) with true. cbv iota.
    exists EmptyString, [], (splitFrom true v).
    split; [done|]. split; [done|]. apply splitFrom_pieces_flag.
  - rewrite append_cons. cbn [splitFrom].
    destruct (IH v) as (p & ps & ps' & Hu & Huv & Hpieces).
    destruct (isSpace c).
    + exists EmptyString, (splitFrom true u), (splitFrom true (u +:+ String space v)).
      split; [done|]. split; [done|].
      rewrite (splitFrom_pieces_flag true u),
        (splitFrom_pieces_flag true (u +:+ String space v)), Hu, Huv.
      cbn [List.filter]. destruct (nonEmpty p); cbn [app]; by rewrite Hpieces.
    + rewrite Hu, Huv. by exists (String c p), ps, ps'.
Qed.

Lemma normalisedWords_append u v :
  normalisedWords (u +:+ String space v) = normalisedWords u ++ normalisedWords v.
Proof.
  unfold normalisedWords, splitSpaces.
  rewrite toLowerCase_append, blankOthers_append.
  cbn [toLowerCase blankOthers].
  change (toLowerChar space) with space.
  change (if isKept space then space else space) with space.
  destruct (splitFrom_then_space (blankOthers (toLowerCase u))
              (blankOthers (toLowerCase v)))
    as (p & ps & ps' & -> & -> & Hpieces).
  cbn [List.filter]. destruct (nonEmpty p); cbn [app]; by rewrite Hpieces.
Qed.

(** The words of a join are the words of each of its parts. *)
Lemma normalisedWords_join ts :
  normalisedWords (joinSpaces ts) = concat (map normalisedWords ts).
Proof.
  induction ts as [|t ts IH]; [reflexivity|].
  rewrite joinSpaces_cons. destruct ts as [|t' ts].
  - cbn [map concat]. by rewrite app_nil_r.
  - rewrite normalisedWords_append, IH. reflexivity.
Qed.

(** The words of a word put end to end are what is left of it once the
    other characters are dropped. *)
Lemma splitFrom_dropOthers s : forall b,
  allChars notSpace s = true ->
  foldr String.append EmptyString (splitFrom b (blankOthers s)) = dropOthers s.
Proof.
  induction s as [|c s IH]; intros b; [done|].
  cbn [allChars blankOthers dropOthers].
  intros [Hc Hs]%andb_true_iff. unfold notSpace in Hc. apply negb_true_iff in Hc.
  destruct (isKept c).
  - cbn [splitFrom]. rewrite Hc. specialize (IH false Hs).
    destruct (splitFrom false (blankOthers s)) as [|p ps] eqn:Hsplit;
      [by apply splitFrom_not_nil in Hsplit|].
    cbn [foldr] in *. by rewrite append_cons, IH.
  - cbn [splitFrom]. change (isSpace space) with true. cbv iota.
    destruct b; [by apply IH|].
    cbn [foldr]. rewrite append_empty_l. by apply IH.
Qed.

Lemma foldr_append_pieces l :
  foldr String.append EmptyString (List.filter nonEmpty l)
  = foldr String.append EmptyString l.
Proof.
  induction l as [|p l IH]; [done|]. cbn [List.filter foldr].
  destruct p as [|c p]; cbn [nonEmpty foldr]; [by rewrite append_empty_l|].
  by rewrite IH.
Qed.

Lemma toLowerCase_word t :
  allChars notSpace t = true -> allChars notSpace (toLowerCase t) = true.
Proof.
  induction t as [|c t IH]; [done|]. cbn [allChars toLowerCase].
  intros [Hc Ht]%andb_true_iff. unfold notSpace in *.
  by rewrite toLowerChar_isSpace, Hc, IH.
Qed.

Lemma normalisedWords_word t :
  isWord t = true ->
  foldr String.append EmptyString (normalisedWords t) = dropOthers (toLowerCase t).
Proof.
  intros [_ Ht]%andb_true_iff. unfold normalisedWords, splitSpaces.
  rewrite foldr_append_pieces. by apply splitFrom_dropOthers, toLowerCase_word.
Qed.

Lemma piece_length l : forall w,
  Forall (fun p => nonEmpty p = true) l -> w ∈ l ->
  (String.length w + (length l - 1)
   <= String.length (foldr String.append EmptyString l))%nat.
Proof.
  induction l as [|p l IH]; intros w Hall Hw; [by apply elem_of_nil in Hw|].
  apply Forall_cons in Hall as [Hp Hall]. cbn [foldr length]. rewrite append_length.
  apply elem_of_cons in Hw as [->|Hw].
  - assert (length l <= String.length (foldr String.append EmptyString l))%nat; [|lia].
    clear IH. induction Hall as [|x l Hx _ IHl]; [cbn; lia|].
    cbn [foldr length]. rewrite append_length. destruct x; [done|]. cbn [String.length]. lia.
  - specialize (IH w Hall Hw). destruct p; [done|]. cbn [String.length].
    destruct l; [by apply elem_of_nil in Hw|]. cbn [length] in *. lia.
Qed.

(** A word that is not one word once normalised falls into pieces that
    are all shorter than what is left of it without its punctuation. *)
Lemma normalisedWords_shorter t w :
  isWord t = true -> ~ oneWord t -> w ∈ normalisedWords t ->
  (String.length w < String.length (dropOthers (toLowerCase t)))%nat.
Proof.
  intros Ht Hmany Hw.
  pose proof (normalisedWords_word t Ht) as Hjoin.
  assert (Hall : Forall (fun p => nonEmpty p = true) (normalisedWords t)).
  { apply Forall_forall. by intros p [_ ?]%list_elem_of_In%filter_In. }
  pose proof (piece_length _ w Hall Hw) as Hlength. rewrite Hjoin in Hlength.
  unfold oneWord in Hmany.
  destruct (normalisedWords t) as [|p [|p' l]] eqn:Hpieces.
  - by apply elem_of_nil in Hw.
  - cbn [foldr] in Hjoin. rewrite append_empty_r in Hjoin. by subst p.
  - apply Forall_cons in Hall as [_ [Hp' _]%Forall_cons].
    cbn [length] in Hlength. lia.
Qed.

(** *** The topics and their words *)

(** Every topic is made of a word of the query that passed both tests,
    and gives that word back when it is normalised. *)
Lemma extractTopics_topic_of q o t :
  t ∈ topics (extractTopics q o) ->
  exists w, w ∈ normalisedWords q /\ isToken w = true /\
            t = topicFor q (default true (preserveCapitalized o)) w /\
            dropOthers (toLowerCase t) = w.
Proof.
  rewrite extractTopics_topics. intros Ht.
  eapply elem_of_sublist in Ht; [|apply sliceTo_sublist].
  apply list_elem_of_In, in_map_iff in Ht as (w & <- & Hw).
  apply filter_In in Hw as [Hw _].
  rewrite (map_trim_tokens _ (normalisedWords_tokens q)) in Hw.
  pose proof (normalisedWords_tokens q) as Htokens.
  rewrite Forall_forall in Htokens.
  exists w. split; [by apply list_elem_of_In|].
  split; [by apply Htokens, list_elem_of_In|]. split; [done|].
  by apply topicFor_normal, Htokens, list_elem_of_In.
Qed.

Lemma sliceTo_map {A B} (f : A -> B) n l : sliceTo n (map f l) = map f (sliceTo n l).
Proof.
  unfold sliceTo. rewrite length_map.
  destruct (n <? 0); symmetry; apply (fmap_take f).
Qed.

Lemma concat_oneWord ts :
  Forall oneWord ts ->
  concat (map normalisedWords ts) = map (fun t => dropOthers (toLowerCase t)) ts.
Proof.
  induction 1 as [|t ts Ht _ IH]; [done|].
  cbn [map concat]. rewrite Ht, IH. reflexivity.
Qed.

Lemma map_topicFor_normal q p ws :
  Forall (fun w => isToken w = true) ws ->
  map (fun t => dropOthers (toLowerCase t)) (map (topicFor q p) ws) = ws.
Proof.
  induction 1 as [|w ws Hw _ IH]; [done|].
  cbn [map]. by rewrite (topicFor_normal q p w Hw), IH.
Qed.

Lemma find_topicFor q p w ws :
  Forall (fun w => isToken w = true) ws -> w ∈ ws ->
  List.find (fun o => String.eqb (dropOthers (toLowerCase o)) w) (map (topicFor q p) ws)
  = Some (topicFor q p w).
Proof.
  induction 1 as [|x ws Hx _ IH]; intros Hw; [by apply elem_of_nil in Hw|].
  cbn [map List.find]. rewrite (topicFor_normal q p x Hx).
  destruct (String.eqb_spec x w) as [->|Hother]; [done|].
  apply elem_of_cons in Hw as [->|Hw]; [done|]. by apply IH.
Qed.

(** In the join of the topics made of some words, each of the words
    finds its own topic again. *)
Lemma topicFor_join q p ws w :
  Forall (fun w => isToken w = true) ws -> w ∈ ws ->
  topicFor (joinSpaces (map (topicFor q p) ws)) p w = topicFor q p w.
Proof.
  intros Hws Hw.
  assert (Hwords : Forall (fun t => isWord t = true) (map (topicFor q p) ws)).
  { apply Forall_map. eapply Forall_impl; [exact Hws|].
    intros x Hx. by apply topicFor_word, isToken_isWord. }
  unfold topicFor at 1. unfold findOriginalWord.
  rewrite splitSpaces_joinSpaces; [|exact Hwords|].
  2: { destruct ws; [by apply elem_of_nil in Hw|done]. }
  rewrite (find_topicFor q p w ws Hws Hw).
  destruct (topicFor_cases q p w) as [Hsame|[-> Hupper]].
  - rewrite Hsame. by destruct (p && nonEmpty w && startsUpper w).
  - rewrite Hupper. by destruct (topicFor q true w).
Qed.

(** The topics are in number bounded, so that no chain of topics with
    longer and longer words goes on for ever. *)
Lemma no_endless_climb (ts : list string) (size : string -> nat) (P : string -> Prop) :
  (forall t, t ∈ ts -> P t -> exists t', t' ∈ ts /\ P t' /\ (size t < size t')%nat) ->
  forall t, t ∈ ts -> P t -> False.
Proof.
  intros Hclimb.
  assert (Hbound : forall t, t ∈ ts -> (size t <= max_list (size <$> ts))%nat).
  { intros t Ht. apply max_list_elem_of_le, list_elem_of_fmap. by exists t. }
  assert (Hall : forall n t, t ∈ ts -> P t ->
                   (max_list (size <$> ts) - size t < n)%nat -> False).
  { induction n as [|n IH]; intros t Ht HP Hn; [lia|].
    destruct (Hclimb t Ht HP) as (t' & Ht' & HP' & Hlonger).
    apply (IH t' Ht' HP'). pose proof (Hbound t' Ht'). lia. }
  intros t Ht HP.
  apply (Hall (S (max_list (size <$> ts) - size t)) t Ht HP). lia.
Qed.

(** C8, as the code has it. For every query and every option set,
    extracting again from the cleaned query with the same options gives
    the same topics, in the same order, when [maxTopics >= 0] and every
    topic of the first extraction is one word once normalised on its
    own; it gives another set of topics when some topic is not. Every
    topic is one word when [preserveCapitalized] is off. *)
Theorem extractTopics_reextraction (query : string) (options : TopicExtractionOptions) :
  let first := extractTopics query options in
  let second := extractTopics (cleanedQuery first) options in
  (0 <= default 10 (maxTopics options) ->
   Forall oneWord (topics first) ->
   topics second = topics first) /\
  (Exists (fun t => ~ oneWord t) (topics first) ->
   (list_to_set (topics second) : gset string) <> list_to_set (topics first)) /\
  (preserveCapitalized options = Some false -> Forall oneWord (topics first)).
Proof.
  cbv zeta. split; [|split].
  - intros Hmax Hone.
    set (p := default true (preserveCapitalized options)).
    set (dropped := isDropped (default 2 (minWordLength options))
                      (buildStopWords (default both (language options))
                                      (default [] (customStopWords options)))).
    set (accepted := List.filter (fun w => negb (dropped w))
                       (map trim (normalisedWords query))).
    set (ws := sliceTo (default 10 (maxTopics options)) accepted).
    assert (Hfirst : topics (extractTopics query options) = map (topicFor query p) ws).
    { rewrite extractTopics_topics. apply sliceTo_map. }
    assert (Hws : Forall (fun w => isToken w = true /\ dropped w = false) ws).
    { apply Forall_sliceTo, Forall_forall.
      intros w [Hw Hkept]%list_elem_of_In%filter_In.
      rewrite (map_trim_tokens _ (normalisedWords_tokens query)) in Hw.
      pose proof (normalisedWords_tokens query) as Htokens.
      rewrite Forall_forall in Htokens.
      split; [by apply Htokens, list_elem_of_In|by apply negb_true_iff]. }
    assert (Htokens : Forall (fun w => isToken w = true) ws)
      by (eapply Forall_impl; [exact Hws|]; by intros w [? _]).
    assert (Hkept : Forall (fun w => dropped w = false) ws)
      by (eapply Forall_impl; [exact Hws|]; by intros w [_ ?]).
    rewrite extractTopics_cleanedQuery.
    rewrite (extractTopics_topics (joinSpaces _)).
    rewrite Hfirst in Hone |- *.
    rewrite normalisedWords_join, (concat_oneWord _ Hone), map_topicFor_normal by done.
    rewrite map_trim_tokens by done.
    fold dropped. rewrite filter_none_dropped by done. fold p.
    assert (Hsame : map (topicFor (joinSpaces (map (topicFor query p) ws)) p) ws
                    = map (topicFor query p) ws).
    { apply map_ext_in. intros w Hw%list_elem_of_In. by apply topicFor_join. }
    rewrite Hsame, sliceTo_map. f_equal.
    subst ws. rewrite !sliceTo_take by done. rewrite take_take. f_equal. lia.
  - intros Hsome Hsets.
    apply Exists_exists in Hsome as (t & Ht & Hmany).
    apply (no_endless_climb (topics (extractTopics query options))
             (fun t => String.length (dropOthers (toLowerCase t)))
             (fun t => ~ oneWord t)) with t; [|done|done].
    clear t Ht Hmany. intros t Ht Hmany.
    assert (Hagain : t ∈ topics (extractTopics
                                   (cleanedQuery (extractTopics query options)) options)).
    { apply (elem_of_list_to_set (C := gset string)). rewrite Hsets.
      by apply elem_of_list_to_set. }
    apply extractTopics_topic_of in Hagain as (w & Hw & _ & _ & Hnormal).
    rewrite extractTopics_cleanedQuery, normalisedWords_join in Hw.
    apply list_elem_of_In, in_concat in Hw as (pieces & Hpieces & Hw).
    apply in_map_iff in Hpieces as (t' & <- & Ht'%list_elem_of_In).
    apply list_elem_of_In in Hw.
    pose proof (extractTopics_words query options) as Hwords.
    rewrite Forall_forall in Hwords.
    destruct (decide (normalisedWords t' = [dropOthers (toLowerCase t')])) as [Hone|Hmany'].
    + rewrite Hone in Hw. apply list_elem_of_singleton in Hw.
      apply extractTopics_topic_of in Ht as (w1 & _ & _ & Ht & Hn1).
      apply extractTopics_topic_of in Ht' as (w2 & _ & _ & Ht' & Hn2).
      assert (Hsame : t' = t) by congruence.
      exfalso. apply Hmany. unfold oneWord. by rewrite <- Hsame.
    + exists t'. split; [done|]. split; [done|]. rewrite Hnormal.
      by apply normalisedWords_shorter; [apply Hwords|..].
  - intros Hplain.
    pose proof (extractTopics_tokens query options (or_introl Hplain)) as Htokens.
    eapply Forall_impl; [exact Htokens|]. intros t [Ht _]. unfold oneWord.
    destruct (isToken_facts t Ht) as (-> & -> & _).
    by apply (normalisedWords_joinSpaces [t]), Forall_singleton.
Qed.

(** [Python, Rust] has the topics [Python,] and [Rust], one word each
    once normalised, and so has its cleaned query. [Node.js nodejs] has
    the topic [Node.js], which falls into two words, and the topics of
    its cleaned query are not the same set. *)
Lemma extractTopics_reextraction_witness :
  topics (extractTopics (cleanedQuery (extractTopics "Python, Rust" noOptions)) noOptions)
  = topics (extractTopics "Python, Rust" noOptions) /\
  (list_to_set
     (topics (extractTopics (cleanedQuery (extractTopics "Node.js nodejs" noOptions))
                            noOptions)) : gset string)
  <> list_to_set (topics (extractTopics "Node.js nodejs" noOptions)).
Proof.
  split.
  - apply (extractTopics_reextraction "Python, Rust" noOptions).
    + vm_compute. discriminate.
    + assert (topics (extractTopics "Python, Rust" noOptions)
              = ["Python,"; "Rust"]%string) as -> by (vm_compute; reflexivity).
      repeat constructor; vm_compute; reflexivity.
  - apply (extractTopics_reextraction "Node.js nodejs" noOptions).
    assert (topics (extractTopics "Node.js nodejs" noOptions)
            = ["node"; "js"; "Node.js"]%string) as -> by (vm_compute; reflexivity).
    do 2 apply Exists_cons_tl. apply Exists_cons_hd. vm_compute. discriminate.
Defined.

(** With a negative [maxTopics] the cut of [slice] is made again at each
    extraction: [alpha beta gamma] cut by one gives [alpha] and [beta],
    and its cleaned query gives [alpha] alone. *)
Lemma extractTopics_reextraction_negative :
  topics (extractTopics "alpha beta gamma" Scripted.allButLast)
  = ["alpha"; "beta"]%string /\
  topics (extractTopics
            (cleanedQuery (extractTopics "alpha beta gamma" Scripted.allButLast))
            Scripted.allButLast)
  = ["alpha"]%string.
Proof. split; vm_compute; reflexivity. Qed.

(** C8 as the specification words it fails: [Node.js nodejs] has the
    topics [node], [js] and [Node.js], and its cleaned query
    [node js Node.js] has the topics [node] and [js] only. *)
Lemma reextractionIdempotent_counterexample : ~ reextractionIdempotent.
Proof.
  intros Hclaim. specialize (Hclaim "Node.js nodejs"%string noOptions).
  cbv zeta in Hclaim.
  assert (Hfirst : topics (extractTopics "Node.js nodejs" noOptions)
                   = ["node"; "js"; "Node.js"]%string) by (vm_compute; reflexivity).
  assert (Hsecond : topics (extractTopics
                              (cleanedQuery (extractTopics "Node.js nodejs" noOptions))
                              noOptions)
                    = ["node"; "js"; "node"; "js"]%string) by (vm_compute; reflexivity).
  rewrite Hfirst, Hsecond in Hclaim.
  assert (Hin : "Node.js"%string
                ∈ (list_to_set ["node"; "js"; "Node.js"]%string : gset string)).
  { apply elem_of_list_to_set. do 2 apply list_elem_of_further. apply list_elem_of_here. }
  rewrite <- Hclaim in Hin.
  apply elem_of_list_to_set, list_elem_of_In in Hin.
  cbn in Hin. intuition discriminate.
Qed.

(** * Further properties of the code *)

Import Behaviour.

(** ** [extractTopics]: where the words go *)

Lemma extractTopics_removedWords q o :
  removedWords (extractTopics q o) =
  List.filter
    (isDropped (default 2 (minWordLength o))
       (buildStopWords (default both (language o)) (default [] (customStopWords o))))
    (map trim (normalisedWords q)).
Proof. unfold extractTopics. rewrite foldl_processWord. reflexivity. Qed.

Lemma extractTopics_stats q o :
  stats (extractTopics q o) =
  {| originalWordCount := length (normalisedWords q);
     finalWordCount := length (topics (extractTopics q o));
     stopWordsRemoved := length (removedWords (extractTopics q o)) |}.
Proof. unfold extractTopics. by destruct (foldl _ _ _). Qed.

Lemma filter_split_length {A} (f : A -> bool) l :
  (length (List.filter f l) + length (List.filter (fun x => negb (f x)) l))%nat
  = length l.
Proof.
  induction l as [|x l IH]; [done|]. cbn [List.filter].
  destruct (f x); cbn [negb length]; lia.
Qed.

(** X1. Every word of the query is either removed or accepted as a topic, so
    the topics left after the cap and the removed words are never more
    than the words of the query, and they are all of them when the cap
    was not reached. *)
Theorem extractTopics_word_accounting (query : string) (options : TopicExtractionOptions) :
  let s := stats (extractTopics query options) in
  (finalWordCount s + stopWordsRemoved s <= originalWordCount s)%nat /\
  (Z.of_nat (finalWordCount s) < default 10 (maxTopics options) ->
   (finalWordCount s + stopWordsRemoved s = originalWordCount s)%nat).
Proof.
  cbv zeta. rewrite extractTopics_stats. cbn [finalWordCount stopWordsRemoved originalWordCount].
  rewrite extractTopics_removedWords, extractTopics_topics.
  set (dropped := isDropped _ _).
  set (words := map trim (normalisedWords query)).
  set (accepted := map _ (List.filter _ words)).
  assert (Hall : (length accepted + length (List.filter dropped words))%nat
                 = length (normalisedWords query)).
  { subst accepted. rewrite length_map.
    rewrite Nat.add_comm, filter_split_length. subst words. by rewrite length_map. }
  split.
  - pose proof (sublist_length _ _ (sliceTo_sublist (default 10 (maxTopics options)) accepted)).
    lia.
  - intros Hcap. unfold sliceTo in *.
    destruct (Z.ltb_spec (default 10 (maxTopics options)) 0); [lia|].
    rewrite length_take in Hcap. rewrite take_ge by lia. exact Hall.
Qed.

Lemma extractTopics_word_accounting_witness :
  (finalWordCount (stats (extractTopics "le chat et la souris" noOptions))
   + stopWordsRemoved (stats (extractTopics "le chat et la souris" noOptions))
   = originalWordCount (stats (extractTopics "le chat et la souris" noOptions)))%nat.
Proof.
  apply (extractTopics_word_accounting "le chat et la souris" noOptions).
  vm_compute. reflexivity.
Defined.

(** ** [extractTopics]: what a topic is *)

(** X2. Every topic, once put in lower case and stripped of its punctuation,
    is a word that passes both tests of the extractor: it is at least
    [minWordLength] long and is not a stop word. Every removed word fails
    one of them. *)
Theorem extractTopics_topics_pass (query : string) (options : TopicExtractionOptions) :
  let stopWords := buildStopWords (default both (language options))
                                  (default [] (customStopWords options)) in
  let minLength := default 2 (minWordLength options) in
  Forall (fun t =>
            minLength <= Z.of_nat (String.length (dropOthers (toLowerCase t))) /\
            dropOthers (toLowerCase t) ∉ stopWords)
         (topics (extractTopics query options)) /\
  Forall (fun w => Z.of_nat (String.length w) < minLength \/ w ∈ stopWords)
         (removedWords (extractTopics query options)).
Proof.
  cbv zeta. split.
  - rewrite extractTopics_topics.
    apply Forall_sliceTo, Forall_map, Forall_forall.
    intros w [Hw Hkeep]%list_elem_of_In%filter_In.
    apply negb_true_iff in Hkeep.
    apply in_map_iff in Hw as (w0 & <- & Hw0).
    pose proof (normalisedWords_tokens query) as Htokens.
    rewrite Forall_forall in Htokens.
    specialize (Htokens w0 ltac:(by apply list_elem_of_In)).
    rewrite (isWord_trim _ (isToken_isWord _ Htokens)) in *.
    rewrite (topicFor_normal _ _ _ Htokens).
    unfold isDropped in Hkeep. apply orb_false_iff in Hkeep as [Hlen Hstop].
    apply Z.ltb_ge in Hlen. apply bool_decide_eq_false in Hstop. done.
  - rewrite extractTopics_removedWords. apply Forall_forall.
    intros w [_ Hdrop]%list_elem_of_In%filter_In.
    unfold isDropped in Hdrop. apply orb_true_iff in Hdrop as [Hlen|Hstop].
    + left. by apply Z.ltb_lt.
    + right. by apply bool_decide_eq_true in Hstop.
Qed.

(** ** [extractTopics]: queries made of stop words, and the case of letters *)

Lemma filter_all_dropped (f : string -> bool) ts :
  Forall (fun t => f t = true) ts ->
  List.filter (fun w => negb (f w)) ts = [] /\ List.filter f ts = ts.
Proof.
  induction 1 as [|w ws Hw _ [IH1 IH2]]; [done|]. cbn [List.filter].
  rewrite Hw. cbn [negb]. by rewrite IH1, IH2.
Qed.

(** X3. When every word of the query is too short or a stop word, no topic is
    left, the cleaned query is empty, every word is reported as removed,
    and the plan built from the analysis is the trimmed original query
    alone. *)
Theorem extractTopics_only_stop_words (query : string) (options : TopicExtractionOptions) :
  Forall (fun w =>
            Z.of_nat (String.length w) < default 2 (minWordLength options) \/
            w ∈ buildStopWords (default both (language options))
                               (default [] (customStopWords options)))
         (normalisedWords query) ->
  topics (extractTopics query options) = [] /\
  cleanedQuery (extractTopics query options) = EmptyString /\
  removedWords (extractTopics query options) = normalisedWords query /\
  forall desiredResults maxHighPriorityTopics,
    buildSearchPlan query (extractTopics query options) [] desiredResults
                    maxHighPriorityTopics
    = [originalStep query].
Proof.
  intros Hall.
  set (dropped := isDropped (default 2 (minWordLength options))
                    (buildStopWords (default both (language options))
                                    (default [] (customStopWords options)))).
  assert (Hdropped : Forall (fun w => dropped w = true) (normalisedWords query)).
  { eapply Forall_impl; [exact Hall|]. intros w [Hlen|Hstop]; unfold dropped, isDropped.
    - apply orb_true_iff. left. by apply Z.ltb_lt.
    - apply orb_true_iff. right. by apply bool_decide_eq_true. }
  assert (Htopics : topics (extractTopics query options) = []).
  { rewrite extractTopics_topics, (map_trim_tokens _ (normalisedWords_tokens query)).
    fold dropped.
    rewrite (proj1 (filter_all_dropped _ _ Hdropped)).
    unfold sliceTo. cbn [map]. destruct (_ <? 0); [|by rewrite take_nil].
    by rewrite take_nil. }
  assert (Hclean : cleanedQuery (extractTopics query options) = EmptyString).
  { by rewrite extractTopics_cleanedQuery, Htopics. }
  split; [exact Htopics|]. split; [exact Hclean|]. split.
  - rewrite extractTopics_removedWords, (map_trim_tokens _ (normalisedWords_tokens query)).
    fold dropped. apply (proj2 (filter_all_dropped _ _ Hdropped)).
  - intros desiredResults cap. unfold buildSearchPlan. rewrite Hclean.
    change (trim EmptyString) with EmptyString.
    change (String.length EmptyString) with 0%nat.
    cbn [Nat.eqb Nat.ltb Nat.leb andb]. rewrite orb_true_r.
    cbn [List.filter]. unfold originalStep.
    destruct (0 <? Z.max 0 (default 2 cap)); [|reflexivity].
    unfold sliceTo. destruct (_ <? 0); by rewrite take_nil.
Qed.

Lemma extractTopics_only_stop_words_witness :
  topics (extractTopics "le les" noOptions) = [] /\
  cleanedQuery (extractTopics "le les" noOptions) = EmptyString /\
  removedWords (extractTopics "le les" noOptions) = normalisedWords "le les" /\
  forall desiredResults maxHighPriorityTopics,
    buildSearchPlan "le les" (extractTopics "le les" noOptions) [] desiredResults
                    maxHighPriorityTopics
    = [originalStep "le les"].
Proof.
  apply (extractTopics_only_stop_words "le les" noOptions).
  assert (normalisedWords "le les" = ["le"; "les"]) as ->
    by (vm_compute; reflexivity).
  repeat (constructor; [right; apply (bool_decide_unpack _); vm_compute; exact I|]).
  constructor.
Defined.

Lemma topicFor_plain q w : topicFor q false w = w.
Proof. unfold topicFor. by destruct (findOriginalWord q w). Qed.

(** X4. Without [preserveCapitalized], the case of the letters of the query
    plays no part: two queries that differ only by it get the same
    analysis. *)
Theorem extractTopics_ignores_case (query1 query2 : string)
    (options : TopicExtractionOptions) :
  preserveCapitalized options = Some false ->
  toLowerCase query1 = toLowerCase query2 ->
  extractTopics query1 options = extractTopics query2 options.
Proof.
  intros Hplain Hsame. unfold extractTopics.
  assert (Hwords : normalisedWords query1 = normalisedWords query2).
  { unfold normalisedWords. by rewrite Hsame. }
  rewrite !foldl_processWord, Hplain, Hwords. cbn [default].
  rewrite !(map_ext _ _ (topicFor_plain _)), !map_id.
  reflexivity.
Qed.

Lemma extractTopics_ignores_case_witness :
  extractTopics "Moteur Diesel" Scripted.lowerCaseOnly
  = extractTopics "moteur diesel" Scripted.lowerCaseOnly.
Proof.
  apply extractTopics_ignores_case; [reflexivity | vm_compute; reflexivity].
Defined.

(** ** [generateSearchVariants] *)

Lemma uniqueInOrder_foldl (l : list string) : forall kept,
  NoDup kept ->
  let r := foldl (fun kept x => if bool_decide (x ∈ kept) then kept else kept ++ [x])
                 kept l in
  NoDup r /\ (forall x, x ∈ r <-> x ∈ kept \/ x ∈ l) /\ kept `prefix_of` r.
Proof.
  induction l as [|y l IH]; intros kept Hkept; cbn [foldl].
  - split; [done|]. split; [|done]. intros x. rewrite elem_of_nil. tauto.
  - destruct (bool_decide_reflect (y ∈ kept)) as [Hin|Hout].
    + destruct (IH kept Hkept) as (Hnd & Hel & Hpre).
      split; [done|]. split; [|done].
      intros x. rewrite Hel, elem_of_cons. split; [tauto|].
      intros [?|[->|?]]; tauto.
    + assert (Hkept' : NoDup (kept ++ [y])).
      { apply NoDup_app. split; [done|]. split; [|apply NoDup_singleton].
        intros x Hx ->%list_elem_of_singleton. done. }
      destruct (IH _ Hkept') as (Hnd & Hel & Hpre).
      split; [done|]. split.
      * intros x. rewrite Hel, elem_of_app, list_elem_of_singleton, elem_of_cons. tauto.
      * etrans; [|exact Hpre]. by apply prefix_app_r.
Qed.

Lemma pairVariants_elem (topics : list string) x :
  x ∈ pairVariants topics ->
  exists a b, x = a +:+ " " +:+ b /\ a ∈ topics /\ b ∈ topics.
Proof.
  induction topics as [|t rest IH]; cbn [pairVariants]; [by intros ?%elem_of_nil|].
  rewrite elem_of_app. intros [Hx|Hx].
  - apply list_elem_of_In, in_map_iff in Hx as (u & <- & Hu%list_elem_of_In).
    exists t, u. split; [done|]. split; [left|by right].
  - destruct (IH Hx) as (a & b & -> & Ha & Hb).
    exists a, b. split; [done|]. split; by right.
Qed.

(** X5. At most five variants are made, all different; the first is all the
    topics joined by spaces; and each is that join, two topics joined by a
    space, or one topic of more than four characters. No topic gives no
    variant. *)
Theorem generateSearchVariants_shape (topics : list string) :
  let variants := generateSearchVariants topics in
  (length variants <= 5)%nat /\
  NoDup variants /\
  head variants = match topics with [] => None | _ => Some (joinSpaces topics) end /\
  Forall (fun v =>
            v = joinSpaces topics \/
            (exists a b, v = a +:+ " " +:+ b /\ a ∈ topics /\ b ∈ topics) \/
            (v ∈ topics /\ (4 < String.length v)%nat))
         variants.
Proof.
  cbv zeta. unfold generateSearchVariants.
  destruct topics as [|t rest].
  { cbn. split; [lia|]. split; [constructor|]. split; [done|constructor]. }
  set (all := t :: rest). replace (length all =? 0)%nat with false by reflexivity.
  set (variants := (_ ++ List.filter _ all)).
  destruct (uniqueInOrder_foldl variants [] (NoDup_nil_2)) as (Hnd & Hel & _).
  fold (uniqueInOrder variants) in Hnd, Hel.
  assert (Hhead : head (uniqueInOrder variants) = Some (joinSpaces all)).
  { assert (Hcons : exists more, variants = joinSpaces all :: more).
    { subst variants. destruct (2 <? length all)%nat; eexists; reflexivity. }
    destruct Hcons as [more ->]. unfold uniqueInOrder. cbn [foldl].
    rewrite bool_decide_eq_false_2 by apply not_elem_of_nil.
    destruct (uniqueInOrder_foldl more ([] ++ [joinSpaces all])) as (_ & _ & [k ->]).
    { apply NoDup_singleton. }
    reflexivity. }
  rewrite sliceTo_take by lia. change (Z.to_nat 5) with 5%nat.
  split; [rewrite length_take; lia|].
  split; [eapply sublist_NoDup; [exact Hnd|apply sublist_take]|].
  split.
  - destruct (uniqueInOrder variants); [done|]. exact Hhead.
  - apply Forall_forall. intros v Hv.
    eapply elem_of_sublist in Hv; [|apply sublist_take].
    apply Hel in Hv as [Hv|Hv]; [by apply elem_of_nil in Hv|].
    subst variants. apply elem_of_app in Hv as [Hv|Hv].
    + assert (Hfirst : v ∈ [joinSpaces all] ++ pairVariants all).
      { destruct (2 <? length all)%nat; [done|]. apply elem_of_app. by left. }
      apply elem_of_app in Hfirst as [->%list_elem_of_singleton|Hpair]; [by left|].
      right. left. by apply pairVariants_elem.
    + apply list_elem_of_In, filter_In in Hv as [Hv%list_elem_of_In Hlen].
      right. right. split; [done|]. by apply Nat.ltb_lt in Hlen.
Qed.

(** ** [analyzeTopicRelevance]: the categories in the output *)

Lemma filter_all_false {A} (f : A -> bool) l :
  Forall (fun a => f a = false) l ->
  List.filter f l = [] /\ List.filter (fun a => negb (f a)) l = l.
Proof.
  induction 1 as [|x l Hx _ [IH1 IH2]]; [done|]. cbn [List.filter].
  rewrite Hx. cbn [negb]. by rewrite IH1, IH2.
Qed.

Section Threshold.
Context {A : Type} (key : A -> Z).

Lemma descending_split (t : Z) (l : list A) :
  descending key l ->
  l = List.filter (fun a => t <=? key a) l
      ++ List.filter (fun a => negb (t <=? key a)) l.
Proof.
  unfold descending. induction 1 as [|x l Hl IH Hx]; [done|].
  cbn [List.filter]. destruct (Z.leb_spec t (key x)) as [Hge|Hlt]; cbn [negb].
  - cbn [app]. by rewrite <- IH.
  - assert (Hbelow : Forall (fun a => (t <=? key a) = false) l).
    { eapply Forall_impl; [exact Hx|]. cbn. intros a Ha. apply Z.leb_gt. lia. }
    destruct (filter_all_false _ l Hbelow) as [-> ->]. done.
Qed.

Lemma descending_filter (f : A -> bool) (l : list A) :
  descending key l -> descending key (List.filter f l).
Proof.
  unfold descending. induction 1 as [|x l Hl IH Hx]; [constructor|].
  cbn [List.filter]. destruct (f x); [|exact IH].
  constructor; [exact IH|].
  apply Forall_forall. intros a [Ha _]%list_elem_of_In%filter_In.
  rewrite Forall_forall in Hx. by apply Hx, list_elem_of_In.
Qed.

End Threshold.

Lemma filter_by_category (l : list RelevanceEntry) :
  Forall (fun e => category e = categoryOfScore (relevanceScore e)) l ->
  List.filter (ofCategory high) l = List.filter (fun e => 70 <=? relevanceScore e) l /\
  List.filter (ofCategory medium) l
  = List.filter (fun e => 40 <=? relevanceScore e)
      (List.filter (fun e => negb (70 <=? relevanceScore e)) l) /\
  List.filter (ofCategory low) l
  = List.filter (fun e => negb (40 <=? relevanceScore e))
      (List.filter (fun e => negb (70 <=? relevanceScore e)) l).
Proof.
  induction 1 as [|e l He _ (IH1 & IH2 & IH3)]; [done|].
  unfold ofCategory in *. cbn [List.filter]. rewrite He. unfold categoryOfScore.
  destruct (Z.leb_spec 70 (relevanceScore e)); cbn [negb List.filter].
  - by rewrite IH1, IH2, IH3.
  - destruct (Z.leb_spec 40 (relevanceScore e)); cbn [negb];
      by rewrite IH1, IH2, IH3.
Qed.

(** X6. The output lists the topics of high relevance first, then those of
    medium relevance, then those of low relevance. *)
Theorem analyzeTopicRelevance_by_category (topics : list string) :
  let out := analyzeTopicRelevance topics in
  out = List.filter (ofCategory high) out
        ++ List.filter (ofCategory medium) out
        ++ List.filter (ofCategory low) out.
Proof.
  cbv zeta.
  assert (Hdesc : descending relevanceScore (analyzeTopicRelevance topics))
    by apply arraySort_descending.
  assert (Hcat : Forall (fun e => category e = categoryOfScore (relevanceScore e))
                        (analyzeTopicRelevance topics)).
  { unfold analyzeTopicRelevance.
    rewrite (arraySort_Permutation relevanceScore). apply Forall_map, Forall_true.
    intros t. apply relevanceOf_category. }
  destruct (filter_by_category _ Hcat) as (-> & -> & ->).
  rewrite <- (descending_split relevanceScore 40)
    by apply descending_filter, Hdesc.
  by apply descending_split.
Qed.

(** ** Queries that are refused *)

Lemma validateQuery_short query :
  (String.length (trim query) < 2)%nat ->
  exists message, validateQuery query = Throw (ErrorOf message).
Proof.
  intros Hshort. unfold validateQuery.
  destruct (negb (nonEmpty query) || (String.length (trim query) =? 0)%nat);
    [by eexists|].
  apply Nat.ltb_lt in Hshort. rewrite Hshort. by eexists.
Qed.

(** X7. A query is accepted exactly when it has two characters or more once
    trimmed. A query that is not makes [getTopUrls], [searchAndExtract]
    and [smartSearch] throw the complaint of [_validateQuery], under their
    own prefixes, before anything is asked of the platform: the world is
    left as it was. *)
Theorem short_query_is_refused :
  (forall query,
     validateQuery query = Ok tt <-> (2 <= String.length (trim query))%nat) /\
  (forall W (P : Platform W) config query searchEngine limit topicOptions maxResults w,
     (String.length (trim query) < 2)%nat ->
     exists message,
       validateQuery query = Throw (ErrorOf message) /\
       getTopUrls config query searchEngine limit w
       = (Throw (ErrorOf ("Erreur lors de la recherche: " +:+ message)), w) /\
       searchAndExtract config query searchEngine limit w
       = (Throw (ErrorOf ("Erreur lors de la recherche et extraction: "
                          +:+ ("Erreur lors de la recherche: " +:+ message))), w) /\
       smartSearch config query searchEngine topicOptions maxResults w
       = (Throw (ErrorOf ("Erreur lors de la recherche intelligente: " +:+ message)), w)).
Proof.
  split.
  - intros query. unfold validateQuery.
    destruct (nonEmpty query) eqn:Hsome; cbn [negb orb].
    2: { destruct query; [|discriminate Hsome]. split; [discriminate|].
         change (String.length (trim EmptyString)) with 0%nat. lia. }
    destruct (Nat.eqb_spec (String.length (trim query)) 0) as [Hzero|Hpos].
    { rewrite Hzero. split; [done|lia]. }
    destruct (Nat.ltb_spec (String.length (trim query)) 2); split; try done; lia.
  - intros W P config query searchEngine limit topicOptions maxResults w Hshort.
    destruct (validateQuery_short query Hshort) as [message Hthrown].
    exists message. split; [exact Hthrown|].
    assert (Hurls : getTopUrls config query searchEngine limit w
                    = (Throw (ErrorOf ("Erreur lors de la recherche: " +:+ message)), w)).
    { unfold getTopUrls, tryCatch, bind, lift. by rewrite Hthrown. }
    split; [exact Hurls|]. split.
    + unfold searchAndExtract, tryCatch, bind. by rewrite Hurls.
    + unfold smartSearch, tryCatch, bind, lift. by rewrite Hthrown.
Qed.

Lemma short_query_is_refused_witness :
  exists message,
    validateQuery " a " = Throw (ErrorOf message) /\
    @getTopUrls _ (Scripted.platform Scripted.site) defaultConfig " a " duckduckgo None
      Scripted.start
    = (Throw (ErrorOf ("Erreur lors de la recherche: " +:+ message)), Scripted.start) /\
    @searchAndExtract _ (Scripted.platform Scripted.site) defaultConfig " a " duckduckgo None
      Scripted.start
    = (Throw (ErrorOf ("Erreur lors de la recherche et extraction: "
                       +:+ ("Erreur lors de la recherche: " +:+ message))),
       Scripted.start) /\
    @smartSearch _ (Scripted.platform Scripted.site) defaultConfig " a " duckduckgo
      noOptions None Scripted.start
    = (Throw (ErrorOf ("Erreur lors de la recherche intelligente: " +:+ message)),
       Scripted.start).
Proof.
  apply (proj2 short_query_is_refused _ (Scripted.platform Scripted.site) defaultConfig
           " a "%string duckduckgo None noOptions None Scripted.start).
  vm_compute. lia.
Defined.

(** ** The pauses of the retrying fetcher *)

Section Trace.
Context {W : Type} (P : Platform W).
Variable config : Config.
Variable url : string.

Lemma retryLoop_trace (k : nat) : forall a lastError w trace0 result w' trace,
  a + Z.of_nat k = retryAttempts config + 1 ->
  @retryLoop _ (traced P) config url (seqZ a (Z.of_nat k)) lastError (w, trace0)
    = (result, (w', trace)) ->
  exists outcomes,
    trace = trace0 ++ backoff url (retryDelay config) a outcomes /\
    (length outcomes <= k)%nat /\
    ((0 < k)%nat -> outcomes <> []).
Proof.
  induction k as [|k IH]; intros a lastError w trace0 result w' trace Hlast Hrun.
  - cbn in Hrun. injection Hrun as <- <- <-. exists [].
    rewrite app_nil_r. split; [done|]. split; [done|lia].
  - rewrite seqZ_cons in Hrun by lia.
    replace (Z.pred (Z.of_nat (S k))) with (Z.of_nat k) in Hrun by lia.
    cbn [retryLoop] in Hrun. unfold tryCatch in Hrun.
    destruct (attemptOnce url (w, trace0)) as [[body|e] [w1 trace1]] eqn:Hattempt.
    + injection Hrun as <- <- <-.
      apply attemptOnce_outcome in Hattempt as (outcome & Hfetch & _).
      cbn in Hfetch. destruct (fetch url w) as [o w2].
      injection Hfetch as -> -> <-.
      exists [outcome]. split; [done|]. split; [cbn; lia|done].
    + apply attemptOnce_outcome in Hattempt as (outcome & Hfetch & _).
      cbn in Hfetch. destruct (fetch url w) as [o w2].
      injection Hfetch as -> -> <-.
      destruct (Z.ltb_spec a (retryAttempts config)) as [Hmore|Hdone].
      * cbn [delay traced] in Hrun.
        apply IH in Hrun as (outcomes & -> & Hlen & Hsome); [|lia].
        destruct outcomes as [|next outcomes]; [exfalso; apply Hsome; [lia|done]|].
        exists (outcome :: next :: outcomes).
        split; [|split; [cbn in *; lia|done]].
        rewrite <- !app_assoc. cbn [app backoff].
        replace (Z.succ a) with (a + 1) by lia. reflexivity.
      * assert (k = 0)%nat as -> by lia.
        cbn in Hrun. injection Hrun as <- <- <-.
        exists [outcome]. split; [done|]. split; [cbn; lia|done].
Qed.

End Trace.

(** X8. Seen from the platform, a fetch with retries is a sequence of at most
    [retryAttempts] requests to the URL with, between two requests,
    exactly one pause of [retryDelay] times the number of the attempt
    that failed: there is no pause before the first request and none
    after the last one, whether it succeeded or not. *)
Theorem fetchWithRetry_backoff {W} (P : Platform W) (config : Config) (url : string)
    w result w' trace :
  @fetchWithRetry _ (traced P) config url (w, []) = (result, (w', trace)) ->
  exists outcomes,
    trace = backoff url (retryDelay config) 1 outcomes /\
    Z.of_nat (length outcomes) <= Z.max 0 (retryAttempts config).
Proof.
  unfold fetchWithRetry. intros Hrun.
  destruct (Z.le_gt_cases (retryAttempts config) 0) as [Hnone|Hsome].
  - rewrite seqZ_nil in Hrun by lia. cbn in Hrun. injection Hrun as <- <- <-.
    exists []. split; [done|]. cbn. lia.
  - rewrite <- (Z2Nat.id (retryAttempts config)) in Hrun at 1 by lia.
    apply retryLoop_trace in Hrun as (outcomes & -> & Hlen & _); [|lia].
    exists outcomes. split; [done|]. lia.
Qed.

Lemma fetchWithRetry_backoff_witness :
  exists outcomes,
    [Requested "https://flaky.example/"
       (Responded 500 "Internal Server Error" (Ok "oops"));
     Paused 1000;
     Requested "https://flaky.example/"
       (Responded 500 "Internal Server Error" (Ok "oops"));
     Paused 2000;
     Requested "https://flaky.example/"
       (Responded 200 "OK" (Ok "<p>third time lucky</p>"))]%string
    = backoff "https://flaky.example/" (retryDelay defaultConfig) 1 outcomes /\
    Z.of_nat (length outcomes) <= Z.max 0 (retryAttempts defaultConfig).
Proof.
  eapply (fetchWithRetry_backoff (Scripted.platform Scripted.site) defaultConfig
            "https://flaky.example/" Scripted.start).
  vm_compute. reflexivity.
Defined.

(** ** Lists of URLs that are refused *)

Lemma find_first {A} (f : A -> bool) before x after :
  Forall (fun a => f a = false) before -> f x = true ->
  List.find f (before ++ x :: after) = Some x.
Proof.
  induction 1 as [|a before Ha _ IH]; intros Hx; cbn [app List.find].
  - by rewrite Hx.
  - rewrite Ha. by apply IH.
Qed.

(** X9. [extractContents] checks the whole list before it asks for any page:
    an empty list, or one URL that the [URL] class cannot read, makes it
    throw, naming the first such URL, and the world is left as it was,
    whatever the other URLs are. *)
Theorem extractContents_refuses :
  (forall W (P : Platform W) config w,
     extractContents config [] w
     = (Throw (ErrorOf ("Erreur lors de l'extraction du contenu: "
                        +:+ latin1 "Le tableau d'URLs ne peut pas être vide")), w)) /\
  (forall W (P : Platform W) config before url after w,
     Forall (fun u => validUrl u = true) before ->
     validUrl url = false ->
     extractContents config (before ++ url :: after) w
     = (Throw (ErrorOf ("Erreur lors de l'extraction du contenu: "
                        +:+ ("URL invalide: " +:+ url))), w)).
Proof.
  split.
  - intros W P config w. reflexivity.
  - intros W P config before url after w Hbefore Hurl.
    unfold extractContents, tryCatch, bind, lift, validateUrls.
    rewrite length_app. cbn [length].
    replace (length before + S (length after) =? 0)%nat with false
      by (symmetry; apply Nat.eqb_neq; lia).
    rewrite (find_first (fun url => negb (validUrl url)) before url after).
    + reflexivity.
    + eapply Forall_impl; [exact Hbefore|]. cbn. by intros u ->.
    + by rewrite Hurl.
Qed.

Lemma extractContents_refuses_witness :
  @extractContents _ (Scripted.platform Scripted.site) defaultConfig
    (["https://up.example/b"%string] ++ "up.example/c"%string :: ["https://up.example/c"%string])
    Scripted.start
  = (Throw (ErrorOf ("Erreur lors de l'extraction du contenu: "
                     +:+ ("URL invalide: " +:+ "up.example/c"))), Scripted.start).
Proof.
  apply (proj2 extractContents_refuses _ (Scripted.platform Scripted.site) defaultConfig
           ["https://up.example/b"%string] "up.example/c"%string
           ["https://up.example/c"%string] Scripted.start).
  - repeat constructor.
  - reflexivity.
Defined.

(** ** A configuration without attempts *)

Lemma allSettled_all_throw {W A} (task : string -> M W A) (e : Thrown) urls w :
  (forall url w, task url w = (Throw e, w)) ->
  allSettled (map task urls) w = (Ok (map (fun _ => Throw e) urls), w).
Proof.
  intros Htask. induction urls as [|url urls IH]; [reflexivity|].
  cbn [map allSettled]. by rewrite Htask, IH.
Qed.

(** X10. With [retryAttempts] at 0 or below the platform is never asked for
    anything: the fetcher throws [undefined] at once, a search throws,
    and an extraction returns one failed record for each URL; the world
    is left as it was. *)
Theorem no_attempts_no_requests {W} (P : Platform W) (config : Config) :
  retryAttempts config <= 0 ->
  (forall url w, fetchWithRetry config url w = (Throw Undefined, w)) /\
  (forall query searchEngine limit w,
     validateQuery query = Ok tt ->
     exists message,
       getTopUrls config query searchEngine limit w = (Throw (ErrorOf message), w)) /\
  (forall urls w,
     validateUrls urls = Ok tt ->
     exists records,
       extractContents config urls w = (Ok records, w) /\
       map ExtractedContent.url records = map Some urls /\
       Forall (fun c => ExtractedContent.success c = false) records).
Proof.
  intros Hnone.
  assert (Hfetch : forall url w, fetchWithRetry config url w = (Throw Undefined, w)).
  { intros url w. unfold fetchWithRetry. by rewrite seqZ_nil by lia. }
  split; [exact Hfetch|]. split.
  - intros query searchEngine limit w Hvalid.
    unfold getTopUrls, tryCatch, bind, lift. rewrite Hvalid.
    assert (performSearch config query searchEngine w = (Throw Undefined, w)) as ->.
    { unfold performSearch, searchDuckDuckGo, bind.
      destruct searchEngine; by rewrite Hfetch. }
    by eexists.
  - intros urls w Hvalid.
    unfold extractContents, tryCatch, bind, lift. rewrite Hvalid.
    set (e := ErrorOf "Cannot read properties of undefined (reading 'message')").
    rewrite (allSettled_all_throw (extractSingleContent config) e).
    + eexists. split; [reflexivity|]. clear Hvalid. split.
      * induction urls as [|url urls IH]; [done|]. cbn. by rewrite <- IH.
      * induction urls as [|url urls IH]; [constructor|]. by constructor.
    + intros url w0. unfold extractSingleContent, tryCatch, bind.
      by rewrite Hfetch.
Qed.

Lemma no_attempts_no_requests_witness :
  @fetchWithRetry _ (Scripted.platform Scripted.site) Scripted.noAttempts
    "https://up.example/b" Scripted.start
  = (Throw Undefined, Scripted.start) /\
  exists records,
    @extractContents _ (Scripted.platform Scripted.site) Scripted.noAttempts
      ["https://up.example/b"%string] Scripted.start
    = (Ok records, Scripted.start) /\
    map ExtractedContent.url records = map Some ["https://up.example/b"%string] /\
    Forall (fun c => ExtractedContent.success c = false) records.
Proof.
  assert (Hnone : retryAttempts Scripted.noAttempts <= 0) by (cbn; lia).
  split.
  - apply (proj1 (no_attempts_no_requests (Scripted.platform Scripted.site)
                    Scripted.noAttempts Hnone)).
  - apply (proj2 (proj2 (no_attempts_no_requests (Scripted.platform Scripted.site)
                           Scripted.noAttempts Hnone))).
    reflexivity.
Defined.

(** ** How many requests an extraction and a search make *)

Section Requests.
Context {W : Type} (P : Platform W).
Variable config : Config.

Lemma fetchWithRetry_requests url w journal0 result w' journal :
  @fetchWithRetry _ (journalled P) config url (w, journal0) = (result, (w', journal)) ->
  exists new,
    journal = journal0 ++ new /\
    Z.of_nat (length new) <= Z.max 0 (retryAttempts config) /\
    Forall (fun e => e.1 = url) new.
Proof.
  unfold fetchWithRetry. intros Hrun.
  apply retryLoop_journal in Hrun as (new & -> & Hlen & Hurl & _).
  rewrite length_seqZ in Hlen. exists new. split; [done|]. split; [lia|done].
Qed.

Lemma extractSingleContent_requests url w journal0 result w' journal :
  @extractSingleContent _ (journalled P) config url (w, journal0)
    = (result, (w', journal)) ->
  exists new,
    journal = journal0 ++ new /\
    Z.of_nat (length new) <= Z.max 0 (retryAttempts config) /\
    Forall (fun e => e.1 = url) new.
Proof.
  unfold extractSingleContent, tryCatch, bind, lift.
  destruct (fetchWithRetry config url (w, journal0)) as [[response|e] [w1 journal1]] eqn:Hfetch;
    apply fetchWithRetry_requests in Hfetch.
  - destruct (parsePage _ url response) as [page|e].
    + by intros [= <- <- <-].
    + destruct (rethrow_throws (A := ExtractedContent.t)
                  ("Erreur lors de l'extraction de " +:+ url +:+ ": ") e (w1, journal1))
        as [e' ->].
      by intros [= <- <- <-].
  - destruct (rethrow_throws (A := ExtractedContent.t)
                ("Erreur lors de l'extraction de " +:+ url +:+ ": ") e (w1, journal1))
      as [e' ->].
    by intros [= <- <- <-].
Qed.

Lemma allSettled_requests urls : forall w journal0 result w' journal,
  allSettled (map (@extractSingleContent _ (journalled P) config) urls) (w, journal0)
    = (result, (w', journal)) ->
  exists new,
    journal = journal0 ++ new /\
    Z.of_nat (length new) <= Z.of_nat (length urls) * Z.max 0 (retryAttempts config) /\
    Forall (fun e => e.1 ∈ urls) new.
Proof.
  induction urls as [|url urls IH]; intros w journal0 result w' journal.
  - cbn. intros [= <- <- <-]. exists []. rewrite app_nil_r. split; [done|].
    split; [cbn; lia|constructor].
  - cbn [map allSettled].
    destruct (extractSingleContent config url (w, journal0)) as [first [w1 journal1]] eqn:Hfirst.
    destruct (allSettled _ (w1, journal1)) as [rest [w2 journal2]] eqn:Hrest.
    intros [= <- <- <-].
    apply extractSingleContent_requests in Hfirst as (new1 & -> & Hlen1 & Hurl1).
    apply IH in Hrest as (new2 & -> & Hlen2 & Hurl2).
    exists (new1 ++ new2). rewrite app_assoc. split; [done|]. split.
    + rewrite length_app. cbn [length]. lia.
    + apply Forall_app. split.
      * eapply Forall_impl; [exact Hurl1|]. cbn. intros e ->. by left.
      * eapply Forall_impl; [exact Hurl2|]. cbn. intros e He. by right.
Qed.

Lemma extractContents_journal urls w journal0 result w' journal :
  @extractContents _ (journalled P) config urls (w, journal0) = (result, (w', journal)) ->
  exists new,
    journal = journal0 ++ new /\
    Z.of_nat (length new) <= Z.of_nat (length urls) * Z.max 0 (retryAttempts config) /\
    Forall (fun e => e.1 ∈ urls) new.
Proof.
  unfold extractContents, tryCatch, bind, lift.
  destruct (validateUrls urls) as [[]|e].
  - destruct (allSettled _ (w, journal0)) as [[settled|e] [w1 journal1]] eqn:Hall;
      apply allSettled_requests in Hall.
    + by intros [= <- <- <-].
    + destruct (rethrow_throws (A := list ExtractedContent.t)
                  "Erreur lors de l'extraction du contenu: " e (w1, journal1)) as [e' ->].
      by intros [= <- <- <-].
  - destruct (rethrow_throws (A := list ExtractedContent.t)
                "Erreur lors de l'extraction du contenu: " e (w, journal0)) as [e' ->].
    intros [= <- <- <-]. exists []. rewrite app_nil_r. split; [done|].
    split; [cbn; lia|constructor].
Qed.

Lemma getTopUrls_journal query searchEngine limit w journal0 result w' journal :
  @getTopUrls _ (journalled P) config query searchEngine limit (w, journal0)
    = (result, (w', journal)) ->
  exists new,
    journal = journal0 ++ new /\
    Z.of_nat (length new) <= Z.max 0 (retryAttempts config) /\
    Forall (fun e => e.1 = "https://html.duckduckgo.com/html/?q="
                          +:+ @encodeURIComponent _ P query) new /\
    (0 <= default (maxResults config) limit ->
     match result with
     | Ok urls => Z.of_nat (length urls) <= default (maxResults config) limit
     | Throw _ => True
     end).
Proof.
  unfold getTopUrls, tryCatch, bind, lift.
  destruct (validateQuery query) as [[]|e].
  - assert (Hsearch : @performSearch _ (journalled P) config query searchEngine
                      = @searchDuckDuckGo _ (journalled P) config query)
      by (by destruct searchEngine).
    rewrite Hsearch. unfold searchDuckDuckGo, bind.
    destruct (fetchWithRetry config _ (w, journal0)) as [[response|e] [w1 journal1]] eqn:Hfetch;
      apply fetchWithRetry_requests in Hfetch as (new & -> & Hlen & Hurl).
    + intros [= <- <- <-]. exists new. repeat split; try done.
      intros Hlimit. rewrite length_map. by apply sliceTo_length.
    + destruct (rethrow_throws (A := list string)
                  "Erreur lors de la recherche: " e (w1, journal0 ++ new)) as [e' ->].
      intros [= <- <- <-]. exists new. repeat split; done.
  - destruct (rethrow_throws (A := list string)
                "Erreur lors de la recherche: " e (w, journal0)) as [e' ->].
    intros [= <- <- <-]. exists []. rewrite app_nil_r.
    split; [done|]. split; [cbn; lia|]. split; [constructor|done].
Qed.

End Requests.

(** X11. An extraction asks only for the URLs it was given, and makes at most
    [retryAttempts] requests for each of them. *)
Theorem extractContents_requests {W} (P : Platform W) (config : Config)
    (urls : list string) w result w' journal :
  @extractContents _ (journalled P) config urls (w, []) = (result, (w', journal)) ->
  Forall (fun e => e.1 ∈ urls) journal /\
  Z.of_nat (length journal) <= Z.of_nat (length urls) * Z.max 0 (retryAttempts config).
Proof.
  intros Hrun. apply extractContents_journal in Hrun as (new & -> & Hlen & Hurls).
  done.
Qed.

Lemma extractContents_requests_witness :
  match @extractContents _ (journalled (Scripted.platform Scripted.site)) defaultConfig
          ["https://down.example/a"; "https://up.example/b"]%string (Scripted.start, [])
  with
  | (_, (_, journal)) =>
      Forall (fun e => e.1 ∈ ["https://down.example/a"; "https://up.example/b"]%string)
             journal /\
      Z.of_nat (length journal) <= Z.of_nat 2 * Z.max 0 (retryAttempts defaultConfig)
  end.
Proof.
  destruct (extractContents _ _ _) as [result [w' journal]] eqn:Hrun.
  apply (extractContents_requests _ _ _ _ _ _ _ Hrun).
Defined.

(** X12. A search followed by its extraction makes at most [retryAttempts]
    requests to the search page, then at most [retryAttempts] requests
    for each of the URLs kept, which are no more than the limit: in all,
    no more than (1 + limit) times [retryAttempts] requests. *)
Theorem searchAndExtract_requests {W} (P : Platform W) (config : Config)
    (query : string) (searchEngine : SearchEngine) (limit : option Z)
    w result w' journal :
  0 <= default (maxResults config) limit ->
  @searchAndExtract _ (journalled P) config query searchEngine limit (w, [])
    = (result, (w', journal)) ->
  exists searches pages,
    journal = searches ++ pages /\
    Forall (fun e => e.1 = "https://html.duckduckgo.com/html/?q="
                          +:+ @encodeURIComponent _ P query) searches /\
    Z.of_nat (length searches) <= Z.max 0 (retryAttempts config) /\
    Z.of_nat (length pages)
    <= default (maxResults config) limit * Z.max 0 (retryAttempts config) /\
    Z.of_nat (length journal)
    <= (1 + default (maxResults config) limit) * Z.max 0 (retryAttempts config).
Proof.
  intros Hlimit. unfold searchAndExtract, tryCatch, bind.
  destruct (getTopUrls config query searchEngine limit (w, []))
    as [[urls|e] [w1 journal1]] eqn:Hurls;
    apply getTopUrls_journal in Hurls as (searches & -> & Hlen & Hto & Hcount);
    cbn [app] in *.
  - specialize (Hcount Hlimit).
    destruct (extractContents config urls (w1, searches))
      as [[found|e] [w2 journal2]] eqn:Hfound;
      apply extractContents_journal in Hfound as (pages & -> & Hpages & _).
    + intros [= <- <- <-]. exists searches, pages. rewrite length_app.
      repeat split; try done; nia.
    + destruct (rethrow_throws (A := list ExtractedContent.t)
                  "Erreur lors de la recherche et extraction: " e
                  (w2, searches ++ pages)) as [e' ->].
      intros [= <- <- <-]. exists searches, pages. rewrite length_app.
      repeat split; try done; nia.
  - destruct (rethrow_throws (A := list ExtractedContent.t)
                "Erreur lors de la recherche et extraction: " e (w1, searches))
      as [e' ->].
    intros [= <- <- <-]. exists searches, []. rewrite app_nil_r.
    repeat split; try done; cbn [length]; nia.
Qed.

Lemma searchAndExtract_requests_witness :
  match @searchAndExtract _ (journalled (Scripted.platform Scripted.site)) defaultConfig
          "cats" duckduckgo (Some 2) (Scripted.start, [])
  with
  | (_, (_, journal)) =>
      exists searches pages,
        journal = searches ++ pages /\
        Forall (fun e => e.1 = "https://html.duckduckgo.com/html/?q="
                              +:+ @encodeURIComponent _ (Scripted.platform Scripted.site)
                                    "cats") searches /\
        Z.of_nat (length searches) <= Z.max 0 (retryAttempts defaultConfig) /\
        Z.of_nat (length pages)
        <= default (maxResults defaultConfig) (Some 2)
           * Z.max 0 (retryAttempts defaultConfig) /\
        Z.of_nat (length journal)
        <= (1 + default (maxResults defaultConfig) (Some 2))
           * Z.max 0 (retryAttempts defaultConfig)
  end.
Proof.
  destruct (searchAndExtract _ _ _ _ _) as [result [w' journal]] eqn:Hrun.
  eapply (searchAndExtract_requests (Scripted.platform Scripted.site) defaultConfig
            "cats" duckduckgo (Some 2)); [cbn; lia|exact Hrun].
Defined.

(** ** The engine: which steps run, and what each one brings *)

Section EngineRuns.
Context {W : Type}.
Variable search : string -> SearchEngine -> option Z -> M W (list ExtractedContent.t).
Variable searchEngine : SearchEngine.
Variable desiredResults : Z.

Lemma runSteps_no_budget plan : forall acc w,
  desiredResults <= Z.of_nat (length (aggregatedResults acc)) ->
  runSteps search searchEngine desiredResults plan acc w = (Ok acc, w).
Proof.
  induction plan as [|step rest IH]; intros acc w Hfull; [reflexivity|].
  cbn [runSteps].
  destruct (isOptional step && _); [by apply IH|].
  destruct (Z.leb_spec (desiredResults - Z.of_nat (length (aggregatedResults acc))) 0);
    [reflexivity|lia].
Qed.

Lemma runSteps_prefix plan : forall acc w acc' w',
  runSteps search searchEngine desiredResults plan acc w = (Ok acc', w') ->
  Z.of_nat (length (aggregatedResults acc)) < desiredResults ->
  exists ran rest,
    plan = ran ++ rest /\
    map fst (perStep acc') = map fst (perStep acc) ++ ran /\
    (rest = [] \/ desiredResults <= Z.of_nat (length (aggregatedResults acc'))).
Proof.
  induction plan as [|step rest IH]; intros acc w acc' w' Hrun Hroom.
  - cbn in Hrun. injection Hrun as <- <-. exists [], [].
    split; [done|]. split; [by rewrite app_nil_r|by left].
  - cbn [runSteps] in Hrun.
    replace (desiredResults <=? Z.of_nat (length (aggregatedResults acc))) with false in Hrun
      by (symmetry; apply Z.leb_gt; lia).
    rewrite andb_false_r in Hrun.
    destruct (Z.leb_spec (desiredResults - Z.of_nat (length (aggregatedResults acc))) 0);
      [lia|].
    unfold bind in Hrun.
    destruct (search _ _ _ w) as [[raw|e] w1] eqn:Hsearch; [|discriminate].
    set (remaining := desiredResults - _) in *.
    destruct (recordStep_fields remaining step raw acc) as (_ & _ & _ & Hper).
    destruct (Z.leb_spec desiredResults
                (Z.of_nat (length (aggregatedResults (recordStep remaining step raw acc)))))
      as [Hfull|Hmore].
    + injection Hrun as <- <-. exists [step], rest. split; [done|].
      rewrite Hper, map_app. split; [done|by right].
    + destruct (IH _ _ _ _ Hrun Hmore) as (ran & rest' & -> & Heq & Hstop).
      exists (step :: ran), rest'. split; [done|]. split; [|done].
      rewrite Heq, Hper, map_app. cbn. by rewrite <- app_assoc.
Qed.

Lemma runSteps_concat plan acc w acc' w' :
  runSteps search searchEngine desiredResults plan acc w = (Ok acc', w') ->
  aggregatedResults acc = concat (map snd (perStep acc)) ->
  aggregatedResults acc' = concat (map snd (perStep acc')).
Proof.
  intros Hrun.
  eapply (runSteps_rule _ _ _
            (fun acc _ => aggregatedResults acc = concat (map snd (perStep acc))));
    [|exact Hrun].
  intros acc0 step w0 raw w1 Heq remaining Hpos _.
  destruct (recordStep_fields remaining step raw acc0) as (-> & _ & _ & ->).
  rewrite map_app, concat_app, Heq. cbn. by rewrite app_nil_r.
Qed.

End EngineRuns.

(** X13. With a budget of 0 or less no step runs, whatever the plan: the run
    returns nothing and the world is left as it was. *)
Theorem runSearchPlan_empty_budget {W} (P : Platform W) (config : Config)
    (searchPlan : list SearchPlanStep) (searchEngine : SearchEngine)
    (desiredResults : Z) (w : W) :
  desiredResults <= 0 ->
  runSearchPlan config searchPlan searchEngine desiredResults w
  = (Ok {| results := []; executedQueries := []; stepResults := [] |}, w).
Proof.
  intros Hnone. unfold runSearchPlan, runSearchPlanWith, bind.
  rewrite runSteps_no_budget by (cbn; lia). reflexivity.
Qed.

Lemma runSearchPlan_empty_budget_witness :
  @runSearchPlan _ (Scripted.platform Scripted.site) defaultConfig
    [Scripted.step "cats" None] duckduckgo 0 Scripted.start
  = (Ok {| results := []; executedQueries := []; stepResults := [] |}, Scripted.start).
Proof.
  apply (runSearchPlan_empty_budget (Scripted.platform Scripted.site)). lia.
Defined.

(** X14. With a budget of 1 or more, a run that returns has run the steps of
    the plan one after the other from the first, without passing over
    any, and has stopped before the end of the plan only with its
    budget used up. *)
Theorem runSearchPlan_runs_a_prefix {W} (P : Platform W) (config : Config)
    (searchPlan : list SearchPlanStep) (searchEngine : SearchEngine)
    (desiredResults : Z) w r w' :
  1 <= desiredResults ->
  runSearchPlan config searchPlan searchEngine desiredResults w = (Ok r, w') ->
  exists rest,
    searchPlan = map fst (stepResults r) ++ rest /\
    (rest = [] \/ Z.of_nat (length (results r)) = desiredResults).
Proof.
  intros Hsome Hrun. unfold runSearchPlan in Hrun.
  apply runSearchPlanWith_inv in Hrun as (acc & Hrun & ->).
  cbn [results stepResults].
  destruct (runSteps_prefix _ _ _ _ _ _ _ _ Hrun) as (ran & rest & -> & Heq & Hstop);
    [cbn; lia|].
  cbn in Heq. exists rest. rewrite Heq. split; [done|].
  destruct Hstop as [->|Hfull]; [by left|right].
  pose proof (runSteps_within_budget _ _ _ _ _ _ _ _ Hrun) as Hle.
  cbn in Hle. lia.
Qed.

Lemma runSearchPlan_runs_a_prefix_witness :
  match @runSearchPlan _ (Scripted.platform Scripted.site) defaultConfig
          [Scripted.step "cats" None; Scripted.step "more cats" None] duckduckgo 1
          Scripted.start
  with
  | (Ok r, _) =>
      exists rest,
        [Scripted.step "cats" None; Scripted.step "more cats" None]
        = map fst (stepResults r) ++ rest /\
        (rest = [] \/ Z.of_nat (length (results r)) = 1)
  | (Throw _, _) => False
  end.
Proof.
  destruct (runSearchPlan _ _ _ _ _) as [[r|err] w'] eqn:Hrun.
  - eapply (runSearchPlan_runs_a_prefix (Scripted.platform Scripted.site)); [lia|exact Hrun].
  - vm_compute in Hrun. discriminate.
Defined.

(** X15. The results of a run are the new results of its steps, put end to
    end in the order of the steps; and a step with a limit brings no
    more new results than its limit (one, when the limit is below one). *)
Theorem runSearchPlan_results_by_step {W} (P : Platform W) (config : Config)
    (searchPlan : list SearchPlanStep) (searchEngine : SearchEngine)
    (desiredResults : Z) w r w' :
  runSearchPlan config searchPlan searchEngine desiredResults w = (Ok r, w') ->
  results r = concat (map snd (stepResults r)) /\
  Forall (fun outcome : SearchPlanStep * list ExtractedContent.t =>
            match hasLimit outcome.1 with
            | Some l => Z.of_nat (length outcome.2) <= Z.max l 1
            | None => True
            end)
         (stepResults r).
Proof.
  intros Hrun. unfold runSearchPlan in Hrun.
  apply runSearchPlanWith_inv in Hrun as (acc & Hrun & ->).
  cbn [results stepResults]. split.
  - by apply (runSteps_concat _ _ _ _ _ _ _ _ Hrun).
  - eapply (runSteps_rule _ _ _
              (fun acc _ =>
                 Forall (fun outcome : SearchPlanStep * list ExtractedContent.t =>
                           match hasLimit outcome.1 with
                           | Some l => Z.of_nat (length outcome.2) <= Z.max l 1
                           | None => True
                           end) (perStep acc)));
      [|exact Hrun|constructor].
    intros acc0 step w0 raw w1 Hall remaining Hpos Hsearch.
    destruct (recordStep_fields remaining step raw acc0) as (_ & _ & _ & ->).
    apply Forall_app. split; [exact Hall|]. constructor; [|constructor].
    cbn [fst snd]. destruct (hasLimit step) as [l|] eqn:Hlimit; [|done].
    apply searchAndExtract_length in Hsearch;
      [|unfold stepLimit; rewrite Hlimit; lia].
    pose proof (sublist_length _ _
                  (sliceTo_sublist remaining (filterNewResults raw (seenUrls acc0)).1)).
    destruct (filterNewResults_facts raw (seenUrls acc0)) as (Hsub%sublist_length & _).
    unfold stepLimit in Hsearch. rewrite Hlimit in Hsearch. lia.
Qed.

Lemma runSearchPlan_results_by_step_witness :
  match @runSearchPlan _ (Scripted.platform Scripted.site) defaultConfig
          [Scripted.step "cats" None; Scripted.step "more cats" (Some 1)] duckduckgo 4
          Scripted.start
  with
  | (Ok r, _) =>
      results r = concat (map snd (stepResults r)) /\
      Forall (fun outcome : SearchPlanStep * list ExtractedContent.t =>
                match hasLimit outcome.1 with
                | Some l => Z.of_nat (length outcome.2) <= Z.max l 1
                | None => True
                end)
             (stepResults r)
  | (Throw _, _) => False
  end.
Proof.
  destruct (runSearchPlan _ _ _ _ _) as [[r|err] w'] eqn:Hrun.
  - apply (runSearchPlan_results_by_step (Scripted.platform Scripted.site) _ _ _ _ _ _ _ Hrun).
  - vm_compute in Hrun. discriminate.
Defined.

(** ** The shape of a plan *)

Lemma priority_steps (cleaned original : string) (desiredResults cap : Z)
    (highRelevanceTopics : list string) :
  0 <= cap ->
  let steps :=
    map (fun topic =>
           {| query := topic; reason := "sujet prioritaire";
              optional := Some true;
              limit := Some (Z.max 1 (ceilDiv desiredResults 3)) |})
        (sliceTo cap
           (List.filter
              (fun topic =>
                 (0 <? String.length topic)%nat
                 && negb (String.eqb topic cleaned)
                 && negb (String.eqb topic original))
              highRelevanceTopics)) in
  Z.of_nat (length steps) <= cap /\
  Forall (fun s => isOptional s = true /\
                   (exists l, hasLimit s = Some l /\ 1 <= l) /\
                   query s <> cleaned /\ query s <> original /\
                   query s ∈ highRelevanceTopics)
         steps.
Proof.
  intros Hcap. cbv zeta. split.
  - rewrite length_map. by apply sliceTo_length.
  - apply Forall_map, Forall_sliceTo, Forall_forall.
    intros topic [Hin Hkeep]%list_elem_of_In%filter_In.
    apply andb_true_iff in Hkeep as [[_ Hcleaned]%andb_true_iff Horiginal].
    apply negb_true_iff, String.eqb_neq in Hcleaned, Horiginal.
    cbn [query]. split; [reflexivity|]. split.
    + exists (Z.max 1 (ceilDiv desiredResults 3)). split; [|lia].
      unfold hasLimit. cbn [limit].
      destruct (Z.eqb_spec (Z.max 1 (ceilDiv desiredResults 3)) 0); [lia|done].
    + split; [done|]. split; [done|]. by apply list_elem_of_In.
Qed.

Lemma buildSearchPlan_parts (originalQuery : string) (topicAnalysis : ExtractedTopics)
    (highRelevanceTopics : list string) (desiredResults : Z)
    (maxHighPriorityTopics : option Z) :
  exists primary others,
    buildSearchPlan originalQuery topicAnalysis highRelevanceTopics desiredResults
                    maxHighPriorityTopics
    = primary :: others /\
    isOptional primary = false /\ hasLimit primary = None /\
    Forall (fun s => isOptional s = true /\
                     (exists l, hasLimit s = Some l /\ 1 <= l) /\
                     query s <> query primary)
           others /\
    Z.of_nat (length others) <= 1 + Z.max 0 (default 2 maxHighPriorityTopics).
Proof.
  unfold buildSearchPlan.
  set (original := trim originalQuery).
  set (cleaned := trim (cleanedQuery topicAnalysis)).
  set (cap := Z.max 0 (default 2 maxHighPriorityTopics)).
  destruct (priority_steps cleaned original desiredResults cap highRelevanceTopics)
    as [Hlen Hsteps]; [lia|].
  set (steps := map _ _) in *.
  assert (Hsecond : forall l, hasLimit
            {| query := l; reason := EmptyString; optional := Some true;
               limit := Some (Z.max 2 (ceilDiv desiredResults 2)) |}
            = Some (Z.max 2 (ceilDiv desiredResults 2))).
  { intros l. unfold hasLimit. cbn [limit].
    destruct (Z.eqb_spec (Z.max 2 (ceilDiv desiredResults 2)) 0); [lia|done]. }
  assert (Hlimit : hasLimit
            {| query := EmptyString; reason := EmptyString; optional := Some true;
               limit := Some (Z.max 2 (ceilDiv desiredResults 2)) |}
            = Some (Z.max 2 (ceilDiv desiredResults 2))) by apply Hsecond.
  unfold hasLimit in Hlimit. cbn [limit] in Hlimit.
  destruct (shouldFallbackToOriginal original topicAnalysis
            || (String.length cleaned =? 0)%nat).
  - destruct ((0 <? String.length cleaned)%nat && negb (String.eqb cleaned original))
      eqn:Hsecondary.
    + apply andb_true_iff in Hsecondary as [_ Hdiff].
      apply negb_true_iff, String.eqb_neq in Hdiff.
      eexists _, (_ :: (if 0 <? cap then steps else [])).
      split; [by destruct (0 <? cap)|].
      split; [reflexivity|]. split; [reflexivity|]. split.
      * constructor.
        { split; [reflexivity|]. split; [|exact Hdiff].
          eexists. split; [unfold hasLimit; cbn [limit]; exact Hlimit|lia]. }
        destruct (0 <? cap); [|constructor].
        eapply Forall_impl; [exact Hsteps|]. cbn.
        intros s (? & ? & ? & ? & ?). done.
      * destruct (0 <? cap); cbn [length]; lia.
    + eexists _, (if 0 <? cap then steps else []).
      split; [by destruct (0 <? cap)|].
      split; [reflexivity|]. split; [reflexivity|]. split.
      * destruct (0 <? cap); [|constructor].
        eapply Forall_impl; [exact Hsteps|]. cbn.
        intros s (? & ? & ? & ? & ?). done.
      * destruct (0 <? cap); cbn [length]; lia.
  - destruct (negb (String.eqb cleaned original)) eqn:Hsecondary.
    + apply negb_true_iff, String.eqb_neq in Hsecondary.
      eexists _, (_ :: (if 0 <? cap then steps else [])).
      split; [by destruct (0 <? cap)|].
      split; [reflexivity|]. split; [reflexivity|]. split.
      * constructor.
        { split; [reflexivity|]. split; [|cbn [query]; congruence].
          eexists. split; [unfold hasLimit; cbn [limit]; exact Hlimit|lia]. }
        destruct (0 <? cap); [|constructor].
        eapply Forall_impl; [exact Hsteps|]. cbn.
        intros s (? & ? & ? & ? & ?). done.
      * destruct (0 <? cap); cbn [length]; lia.
    + eexists _, (if 0 <? cap then steps else []).
      split; [by destruct (0 <? cap)|].
      split; [reflexivity|]. split; [reflexivity|]. split.
      * destruct (0 <? cap); [|constructor].
        eapply Forall_impl; [exact Hsteps|]. cbn.
        intros s (? & ? & ? & ? & ?). done.
      * destruct (0 <? cap); cbn [length]; lia.
Qed.

(** X16. A plan starts with one step that is neither optional nor limited.
    Every step after it is optional, has a limit of 1 or more and a
    query other than that of the first step; there are at most one of
    them plus [maxHighPriorityTopics]. *)
Theorem buildSearchPlan_shape (originalQuery : string) (topicAnalysis : ExtractedTopics)
    (highRelevanceTopics : list string) (desiredResults : Z)
    (maxHighPriorityTopics : option Z) :
  exists primary others,
    buildSearchPlan originalQuery topicAnalysis highRelevanceTopics desiredResults
                    maxHighPriorityTopics
    = primary :: others /\
    isOptional primary = false /\ hasLimit primary = None /\
    Forall (fun s => isOptional s = true /\
                     (exists l, hasLimit s = Some l /\ 1 <= l) /\
                     query s <> query primary)
           others /\
    Z.of_nat (length others) <= 1 + Z.max 0 (default 2 maxHighPriorityTopics).
Proof. apply buildSearchPlan_parts. Qed.

(** ** [smartSearch] and [comprehensiveSearch]: what the callers get *)

Lemma runSearchPlan_summary {W} `{Platform W} config plan e desired w r w' :
  runSearchPlan config plan e desired w = (Ok r, w') ->
  1 <= desired ->
  Z.of_nat (length (results r)) <= desired /\
  NoDup (map urlKey (results r)) /\
  Forall (fun c => exists k, urlKey c = Some k) (results r) /\
  results r = concat (map snd (stepResults r)) /\
  executedQueries r = map query (map fst (stepResults r)) /\
  exists rest, plan = map fst (stepResults r) ++ rest /\
               (plan <> [] -> stepResults r <> []).
Proof.
  intros Hrun Hsome. unfold runSearchPlan in Hrun.
  apply runSearchPlanWith_inv in Hrun as (acc & Hrun & ->).
  cbn [results executedQueries stepResults].
  pose proof (runSteps_within_budget _ _ _ _ _ _ _ _ Hrun) as Hle.
  destruct (runSteps_keys _ _ _ _ _ _ _ _ Hrun) as [Hnd Hkeys];
    [split; constructor|].
  pose proof (runSteps_concat _ _ _ _ _ _ _ _ Hrun eq_refl) as Hconcat.
  pose proof (runSteps_executed _ _ _ _ _ _ _ _ Hrun eq_refl) as Hexecuted.
  destruct (runSteps_prefix _ _ _ _ _ _ _ _ Hrun) as (ran & rest & -> & Heq & Hstop);
    [cbn; lia|].
  cbn in Heq, Hle.
  split; [lia|]. split; [done|]. split.
  { eapply Forall_impl; [exact Hkeys|]. cbn. intros c (k & ? & _). by exists k. }
  split; [done|]. split; [done|].
  exists rest. rewrite Heq. split; [done|].
  intros Hplan Hnone. rewrite Hnone in Heq, Hconcat. cbn in Heq, Hconcat. subst ran.
  destruct Hstop as [->|Hfull]; [done|].
  rewrite Hconcat in Hfull. cbn in Hfull. lia.
Qed.

Lemma filterNewResults_idle found : forall seen,
  NoDup (map urlKey found) ->
  Forall (fun c => exists k, urlKey c = Some k /\ k ∉ seen) found ->
  (filterNewResults found seen).1 = found.
Proof.
  induction found as [|c found IH]; intros seen Hnd Hkeys; [reflexivity|].
  rewrite filterNewResults_cons.
  apply Forall_cons in Hkeys as [(k & Hk & Hfresh) Hkeys].
  cbn [map] in Hnd. apply NoDup_cons in Hnd as [Hnew Hnd].
  rewrite Hk, bool_decide_eq_false_2 by done. cbn [fst].
  f_equal. apply IH; [done|].
  apply Forall_forall. intros c' Hc'.
  rewrite Forall_forall in Hkeys. destruct (Hkeys c' Hc') as (k' & Hk' & Hfresh').
  exists k'. split; [done|].
  intros [?| ->%elem_of_singleton]%elem_of_union; [done|].
  apply Hnew. rewrite Hk, <- Hk'. apply list_elem_of_In, in_map, list_elem_of_In, Hc'.
Qed.

Lemma smartSearch_parts {W} (P : Platform W) (config : Config) (query : string)
    (searchEngine : SearchEngine) (topicOptions : TopicExtractionOptions)
    (maxResultsOption : option Z) w r w' :
  smartSearch config query searchEngine topicOptions maxResultsOption w = (Ok r, w') ->
  (2 <= String.length (trim query))%nat /\
  topicAnalysis r = extractTopics query (smartTopicOptions topicOptions) /\
  smartTopics r = topics (topicAnalysis r) /\
  Z.of_nat (length (smartResults r))
  <= Z.max 1 (default (maxResults config) maxResultsOption) /\
  NoDup (map urlKey (smartResults r)) /\
  (length (smartExecutedQueries r) <= 4)%nat /\
  (head (smartExecutedQueries r) = Some (trim query) \/
   head (smartExecutedQueries r) = Some (trim (cleanedQuery (topicAnalysis r)))).
Proof.
  unfold smartSearch, tryCatch, bind, lift.
  destruct (validateQuery query) as [[]|e] eqn:Hvalid.
  2: { destruct (rethrow_throws (A := SmartResult)
                   "Erreur lors de la recherche intelligente: " e w) as [e' ->].
       discriminate. }
  set (desired := Z.max 1 (default (maxResults config) maxResultsOption)).
  set (analysis := extractTopics query (smartTopicOptions topicOptions)).
  set (highs := map topic (List.filter isHigh (analyzeTopicRelevance (topics analysis)))).
  set (cap := Z.min 2 (Z.max 0 (Z.of_nat (length highs)))).
  destruct (runSearchPlan config _ searchEngine desired w) as [[run|e] w1] eqn:Hrun.
  2: { destruct (rethrow_throws (A := SmartResult)
                   "Erreur lors de la recherche intelligente: " e w1) as [e' ->].
       discriminate. }
  intros [= <- <-]. cbn [topicAnalysis smartTopics smartResults smartExecutedQueries].
  destruct (runSearchPlan_summary _ _ _ _ _ _ _ Hrun)
    as (Hle & Hnd & _ & _ & Hexecuted & rest & Hplan & Hsome); [lia|].
  destruct (buildSearchPlan_parts query analysis highs desired (Some cap))
    as (primary & others & Hshape & _ & _ & _ & Hothers).
  pose proof (buildSearchPlan_head query analysis highs desired (Some cap)) as Hhead.
  rewrite Hshape in Hplan, Hsome, Hhead. cbn [head] in Hhead.
  split.
  { unfold validateQuery in Hvalid.
    destruct (negb (nonEmpty query) || _); [discriminate|].
    destruct (Nat.ltb_spec (String.length (trim query)) 2); [discriminate|done]. }
  split; [done|]. split; [done|]. split; [done|]. split; [done|].
  rewrite Hexecuted.
  destruct (map fst (stepResults run)) as [|first ran] eqn:Hran.
  { destruct (stepResults run); [by destruct Hsome|discriminate]. }
  cbn [app] in Hplan. injection Hplan as -> ->.
  split.
  - change (default 2 (Some cap)) with cap in Hothers.
    rewrite length_app in Hothers. rewrite length_map. cbn [length]. subst cap. lia.
  - cbn [map head]. injection Hhead as ->.
    destruct (shouldFallbackToOriginal _ _ || _); [by left|by right].
Qed.

(** X17. A [smartSearch] that returns was given a query of two characters or
    more; it returns the analysis of that query, at most
    max(1, [maxResults]) records, with URLs that, trimmed, are all
    different; and it has run at most four queries, the first of which
    is the trimmed query or the trimmed cleaned query. *)
Theorem smartSearch_result {W} (P : Platform W) (config : Config) (query : string)
    (searchEngine : SearchEngine) (topicOptions : TopicExtractionOptions)
    (maxResultsOption : option Z) w r w' :
  smartSearch config query searchEngine topicOptions maxResultsOption w = (Ok r, w') ->
  (2 <= String.length (trim query))%nat /\
  topicAnalysis r = extractTopics query (smartTopicOptions topicOptions) /\
  smartTopics r = topics (topicAnalysis r) /\
  Z.of_nat (length (smartResults r))
  <= Z.max 1 (default (maxResults config) maxResultsOption) /\
  NoDup (map urlKey (smartResults r)) /\
  (length (smartExecutedQueries r) <= 4)%nat /\
  (head (smartExecutedQueries r) = Some (trim query) \/
   head (smartExecutedQueries r) = Some (trim (cleanedQuery (topicAnalysis r)))).
Proof. apply smartSearch_parts. Qed.

Lemma smartSearch_result_witness :
  match @smartSearch _ (Scripted.platform Scripted.site) defaultConfig "cats" duckduckgo
          noOptions (Some 2) Scripted.start
  with
  | (Ok r, _) =>
      (2 <= String.length (trim "cats"))%nat /\
      topicAnalysis r = extractTopics "cats" (smartTopicOptions noOptions) /\
      smartTopics r = topics (topicAnalysis r) /\
      Z.of_nat (length (smartResults r))
      <= Z.max 1 (default (maxResults defaultConfig) (Some 2)) /\
      NoDup (map urlKey (smartResults r)) /\
      (length (smartExecutedQueries r) <= 4)%nat /\
      (head (smartExecutedQueries r) = Some (trim "cats") \/
       head (smartExecutedQueries r) = Some (trim (cleanedQuery (topicAnalysis r))))
  | (Throw _, _) => False
  end.
Proof.
  destruct (smartSearch _ _ _ _ _ _) as [[r|err] w'] eqn:Hrun.
  - apply (smartSearch_result (Scripted.platform Scripted.site) _ _ _ _ _ _ _ _ Hrun).
  - vm_compute in Hrun. discriminate.
Defined.

Lemma comprehensivePlan_length query analysis desired maxVariants :
  Z.of_nat (length (comprehensivePlan query analysis desired maxVariants))
  <= 2 + Z.max 0 maxVariants.
Proof.
  unfold comprehensivePlan.
  set (prioritized := map topic (analyzeTopicRelevance (topics analysis))).
  set (cap := Z.min maxVariants (Z.of_nat (length prioritized))).
  destruct (buildSearchPlan_parts query analysis prioritized desired (Some cap))
    as (primary & others & -> & _ & _ & _ & Hothers).
  change (default 2 (Some cap)) with cap in Hothers.
  rewrite length_app, length_map. cbn [length].
  pose proof (sliceTo_length (Z.max 0 (maxVariants - cap))
                (List.filter
                   (fun variant =>
                      negb (bool_decide (variant ∈ map WebSearch.query (primary :: others))))
                   (generateSearchVariants (topics analysis)))) as Hvariants.
  specialize (Hvariants ltac:(lia)). subst cap. lia.
Qed.

(** X18. A [comprehensiveSearch] that returns gives the results of the steps
    it ran, put end to end: at most max(1, [maxResults]) records (10 or
    the configured [maxResults], whichever is larger, when the option is
    not given), with URLs that, trimmed, are all different; and it has
    run at most two queries more than [maxVariants]. *)
Theorem comprehensiveSearch_result {W} (P : Platform W) (config : Config) (query : string)
    (searchEngine : SearchEngine) (options : ComprehensiveOptions) w r w' :
  comprehensiveSearch config query searchEngine options w = (Ok r, w') ->
  allResults r = concat (map snd (resultsByVariant r)) /\
  comprehensiveExecuted r = map fst (resultsByVariant r) /\
  Z.of_nat (length (allResults r))
  <= Z.max 1 (default (Z.max (maxResults config) 10) (wantedResults options)) /\
  NoDup (map urlKey (allResults r)) /\
  Z.of_nat (length (comprehensiveExecuted r))
  <= 2 + Z.max 0 (default 3 (maxVariants options)).
Proof.
  unfold comprehensiveSearch, tryCatch, bind.
  set (desired := Z.max 1 _).
  set (plan := comprehensivePlan _ _ _ _).
  destruct (runSearchPlan config plan searchEngine desired w) as [[run|e] w1] eqn:Hrun.
  2: { destruct (rethrow_throws (A := ComprehensiveResult)
                   "Erreur lors de la recherche exhaustive: " e w1) as [e' ->].
       discriminate. }
  intros [= <- <-].
  cbn [allResults resultsByVariant comprehensiveExecuted].
  destruct (runSearchPlan_summary _ _ _ _ _ _ _ Hrun)
    as (Hle & Hnd & Hkeys & Hconcat & Hexecuted & rest & Hplan & _); [lia|].
  assert (Hall : (if default true (deduplicateResults options)
                  then (filterNewResults (results run) ∅).1
                  else results run) = results run).
  { destruct (default true (deduplicateResults options)); [|done].
    apply filterNewResults_idle; [done|].
    eapply Forall_impl; [exact Hkeys|]. cbn. intros c (k & Hk). exists k.
    split; [done|]. apply not_elem_of_empty. }
  rewrite Hall.
  assert (Hsnd : map snd (map (fun '(step, found) => (WebSearch.query step, found))
                              (stepResults run))
                 = map snd (stepResults run)).
  { rewrite map_map. apply map_ext. by intros [step found]. }
  assert (Hfst : map fst (map (fun '(step, found) => (WebSearch.query step, found))
                              (stepResults run))
                 = map WebSearch.query (map fst (stepResults run))).
  { rewrite !map_map. apply map_ext. by intros [step found]. }
  rewrite Hsnd, Hfst.
  split; [done|]. split; [done|]. split; [done|]. split; [done|].
  rewrite Hexecuted, length_map.
  pose proof (comprehensivePlan_length query
                (extractTopics query
                   (smartTopicOptions (default noOptions (topicOptions options))))
                desired (default 3 (maxVariants options))) as Hlength.
  fold plan in Hlength. rewrite Hplan, length_app in Hlength. lia.
Qed.

Lemma comprehensiveSearch_result_witness :
  match @comprehensiveSearch _ (Scripted.platform Scripted.site) defaultConfig "cats"
          duckduckgo Scripted.twoWanted Scripted.start
  with
  | (Ok r, _) =>
      allResults r = concat (map snd (resultsByVariant r)) /\
      comprehensiveExecuted r = map fst (resultsByVariant r) /\
      Z.of_nat (length (allResults r))
      <= Z.max 1 (default (Z.max (maxResults defaultConfig) 10)
                          (wantedResults Scripted.twoWanted)) /\
      NoDup (map urlKey (allResults r)) /\
      Z.of_nat (length (comprehensiveExecuted r))
      <= 2 + Z.max 0 (default 3 (maxVariants Scripted.twoWanted))
  | (Throw _, _) => False
  end.
Proof.
  destruct (comprehensiveSearch _ _ _ _ _) as [[r|err] w'] eqn:Hrun.
  - apply (comprehensiveSearch_result (Scripted.platform Scripted.site) _ _ _ _ _ _ _ Hrun).
  - vm_compute in Hrun. discriminate.
Defined.

(** X19. The option [deduplicateResults] changes nothing: the results of a
    run already have URLs that are all different, so the last filter of
    [comprehensiveSearch] keeps every one of them. *)
Theorem comprehensiveSearch_deduplication_idle {W} (P : Platform W) (config : Config)
    (query : string) (searchEngine : SearchEngine) (options : ComprehensiveOptions) (w : W) :
  comprehensiveSearch config query searchEngine options w
  = comprehensiveSearch config query searchEngine
      {| maxVariants := maxVariants options;
         topicOptions := topicOptions options;
         deduplicateResults := Some false;
         wantedResults := wantedResults options |} w.
Proof.
  unfold comprehensiveSearch, tryCatch, bind.
  cbn [maxVariants topicOptions deduplicateResults wantedResults default].
  set (desired := Z.max 1 _).
  set (plan := comprehensivePlan _ _ _ _).
  destruct (runSearchPlan config plan searchEngine desired w) as [[run|e] w1] eqn:Hrun;
    [|reflexivity].
  destruct (runSearchPlan_summary _ _ _ _ _ _ _ Hrun)
    as (_ & Hnd & Hkeys & _); [lia|].
  destruct (default true (deduplicateResults options)); [|reflexivity].
  rewrite filterNewResults_idle; [reflexivity|done|].
  eapply Forall_impl; [exact Hkeys|]. cbn. intros c (k & Hk). exists k.
  split; [done|]. apply not_elem_of_empty.
Qed.

(** ** [_cleanText] *)

Lemma collapseFrom_singleSpaced s : forall inRun,
  singleSpaced inRun (collapseFrom inRun s) = true.
Proof.
  induction s as [|c s IH]; intros inRun; [done|]. cbn [collapseFrom].
  destruct (isSpace c) eqn:Hc.
  - destruct inRun; [apply IH|].
    cbn [singleSpaced]. change (isSpace space) with true. cbv iota.
    rewrite IH. reflexivity.
  - cbn [singleSpaced]. rewrite Hc. apply IH.
Qed.

Lemma singleSpaced_collapseFrom s : forall afterSpace,
  singleSpaced afterSpace s = true -> collapseFrom afterSpace s = s.
Proof.
  induction s as [|c s IH]; intros afterSpace; [done|]. cbn [singleSpaced collapseFrom].
  destruct (isSpace c).
  - intros [[Hc Hfirst]%andb_true_iff Hrest]%andb_true_iff.
    apply Ascii.eqb_eq in Hc as ->. apply negb_true_iff in Hfirst as ->.
    by rewrite (IH true).
  - intros Hrest. by rewrite (IH false).
Qed.

Lemma isLineFeed_space c :
  isLineFeed c = true -> isSpace c = true /\ Ascii.eqb c space = false.
Proof. each_ascii c; cbn; (discriminate || done). Qed.

Lemma singleSpaced_squeezeFrom s : forall afterSpace,
  singleSpaced afterSpace s = true -> squeezeFrom 0 s = s.
Proof.
  induction s as [|c s IH]; intros afterSpace; [done|]. cbn [singleSpaced squeezeFrom].
  destruct (isLineFeed c) eqn:Hfeed.
  - apply isLineFeed_space in Hfeed as [-> ->]. discriminate.
  - destruct (isSpace c).
    + intros [_ Hrest]%andb_true_iff. by rewrite (IH true).
    + intros Hrest. by rewrite (IH false).
Qed.

Lemma singleSpaced_weaken s afterSpace :
  singleSpaced afterSpace s = true -> singleSpaced false s = true.
Proof.
  destruct s as [|c s]; [done|]. cbn [singleSpaced].
  destruct (isSpace c); [|done].
  intros [[-> _]%andb_true_iff ->]%andb_true_iff. done.
Qed.

Lemma singleSpaced_trimStart s : forall afterSpace,
  singleSpaced afterSpace s = true -> singleSpaced false (trimStart s) = true.
Proof.
  induction s as [|c s IH]; intros afterSpace; [done|]. cbn [singleSpaced trimStart].
  destruct (isSpace c) eqn:Hc.
  - intros [_ Hrest]%andb_true_iff. by apply (IH true).
  - intros Hrest. cbn [singleSpaced]. by rewrite Hc.
Qed.

Lemma singleSpaced_trimEnd s : forall afterSpace,
  singleSpaced afterSpace s = true -> singleSpaced afterSpace (trimEnd s) = true.
Proof.
  induction s as [|c s IH]; intros afterSpace; [done|].
  rewrite trimEnd_cons. cbn [singleSpaced].
  destruct (isSpace c) eqn:Hc.
  - intros [Hfirst Hrest%IH]%andb_true_iff.
    destruct (trimEnd s) as [|d t]; [done|].
    cbn [singleSpaced] in *. rewrite Hc, Hfirst. exact Hrest.
  - intros Hrest%IH.
    destruct (trimEnd s) as [|d t]; cbn [singleSpaced] in *; by rewrite Hc.
Qed.

(** X20. The second replacement of [_cleanText] finds nothing to replace,
    since the first one leaves no line feed: the result is the text with
    every run of white space made one space, trimmed. Its only white
    space is single spaces between words, and cleaning it again changes
    nothing. *)
Theorem cleanText_normalises (text : string) :
  cleanText text = trim (collapseSpaces text) /\
  singleSpaced false (cleanText text) = true /\
  trim (cleanText text) = cleanText text /\
  cleanText (cleanText text) = cleanText text.
Proof.
  assert (Hfirst : forall t, cleanText t = trim (collapseSpaces t)).
  { intros t. unfold cleanText, squeezeBlankLines, collapseSpaces.
    by rewrite (singleSpaced_squeezeFrom _ false (collapseFrom_singleSpaced t false)). }
  assert (Hspaced : singleSpaced false (trim (collapseSpaces text)) = true).
  { unfold trim, collapseSpaces.
    apply singleSpaced_trimEnd, (singleSpaced_trimStart _ false),
      collapseFrom_singleSpaced. }
  split; [apply Hfirst|]. rewrite !Hfirst.
  split; [exact Hspaced|]. split; [apply trim_idem|].
  unfold collapseSpaces at 1. rewrite (singleSpaced_collapseFrom _ false Hspaced).
  apply trim_idem.
Qed.

(** ** [_extractLinks] *)

Lemma extractLinks_fold (resolve : string -> string -> option string) baseUrl hrefs :
  forall links,
    NoDup links ->
    Forall (fun l => startsWith l "http" = true) links ->
    let step := fun links href =>
      if nonEmpty href then
        match resolve href baseUrl with
        | Some absoluteUrl =>
            if startsWith absoluteUrl "http"
               && negb (bool_decide (absoluteUrl ∈ links))
            then links ++ [absoluteUrl]
            else links
        | None => links
        end
      else links in
    NoDup (foldl step links hrefs) /\
    Forall (fun l => startsWith l "http" = true) (foldl step links hrefs) /\
    (forall l, l ∈ foldl step links hrefs <->
               l ∈ links \/
               (startsWith l "http" = true /\
                exists href, href ∈ hrefs /\ nonEmpty href = true /\
                             resolve href baseUrl = Some l)).
Proof.
  cbv zeta. induction hrefs as [|href hrefs IH]; intros links Hnd Hhttp; cbn [foldl].
  - split; [done|]. split; [done|]. intros l. split; [by left|].
    intros [?|(_ & href & []%elem_of_nil & _)]. done.
  - set (next := if nonEmpty href then _ else links).
    assert (Hnext : NoDup next /\ Forall (fun l => startsWith l "http" = true) next /\
              forall l, l ∈ next <->
                l ∈ links \/ (startsWith l "http" = true /\ nonEmpty href = true /\
                              resolve href baseUrl = Some l)).
    { subst next. destruct (nonEmpty href) eqn:Hsome.
      2: { split; [done|]. split; [done|]. intros l. split; [by left|].
           by intros [?|(_ & ? & _)]. }
      destruct (resolve href baseUrl) as [absoluteUrl|] eqn:Hresolve.
      2: { split; [done|]. split; [done|]. intros l. split; [by left|].
           by intros [?|(_ & _ & ?)]. }
      destruct (startsWith absoluteUrl "http") eqn:Hstart; cbn [andb].
      2: { split; [done|]. split; [done|]. intros l. split; [by left|].
           intros [?|(Hl & _ & [= <-])]; [done|congruence]. }
      destruct (bool_decide_reflect (absoluteUrl ∈ links)) as [Hin|Hout]; cbn [negb].
      { split; [done|]. split; [done|]. intros l. split; [by left|].
        intros [?|(_ & _ & [= <-])]; done. }
      split.
      { apply NoDup_app. split; [done|]. split; [|apply NoDup_singleton].
        intros x Hx ->%list_elem_of_singleton. done. }
      split.
      { apply Forall_app. split; [done|]. by repeat constructor. }
      intros l. rewrite elem_of_app, list_elem_of_singleton. split.
      - intros [?| ->]; [by left|by right].
      - intros [?|(_ & _ & [= <-])]; [by left|by right]. }
    destruct Hnext as (Hnd' & Hhttp' & Hin').
    destruct (IH next Hnd' Hhttp') as (Hnd'' & Hhttp'' & Hin'').
    split; [done|]. split; [done|].
    intros l. rewrite Hin'', Hin'. split.
    + intros [[?|(? & ? & ?)]|(? & h & ? & ? & ?)].
      * by left.
      * right. split; [done|]. exists href. split; [left|done].
      * right. split; [done|]. exists h. split; [by right|done].
    + intros [?|(? & h & [-> | ?]%elem_of_cons & ? & ?)].
      * by left; left.
      * left; right. done.
      * right. split; [done|]. by exists h.
Qed.

(** X21. The links of a page are at most 50 addresses, all different, each
    starting with [http], and each the absolute form of a non-empty
    [href] of the page. *)
Theorem extractLinks_shape (resolve : string -> string -> option string)
    (hrefs : list string) (baseUrl : string) :
  (length (extractLinks resolve hrefs baseUrl) <= 50)%nat /\
  NoDup (extractLinks resolve hrefs baseUrl) /\
  Forall (fun l => startsWith l "http" = true /\
                   exists href, href ∈ hrefs /\ nonEmpty href = true /\
                                resolve href baseUrl = Some l)
         (extractLinks resolve hrefs baseUrl).
Proof.
  unfold extractLinks.
  destruct (extractLinks_fold resolve baseUrl hrefs [] (NoDup_nil_2) (Forall_nil_2 _))
    as (Hnd & _ & Hin).
  cbv zeta in Hnd, Hin. set (links := foldl _ [] hrefs) in *.
  rewrite sliceTo_take by lia. change (Z.to_nat 50) with 50%nat.
  split; [rewrite length_take; lia|].
  split; [eapply sublist_NoDup; [exact Hnd|apply sublist_take]|].
  apply Forall_forall. intros l Hl.
  eapply elem_of_sublist in Hl; [|apply sublist_take].
  apply Hin in Hl as [[]%elem_of_nil|Hl]. exact Hl.
Qed.

(** ** [addFromWebSearch] *)

Lemma append_inj_l (p a b : string) : p +:+ a = p +:+ b -> a = b.
Proof.
  induction p as [|c p IH]; [by rewrite !append_empty_l|].
  rewrite !append_cons. intros [= Heq]. by apply IH.
Qed.

Lemma convertToDocuments_lookup clock contents i d :
  Rag.convertToDocuments clock contents !! i = Some d ->
  exists c, contents !! i = Some c /\
            Rag.id d = "web_" +:+ pretty clock +:+ "_" +:+ pretty (Z.of_nat i) /\
            Rag.content d = ExtractedContent.content c /\
            Rag.url (Rag.metadata d) = ExtractedContent.url c /\
            Rag.source (Rag.metadata d) = "websearch"%string.
Proof.
  unfold Rag.convertToDocuments. rewrite list_lookup_imap.
  destruct (contents !! i) as [c|]; [|discriminate].
  intros [= <-]. by exists c.
Qed.

Lemma convertToDocuments_ids clock contents :
  NoDup (map Rag.id (Rag.convertToDocuments clock contents)).
Proof.
  apply NoDup_alt. intros i j x Hi Hj.
  change (map Rag.id ?l) with (Rag.id <$> l) in Hi, Hj.
  rewrite list_lookup_fmap in Hi, Hj.
  destruct (Rag.convertToDocuments clock contents !! i) as [di|] eqn:Hdi; [|discriminate].
  destruct (Rag.convertToDocuments clock contents !! j) as [dj|] eqn:Hdj; [|discriminate].
  cbn in Hi, Hj. injection Hi as Hi. injection Hj as Hj.
  apply convertToDocuments_lookup in Hdi as (_ & _ & Hidi & _).
  apply convertToDocuments_lookup in Hdj as (_ & _ & Hidj & _).
  rewrite <- Hj, Hidi, Hidj in Hi.
  do 3 apply append_inj_l in Hi.
  apply (inj pretty) in Hi. lia.
Qed.

Lemma successfulContents_valid maxResults found :
  Forall (fun c => ExtractedContent.success c = true /\
                   (100 < String.length (ExtractedContent.content c))%nat)
         (Rag.successfulContents maxResults found).
Proof.
  unfold Rag.successfulContents. apply Forall_sliceTo, Forall_forall.
  intros c [_ [Hok Hlong]%andb_true_iff]%list_elem_of_In%filter_In.
  split; [done|]. by apply Nat.ltb_lt.
Qed.

Lemma filter_length_le {A} (f : A -> bool) l :
  (length (List.filter f l) <= length l)%nat.
Proof.
  induction l as [|x l IH]; [done|]. cbn [List.filter].
  destruct (f x); cbn [length]; lia.
Qed.

Lemma successfulContents_length maxResults found :
  (length (Rag.successfulContents maxResults found) <= length found)%nat /\
  (0 <= maxResults ->
   Z.of_nat (length (Rag.successfulContents maxResults found)) <= maxResults).
Proof.
  unfold Rag.successfulContents. split.
  - etrans; [apply sublist_length, sliceTo_sublist|]. apply filter_length_le.
  - apply sliceTo_length.
Qed.

Section AddFromWebSearch.
Context {W : Type} (P : Platform W).
Variable addDocuments : list Rag.Document -> M W unit.

(** What [addFromWebSearch] does once the search has returned. *)
Lemma addFromWebSearch_after_search query maxResults useSmartSearch w :
  exists search : M W (list ExtractedContent.t * option ExtractedTopics),
    (forall found w1, search w = (Ok found, w1) ->
       Z.of_nat (length found.1) <= 10 /\
       found.2 = if default true useSmartSearch
                 then Some (extractTopics query (smartTopicOptions Rag.ragTopicOptions))
                 else None) /\
    Rag.addFromWebSearch addDocuments query maxResults useSmartSearch w =
    match search w with
    | (Ok found, w1) =>
        let contents := Rag.successfulContents (default 5 maxResults) found.1 in
        if (length contents =? 0)%nat
        then (Throw (ErrorOf ("Erreur ajout contenu web: "
                +:+ latin1 "Aucun contenu valide trouvé lors de la recherche web")), w1)
        else
          match addDocuments (Rag.convertToDocuments (now w1) contents) w1 with
          | (Ok _, w2) =>
              (Ok {| Rag.documentsAdded :=
                       length (Rag.convertToDocuments (now w1) contents);
                     Rag.topicAnalysis := found.2 |}, w2)
          | (Throw e, w2) => rethrow "Erreur ajout contenu web: " e w2
          end
    | (Throw e, w1) => rethrow "Erreur ajout contenu web: " e w1
    end.
Proof.
  unfold Rag.addFromWebSearch. cbv zeta.
  set (search := if default true useSmartSearch then bind _ _ else _).
  exists search. split.
  - subst search. intros found w1. destruct (default true useSmartSearch).
    + unfold bind, ret.
      destruct (smartSearch _ _ _ _ _ w) as [[smartResult|e] w2] eqn:Hrun; [|discriminate].
      intros [= <- <-]. cbn [fst snd].
      destruct (smartSearch_parts _ _ _ _ _ _ _ _ _ Hrun) as (_ & -> & _ & Hle & _).
      split; [exact Hle|done].
    + unfold bind, ret.
      destruct (searchAndExtract _ _ _ _ w) as [[contents|e] w2] eqn:Hrun; [|discriminate].
      intros [= <- <-]. cbn [fst snd]. split; [|done].
      by apply (searchAndExtract_length defaultConfig query duckduckgo 10 w contents w2).
  - unfold tryCatch, bind at 1.
    destruct (search w) as [[found|e] w1]; [|reflexivity].
    destruct (Nat.eqb _ 0); [reflexivity|].
    unfold bind, ret.
    destruct (addDocuments _ w1) as [[[]|e] w2]; reflexivity.
Qed.

End AddFromWebSearch.

(** X22. When [addFromWebSearch] returns, it has handed to [addDocuments]
    between one and ten documents, no more than [maxResults] of them,
    with identifiers that are all different, each made of a page whose
    text has more than a hundred characters; the count it returns is
    their number, and the analysis it returns is that of the query when
    the smart search was used, and none otherwise. *)
Theorem addFromWebSearch_adds {W} (P : Platform W)
    (addDocuments : list Rag.Document -> M W unit)
    (query : string) (maxResults : option Z) (useSmartSearch : option bool) w r w' :
  Rag.addFromWebSearch addDocuments query maxResults useSmartSearch w = (Ok r, w') ->
  exists documents w1,
    addDocuments documents w1 = (Ok tt, w') /\
    Rag.documentsAdded r = length documents /\
    (1 <= length documents <= 10)%nat /\
    (0 <= default 5 maxResults -> Z.of_nat (length documents) <= default 5 maxResults) /\
    NoDup (map Rag.id documents) /\
    Forall (fun d => (100 < String.length (Rag.content d))%nat /\
                     Rag.source (Rag.metadata d) = "websearch"%string)
           documents /\
    Rag.topicAnalysis r
    = if default true useSmartSearch
      then Some (extractTopics query (smartTopicOptions Rag.ragTopicOptions))
      else None.
Proof.
  destruct (addFromWebSearch_after_search P addDocuments query maxResults useSmartSearch w)
    as (search & Hfacts & ->).
  destruct (search w) as [[found|e] w1] eqn:Hsearch.
  2: { destruct (rethrow_throws (A := Rag.AddResult) "Erreur ajout contenu web: " e w1)
         as [e' ->]. discriminate. }
  destruct (Hfacts _ _ eq_refl) as [Hten Hanalysis].
  cbv zeta.
  set (contents := Rag.successfulContents (default 5 maxResults) found.1).
  destruct (Nat.eqb_spec (length contents) 0) as [|Hsome]; [discriminate|].
  destruct (addDocuments _ w1) as [[[]|e] w2] eqn:Hadd.
  2: { destruct (rethrow_throws (A := Rag.AddResult) "Erreur ajout contenu web: " e w2)
         as [e' ->]. discriminate. }
  intros [= <- <-].
  exists (Rag.convertToDocuments (now w1) contents), w1.
  cbn [Rag.documentsAdded Rag.topicAnalysis].
  destruct (successfulContents_length (default 5 maxResults) found.1) as [Hfound Hcap].
  fold contents in Hfound, Hcap.
  assert (Hlength : length (Rag.convertToDocuments (now w1) contents) = length contents)
    by apply length_imap.
  split; [exact Hadd|]. split; [done|]. split; [lia|]. split; [rewrite Hlength; exact Hcap|].
  split; [apply convertToDocuments_ids|]. split; [|exact Hanalysis].
  apply Forall_forall. intros d [i Hd]%list_elem_of_lookup.
  apply convertToDocuments_lookup in Hd as (c & Hc & _ & -> & _ & ->).
  split; [|done].
  pose proof (successfulContents_valid (default 5 maxResults) found.1) as Hvalid.
  rewrite Forall_forall in Hvalid.
  by apply Hvalid, (list_elem_of_lookup_2 _ i).
Qed.

Lemma addFromWebSearch_adds_witness :
  match @Rag.addFromWebSearch _ (Scripted.platform Scripted.library) Scripted.store
          "dogs" None None Scripted.start
  with
  | (Ok r, w') =>
      exists documents w1,
        Scripted.store documents w1 = (Ok tt, w') /\
        Rag.documentsAdded r = length documents /\
        (1 <= length documents <= 10)%nat /\
        (0 <= default 5 None -> Z.of_nat (length documents) <= default 5 None) /\
        NoDup (map Rag.id documents) /\
        Forall (fun d => (100 < String.length (Rag.content d))%nat /\
                         Rag.source (Rag.metadata d) = "websearch"%string)
               documents /\
        Rag.topicAnalysis r
        = if default true None
          then Some (extractTopics "dogs" (smartTopicOptions Rag.ragTopicOptions))
          else None
  | (Throw _, _) => False
  end.
Proof.
  destruct (Rag.addFromWebSearch _ _ _ _ _) as [[r|err] w'] eqn:Hrun.
  - apply (addFromWebSearch_adds (Scripted.platform Scripted.library) _ _ _ _ _ _ _ Hrun).
  - vm_compute in Hrun. discriminate.
Defined.

(** X23. When the search returns but none of its records is a success with
    a text of more than a hundred characters left after the cut at
    [maxResults], [addFromWebSearch] throws without calling
    [addDocuments]: the world is left as the search left it. *)
Theorem addFromWebSearch_nothing_valid :
  (forall W (P : Platform W) (addDocuments : list Rag.Document -> M W unit)
          query maxResults useSmartSearch w smartResult w1,
     default true useSmartSearch = true ->
     smartSearch defaultConfig query duckduckgo Rag.ragTopicOptions None w
     = (Ok smartResult, w1) ->
     Rag.successfulContents (default 5 maxResults) (smartResults smartResult) = [] ->
     Rag.addFromWebSearch addDocuments query maxResults useSmartSearch w
     = (Throw (ErrorOf ("Erreur ajout contenu web: "
                 +:+ latin1 "Aucun contenu valide trouvé lors de la recherche web")), w1)) /\
  (forall W (P : Platform W) (addDocuments : list Rag.Document -> M W unit)
          query maxResults w extractedContents w1,
     searchAndExtract defaultConfig query duckduckgo None w = (Ok extractedContents, w1) ->
     Rag.successfulContents (default 5 maxResults) extractedContents = [] ->
     Rag.addFromWebSearch addDocuments query maxResults (Some false) w
     = (Throw (ErrorOf ("Erreur ajout contenu web: "
                 +:+ latin1 "Aucun contenu valide trouvé lors de la recherche web")), w1)).
Proof.
  split.
  - intros W P addDocuments query maxResults useSmartSearch w smartResult w1
      Hsmart Hrun Hnone.
    unfold Rag.addFromWebSearch, tryCatch. cbv zeta. rewrite Hsmart.
    unfold bind, ret. rewrite Hrun. cbn [fst snd]. rewrite Hnone. reflexivity.
  - intros W P addDocuments query maxResults w extractedContents w1 Hrun Hnone.
    unfold Rag.addFromWebSearch, tryCatch. cbv zeta.
    change (default true (Some false)) with false. cbv iota.
    unfold bind, ret. rewrite Hrun. cbn [fst snd]. rewrite Hnone. reflexivity.
Qed.

Lemma addFromWebSearch_nothing_valid_witness :
  match @smartSearch _ (Scripted.platform Scripted.site) defaultConfig "cats" duckduckgo
          Rag.ragTopicOptions None Scripted.start
  with
  | (Ok _, w1) =>
      @Rag.addFromWebSearch _ (Scripted.platform Scripted.site) Scripted.store
        "cats" None None Scripted.start
      = (Throw (ErrorOf ("Erreur ajout contenu web: "
                  +:+ latin1 "Aucun contenu valide trouvé lors de la recherche web")), w1)
  | (Throw _, _) => False
  end.
Proof.
  destruct (smartSearch _ _ _ _ _ _) as [[smartResult|err] w1] eqn:Hrun.
  - apply (proj1 addFromWebSearch_nothing_valid _ (Scripted.platform Scripted.site)
             Scripted.store "cats"%string None None Scripted.start smartResult w1);
      [reflexivity|exact Hrun|].
    vm_compute in Hrun. injection Hrun as <- _. vm_compute. reflexivity.
  - vm_compute in Hrun. discriminate.
Defined.

(** ** A search that finds nothing *)

(** X24. A first query for which the search engine has no URL makes the whole
    run throw, whatever steps follow in the plan: the empty list of URLs
    is refused by [extractContents], and nothing catches the exception
    on the way. *)
Theorem runSearchPlan_no_url_aborts {W} (P : Platform W) (config : Config)
    (step : SearchPlanStep) (rest : list SearchPlanStep) (searchEngine : SearchEngine)
    (desiredResults : Z) w w1 :
  1 <= desiredResults ->
  getTopUrls config (query step) searchEngine (Some (stepLimit step desiredResults)) w
  = (Ok [], w1) ->
  runSearchPlan config (step :: rest) searchEngine desiredResults w
  = (Throw (ErrorOf ("Erreur lors de la recherche et extraction: "
                     +:+ "Erreur lors de l'extraction du contenu: "
                     +:+ latin1 "Le tableau d'URLs ne peut pas être vide")), w1).
Proof.
  intros Hsome Hnone.
  unfold runSearchPlan, runSearchPlanWith, bind. cbn [runSteps].
  change (aggregatedResults emptyAccumulator) with (@nil ExtractedContent.t).
  change (Z.of_nat (length (@nil ExtractedContent.t))) with 0.
  rewrite Z.sub_0_r.
  replace (desiredResults <=? 0) with false by (symmetry; apply Z.leb_gt; lia).
  rewrite andb_false_r. unfold bind.
  by rewrite (searchAndExtract_no_urls _ _ _ _ _ _ Hnone).
Qed.

Lemma runSearchPlan_no_url_aborts_witness :
  @runSearchPlan _ (Scripted.platform Scripted.library) defaultConfig
    (Scripted.step "fish" None :: [Scripted.step "dogs" None]) duckduckgo 3 Scripted.start
  = (Throw (ErrorOf ("Erreur lors de la recherche et extraction: "
                     +:+ "Erreur lors de l'extraction du contenu: "
                     +:+ latin1 "Le tableau d'URLs ne peut pas être vide")),
     {| Scripted.requests := [Scripted.searchPage "fish"]; Scripted.pauses := [] |}).
Proof.
  apply (runSearchPlan_no_url_aborts (Scripted.platform Scripted.library)); [lia|].
  vm_compute. reflexivity.
Defined.

(** ** The results of the search engine and the domain lists *)

Lemma prefix_allChars (P : ascii -> bool) x : forall d,
  String.prefix x d = true -> allChars P d = true -> allChars P x = true.
Proof.
  induction x as [|c x IH]; intros d; [done|].
  destruct d as [|c' d]; cbn [String.prefix]; [discriminate|].
  destruct (ascii_dec c c') as [<-|]; [|discriminate].
  cbn [allChars]. intros Hprefix [-> Hd]%andb_true_iff. by rewrite (IH d).
Qed.

Lemma includes_allChars (P : ascii -> bool) d : forall x,
  includes d x = true -> allChars P d = true -> allChars P x = true.
Proof.
  induction d as [|c d IH]; intros x.
  - cbn [includes]. rewrite orb_false_r. intros Hprefix _.
    by apply (prefix_allChars P x EmptyString).
  - cbn [includes]. intros [Hprefix|Hlater]%orb_true_iff Hd.
    + by apply (prefix_allChars P x (String c d)).
    + cbn [allChars] in Hd. apply andb_true_iff in Hd as [_ Hd]. by apply IH.
Qed.

Lemma toLowerCase_no_upper s : allChars (fun c => negb (isUpper c)) (toLowerCase s) = true.
Proof.
  eapply allChars_impl; [|apply toLowerCase_lowerFixed].
  intros c Hc. by rewrite (lowerFixed_not_upper c Hc).
Qed.

Lemma resultOfHit_ranks (hits : list Hit) {W} `{Platform W} : forall k,
  let found := omap id (imap (fun index => resultOfHit (k + index)) hits) in
  StronglySorted (fun a b => SearchResult.rank a < SearchResult.rank b) found /\
  Forall (fun r => Z.of_nat k + 1 <= SearchResult.rank r /\
                   nonEmpty (SearchResult.title r) = true /\
                   trim (SearchResult.title r) = SearchResult.title r /\
                   nonEmpty (SearchResult.snippet r) = true /\
                   trim (SearchResult.snippet r) = SearchResult.snippet r)
         found.
Proof.
  cbv zeta. induction hits as [|hit hits IH]; intros k.
  - split; constructor.
  - rewrite imap_cons.
    assert (Hnext : imap ((fun index => resultOfHit (k + index)) ∘ S) hits
                    = imap (fun index => resultOfHit (S k + index)) hits).
    { apply imap_ext. intros i x _. cbn. f_equal. lia. }
    rewrite Hnext. destruct (IH (S k)) as [Hsorted Hall].
    cbn [omap]. rewrite Nat.add_0_r.
    destruct (resultOfHit k hit) as [r|] eqn:Hr; cbn [id].
    2: { split; [exact Hsorted|]. eapply Forall_impl; [exact Hall|].
         cbn. intros r (? & ?). split; [lia|done]. }
    unfold resultOfHit in Hr.
    destruct (hitHref hit) as [url|]; [|discriminate].
    destruct (nonEmpty (trim (hitTitle hit)) && nonEmpty url
              && nonEmpty (trim (hitSnippet hit))) eqn:Hkeep; [|discriminate].
    apply andb_true_iff in Hkeep as [[Htitle _]%andb_true_iff Hsnippet].
    injection Hr as <-. split.
    + constructor; [exact Hsorted|].
      eapply Forall_impl; [exact Hall|]. cbn. intros r (? & _). lia.
    + constructor.
      * cbn [SearchResult.rank SearchResult.title SearchResult.snippet].
        rewrite !trim_idem. repeat split; try done; lia.
      * eapply Forall_impl; [exact Hall|]. cbn. intros r (? & ?). split; [lia|done].
Qed.

(** X25. What [getTopUrls] returns has passed both domain lists: its domain
    holds no entry of [excludeDomains] and, when [includeDomains] is not
    empty, holds one of its entries. The domain is compared in lower
    case and the entries as they are written, so an entry with a capital
    letter is never found in any domain. *)
Theorem getTopUrls_respects_domains :
  (forall W (P : Platform W) config query searchEngine limit w urls w',
     getTopUrls config query searchEngine limit w = (Ok urls, w') ->
     Forall (fun url =>
               Forall (fun excluded => includes (extractDomain url) excluded = false)
                      (excludeDomains config) /\
               (includeDomains config <> [] ->
                Exists (fun included => includes (extractDomain url) included = true)
                       (includeDomains config)))
            urls) /\
  (forall W (P : Platform W) url entry,
     allChars (fun c => negb (isUpper c)) entry = false ->
     includes (extractDomain url) entry = false).
Proof.
  split.
  - intros W P config query searchEngine limit w urls w'.
    unfold getTopUrls, tryCatch, bind, lift.
    destruct (validateQuery query) as [[]|e].
    2: { destruct (rethrow_throws (A := list string)
                     "Erreur lors de la recherche: " e w) as [e' ->]. discriminate. }
    destruct (performSearch config query searchEngine w) as [[found|e] w1].
    2: { destruct (rethrow_throws (A := list string)
                     "Erreur lors de la recherche: " e w1) as [e' ->]. discriminate. }
    intros [= <- <-]. apply Forall_map, Forall_sliceTo, Forall_forall.
    unfold filterResults. intros r [_ Hkeep]%list_elem_of_In%filter_In.
    cbv zeta in Hkeep.
    destruct (existsb _ (excludeDomains config)) eqn:Hexcluded; [discriminate|].
    split.
    + apply Forall_forall. intros excluded Hin%list_elem_of_In.
      destruct (includes _ excluded) eqn:Hfound; [|done].
      assert (existsb (fun excluded =>
                         includes (extractDomain (SearchResult.url r)) excluded)
                      (excludeDomains config) = true)
        by (apply existsb_exists; eauto).
      congruence.
    + intros Hsome.
      destruct (includeDomains config) as [|first others] eqn:Hincluded; [done|].
      replace (0 <? Z.of_nat (length (first :: others))) with true in Hkeep
        by (symmetry; apply Z.ltb_lt; cbn [length]; lia).
      apply existsb_exists in Hkeep as (included & Hin%list_elem_of_In & Hfound).
      apply Exists_exists. eauto.
  - intros W P url entry Hupper.
    destruct (includes (extractDomain url) entry) eqn:Hfound; [|done].
    apply (includes_allChars (fun c => negb (isUpper c))) in Hfound; [congruence|].
    unfold extractDomain. destruct (urlHostname url); [|done].
    apply toLowerCase_no_upper.
Qed.

Lemma getTopUrls_respects_domains_witness :
  match @getTopUrls _ (Scripted.platform Scripted.site) Scripted.noDown "cats" duckduckgo
          None Scripted.start
  with
  | (Ok urls, _) =>
      urls = ["https://up.example/b"%string] /\
      Forall (fun url =>
                Forall (fun excluded =>
                          includes (@extractDomain _ (Scripted.platform Scripted.site) url)
                                   excluded = false)
                       (excludeDomains Scripted.noDown) /\
                (includeDomains Scripted.noDown <> [] ->
                 Exists (fun included =>
                           includes (@extractDomain _ (Scripted.platform Scripted.site) url)
                                    included = true)
                        (includeDomains Scripted.noDown)))
             urls
  | (Throw _, _) => False
  end /\
  includes (@extractDomain _ (Scripted.platform Scripted.site) "https://down.example/a")
           "Down.example" = false.
Proof.
  split.
  - destruct (getTopUrls _ _ _ _ _) as [[urls|err] w'] eqn:Hrun.
    + split.
      * vm_compute in Hrun. by injection Hrun as <- _.
      * apply (proj1 getTopUrls_respects_domains _ _ _ _ _ _ _ _ _ Hrun).
    + vm_compute in Hrun. discriminate.
  - apply (proj2 getTopUrls_respects_domains _ (Scripted.platform Scripted.site)).
    reflexivity.
Defined.

(** X26. The results read off a page of the search engine come in the order
    of the page, with ranks that count from 1 and increase strictly;
    their titles and snippets are trimmed and not empty. *)
Theorem searchDuckDuckGo_ranks {W} (P : Platform W) (config : Config) (query : string)
    w found w' :
  searchDuckDuckGo config query w = (Ok found, w') ->
  StronglySorted (fun a b => SearchResult.rank a < SearchResult.rank b) found /\
  Forall (fun r => 1 <= SearchResult.rank r /\
                   nonEmpty (SearchResult.title r) = true /\
                   trim (SearchResult.title r) = SearchResult.title r /\
                   nonEmpty (SearchResult.snippet r) = true /\
                   trim (SearchResult.snippet r) = SearchResult.snippet r)
         found.
Proof.
  unfold searchDuckDuckGo, bind, ret.
  destruct (fetchWithRetry config _ w) as [[response|e] w1]; [|discriminate].
  intros [= <- <-].
  apply (resultOfHit_ranks (parseResultPage response) 0).
Qed.

Lemma searchDuckDuckGo_ranks_witness :
  match @searchDuckDuckGo _ (Scripted.platform Scripted.site) defaultConfig "cats"
          Scripted.start
  with
  | (Ok found, _) =>
      StronglySorted (fun a b => SearchResult.rank a < SearchResult.rank b) found /\
      Forall (fun r => 1 <= SearchResult.rank r /\
                       nonEmpty (SearchResult.title r) = true /\
                       trim (SearchResult.title r) = SearchResult.title r /\
                       nonEmpty (SearchResult.snippet r) = true /\
                       trim (SearchResult.snippet r) = SearchResult.snippet r)
             found
  | (Throw _, _) => False
  end.
Proof.
  destruct (searchDuckDuckGo _ _ _) as [[found|err] w'] eqn:Hrun.
  - apply (searchDuckDuckGo_ranks (Scripted.platform Scripted.site) _ _ _ _ _ Hrun).
  - vm_compute in Hrun. discriminate.
Defined.
